(** * prime_circuit_breaker.py: a circuit breaker driven by a primality test

    Shallow embedding of [src/random_python/prime_circuit_breaker.py].

    Conventions of the model.
    - Python [int] is [Z].
    - Every call of [time.time()] is an input of the model: a method takes one
      timestamp argument per read, in source order.  [random.randint] takes
      the entropy it consumes as an argument.
    - Methods run in a small monad that threads [self], collects what is
      printed and propagates exceptions (which do not roll [self] back).
    - [math.sqrt] is modelled bit for bit on IEEE 754 binary64 with
      [SpecFloat]: its rounding decides how many trial divisors [is_prime]
      visits, and the conversion of its argument can fail.
    - The two classes are embedded twice.  The first embedding takes
      timestamps, durations and percentages as exact rationals [Q] and
      printing as always successful.  It carries what the counters and the
      control flow do, which no rounding and no formatting touches.  The
      second, [Binary64], computes the clock arithmetic and the two rates in
      binary64, keeps ints and floats apart, and lets a method raise where
      building a line to print raises.  It carries every property that
      depends on a stored sum, on a difference or a rate, or on [trip] and
      what calls it returning. *)

From Stdlib Require Import ZArith QArith Qminmax Lqa Lia List Bool.
From Stdlib Require Import Zdivisibility Sorting.Permutation Sorting.Sorted.
From Stdlib Require Import Floats.SpecFloat.
Import ListNotations.

Local Open Scope Z_scope.

(** ** Exceptions and outcomes *)

Inductive Exn : Type :=
| OverflowError   (* int too large to convert to float *)
| ValueError      (* empty range for randrange() *)
| OSError.        (* a time the C library cannot break down *)

Inductive Outcome (A : Type) : Type :=
| Return (a : A)
| Raise (e : Exn).

Arguments Return {A} a.
Arguments Raise {A} e.

(** ** What the program prints

    One constructor per [print] call, carrying the interpolated data.  The
    wording of the lines and the formatting of numbers and dates are not
    modelled, and formatting is taken to succeed. *)

Inductive Event : Type :=
| MsgTripped (consecutive : Z)          (* line 52 *)
| MsgWaiting (cooldown : Q)             (* line 53 *)
| MsgReopenAt (until : Q)               (* line 54 *)
| MsgReset                              (* line 64 *)
| MsgBlocked (retry_in : Q)             (* line 151 *)
| MsgAttempt (attempt number : Z)       (* line 158 *)
| MsgPrime (total_found : nat)          (* line 164 *)
| MsgNotPrime.                          (* line 169 *)

(** ** The method monad: [self], standard output, exceptions *)

Record Run (S A : Type) : Type := mkRun {
  outcome : Outcome A;
  final : S;
  printed : list Event
}.

Arguments mkRun {S A} outcome final printed.
Arguments outcome {S A} r.
Arguments final {S A} r.
Arguments printed {S A} r.

Definition Method (S A : Type) : Type := S -> Run S A.

Definition ret {S A} (a : A) : Method S A :=
  fun self => mkRun (Return a) self [].

Definition bind {S A B} (m : Method S A) (k : A -> Method S B) : Method S B :=
  fun self =>
    let r := m self in
    match outcome r with
    | Return a =>
        let r' := k a (final r) in
        mkRun (outcome r') (final r') (printed r ++ printed r')
    | Raise e => mkRun (Raise e) (final r) (printed r)
    end.

Definition get {S} : Method S S :=
  fun self => mkRun (Return self) self [].

Definition put {S} (s : S) : Method S unit :=
  fun _ => mkRun (Return tt) s [].

Definition print {S} (e : Event) : Method S unit :=
  fun self => mkRun (Return tt) self [e].

Definition lift {S A} (o : Outcome A) : Method S A :=
  fun self => mkRun o self [].

Definition when {S} (b : bool) (m : Method S unit) : Method S unit :=
  if b then m else ret tt.

Declare Scope method_scope.
Delimit Scope method_scope with method.
Notation "x <- m ;; k" := (bind m (fun x => k))
  (at level 61, m at next level, right associativity) : method_scope.
Notation "m ;; k" := (bind m (fun _ => k))
  (at level 61, right associativity) : method_scope.
Local Open Scope method_scope.

(** A method of a field run as a method of its owner. *)
Definition on_field {S T A} (proj : S -> T) (upd : T -> S -> S)
  (m : Method T A) : Method S A :=
  fun self =>
    let r := m (proj self) in
    mkRun (outcome r) (upd (final r) self) (printed r).

(** ** Python built-ins used by the script *)

(** [max(a, b)] on ints and on rationals: the first argument wins ties. *)
Definition py_max (a b : Z) : Z := if b >? a then b else a.

Definition Qgt_bool (a b : Q) : bool := negb (Qle_bool a b).

Definition py_qmax (a b : Q) : Q := if Qgt_bool b a then b else a.

(** ** binary64 and [int(math.sqrt(n))] *)

Module Float64.

Definition prec : Z := 53.
Definition emax : Z := 1024.

(** [float(n)] for a Python int: round to nearest, ties to even;
    [OverflowError] where IEEE would give an infinity. *)
Definition of_int (n : Z) : Outcome spec_float :=
  match binary_normalize prec emax n 0 false with
  | S754_infinity _ => Raise OverflowError
  | x => Return x
  end.

Definition sqrt (x : spec_float) : spec_float := SFsqrt prec emax x.

(** [int(x)] for a finite float: truncation towards zero.  The two
    non-finite cases raise in Python; [is_prime] never reaches them. *)
Definition to_int (x : spec_float) : Outcome Z :=
  match x with
  | S754_zero _ => Return 0
  | S754_finite s m e =>
      let a := match e with
               | Zneg p => Z.shiftr (Zpos m) (Zpos p)
               | _ => Z.shiftl (Zpos m) e
               end in
      Return (if s then - a else a)
  | S754_infinity _ => Raise OverflowError
  | S754_nan => Raise ValueError
  end.

End Float64.

(** [int(math.sqrt(n))] for [n >= 0]. *)
Definition int_sqrt (n : Z) : Outcome Z :=
  match Float64.of_int n with
  | Return x => Float64.to_int (Float64.sqrt x)
  | Raise e => Raise e
  end.

(** ** Prime number utilities *)

(** [len(range(start, stop, 2))] *)
Definition range2_len (start stop : Z) : nat :=
  Z.to_nat ((stop - start + 1) / 2).

(** The loop of lines 116-120, [i] running over [range(i, ..., 2)] for
    [steps] more iterations. *)
Fixpoint trial_division (n i : Z) (steps : nat) : bool :=
  match steps with
  | O => true
  | Datatypes.S k => if n mod i =? 0 then false else trial_division n (i + 2) k
  end.

Definition is_prime (n : Z) : Outcome bool :=
  if n <? 2 then Return false
  else if n =? 2 then Return true
  else if n mod 2 =? 0 then Return false
  else
    match int_sqrt n with
    | Return s => Return (trial_division n 3 (range2_len 3 (s + 1)))
    | Raise e => Raise e
    end.

(** [random.randint(a, b)]: some integer of [a..b], chosen by the entropy
    [r]; [ValueError] on an empty range. *)
Definition randint (r : Z) (a b : Z) : Outcome Z :=
  if a >? b then Raise ValueError
  else Return (a + r mod (b - a + 1)).

Definition generate_random_number (r : Z) (min_val max_val : Z) : Outcome Z :=
  randint r min_val max_val.

(** ** Circuit breaker *)

Record CircuitBreaker : Type := mkCircuitBreaker {
  failure_threshold : Z;
  cooldown_seconds : Q;
  _tripped_until : Q;              (* When circuit will close again *)
  _consecutive_failures : Z;       (* Current failure streak *)
  _total_failures : Z;             (* Total failures since start *)
  _total_successes : Z;            (* Total successes since start *)
  _last_failure_time : option Q    (* When last failure occurred *)
}.

Definition set_tripped_until (v : Q) (cb : CircuitBreaker) : CircuitBreaker :=
  mkCircuitBreaker (failure_threshold cb) (cooldown_seconds cb) v
    (_consecutive_failures cb) (_total_failures cb) (_total_successes cb)
    (_last_failure_time cb).

Definition set_consecutive_failures (v : Z) (cb : CircuitBreaker) : CircuitBreaker :=
  mkCircuitBreaker (failure_threshold cb) (cooldown_seconds cb) (_tripped_until cb)
    v (_total_failures cb) (_total_successes cb) (_last_failure_time cb).

Definition set_total_failures (v : Z) (cb : CircuitBreaker) : CircuitBreaker :=
  mkCircuitBreaker (failure_threshold cb) (cooldown_seconds cb) (_tripped_until cb)
    (_consecutive_failures cb) v (_total_successes cb) (_last_failure_time cb).

Definition set_total_successes (v : Z) (cb : CircuitBreaker) : CircuitBreaker :=
  mkCircuitBreaker (failure_threshold cb) (cooldown_seconds cb) (_tripped_until cb)
    (_consecutive_failures cb) (_total_failures cb) v (_last_failure_time cb).

Definition set_last_failure_time (v : option Q) (cb : CircuitBreaker) : CircuitBreaker :=
  mkCircuitBreaker (failure_threshold cb) (cooldown_seconds cb) (_tripped_until cb)
    (_consecutive_failures cb) (_total_failures cb) (_total_successes cb) v.

(** [self.x = f(self)] *)
Definition assign {S V} (setter : V -> S -> S) (rhs : S -> V) : Method S unit :=
  self <- get ;; put (setter (rhs self) self).

(** The dict returned by [get_stats], under its keys. *)
Module Stats.
Record t : Type := mk {
  is_open : bool;
  consecutive_failures : Z;
  total_failures : Z;
  total_successes : Z;
  failure_threshold : Z;
  cooldown_seconds : Q;
  next_retry_time : option Q;
  seconds_until_retry : Q;
  success_rate : Q
}.
End Stats.

(** [__init__]: stores its arguments, checks nothing. *)
Definition CircuitBreaker_init (failure_threshold : Z) (cooldown_seconds : Q)
  : Outcome CircuitBreaker :=
  Return (mkCircuitBreaker failure_threshold cooldown_seconds 0 0 0 0 None).

(** [allow]; [now] is the reading of [time.time()] on line 41. *)
Definition allow (now : Q) : Method CircuitBreaker bool :=
  self <- get ;;
  ret (Qgt_bool now (_tripped_until self)).

(** [trip]; [now1] is read on line 47, [now2] on line 51 (only when the
    threshold is reached).  The sum of line 51 is exact here and the three
    lines are taken to print; [Binary64.trip] rounds the sum and raises
    where Python does. *)
Definition trip (now1 now2 : Q) : Method CircuitBreaker unit :=
  assign set_consecutive_failures (fun self => _consecutive_failures self + 1) ;;
  assign set_total_failures (fun self => _total_failures self + 1) ;;
  assign set_last_failure_time (fun _ => Some now1) ;;
  self <- get ;;
  when (_consecutive_failures self >=? failure_threshold self)
    (assign set_tripped_until (fun self => now2 + cooldown_seconds self)%Q ;;
     self <- get ;;
     print (MsgTripped (_consecutive_failures self)) ;;
     print (MsgWaiting (cooldown_seconds self)) ;;
     print (MsgReopenAt (_tripped_until self))).

(** [reset]; [now] is read by the [allow()] of line 58. *)
Definition reset (now : Q) : Method CircuitBreaker unit :=
  allowed <- allow now ;;
  let was_open := negb allowed in
  assign set_tripped_until (fun _ => 0%Q) ;;
  assign set_consecutive_failures (fun _ => 0) ;;
  assign set_total_successes (fun self => _total_successes self + 1) ;;
  when was_open (print MsgReset).

(** [record_success]; [now1] is read by the [allow()] of line 68, [now2] by
    [reset] when it is called. *)
Definition record_success (now1 now2 : Q) : Method CircuitBreaker unit :=
  allowed <- allow now1 ;;
  if allowed then
    assign set_consecutive_failures (fun _ => 0) ;;
    assign set_total_successes (fun self => _total_successes self + 1)
  else
    reset now2.

(** [get_stats]; [now1] is read by the [allow()] of line 77, [now2] on line 86
    (only when the breaker is open).  The difference of line 86 and the rate
    of line 87 are exact here; [Binary64.get_stats] computes them in
    binary64. *)
Definition get_stats (now1 now2 : Q) : Method CircuitBreaker Stats.t :=
  allowed <- allow now1 ;;
  let is_open := negb allowed in
  self <- get ;;
  ret (Stats.mk
         is_open
         (_consecutive_failures self)
         (_total_failures self)
         (_total_successes self)
         (failure_threshold self)
         (cooldown_seconds self)
         (if is_open then Some (_tripped_until self) else None)
         (if is_open then py_qmax 0 (_tripped_until self - now2) else 0)%Q
         (inject_Z (_total_successes self)
            / inject_Z (py_max 1 (_total_successes self + _total_failures self))
            * 100)%Q).

(** ** Prime hunter with circuit breaker *)

Record PrimeHunter : Type := mkPrimeHunter {
  circuit_breaker : CircuitBreaker;
  min_num : Z;
  max_num : Z;
  primes_found : list Z;
  attempts : Z
}.

Definition set_circuit_breaker (v : CircuitBreaker) (h : PrimeHunter) : PrimeHunter :=
  mkPrimeHunter v (min_num h) (max_num h) (primes_found h) (attempts h).

Definition set_primes_found (v : list Z) (h : PrimeHunter) : PrimeHunter :=
  mkPrimeHunter (circuit_breaker h) (min_num h) (max_num h) v (attempts h).

Definition set_attempts (v : Z) (h : PrimeHunter) : PrimeHunter :=
  mkPrimeHunter (circuit_breaker h) (min_num h) (max_num h) (primes_found h) v.

(** [self.circuit_breaker.m(...)] *)
Definition breaker {A} (m : Method CircuitBreaker A) : Method PrimeHunter A :=
  on_field circuit_breaker set_circuit_breaker m.

Definition PrimeHunter_init (failure_threshold : Z) (cooldown_seconds : Q)
  (min_num max_num : Z) : Outcome PrimeHunter :=
  match CircuitBreaker_init failure_threshold cooldown_seconds with
  | Return cb => Return (mkPrimeHunter cb min_num max_num [] 0)
  | Raise e => Raise e
  end.

(** [hunt_prime]; [now0] is read by the [allow()] of line 148, [now1] and
    [now2] by whichever of [get_stats], [record_success] and [trip] runs next,
    [r] is the entropy of the random draw.  The lines are taken to print
    here; [Binary64.hunt_prime] raises where line 158 or [trip] does. *)
Definition hunt_prime (now0 now1 now2 : Q) (r : Z) : Method PrimeHunter bool :=
  allowed <- breaker (allow now0) ;;
  if negb allowed then
    stats <- breaker (get_stats now1 now2) ;;
    print (MsgBlocked (Stats.seconds_until_retry stats)) ;;
    ret false
  else
    assign set_attempts (fun self => attempts self + 1) ;;
    self <- get ;;
    number <- lift (generate_random_number r (min_num self) (max_num self)) ;;
    print (MsgAttempt (attempts self) number) ;;
    prime <- lift (is_prime number) ;;
    if prime then
      assign set_primes_found (fun self => primes_found self ++ [number]) ;;
      breaker (record_success now1 now2) ;;
      self <- get ;;
      print (MsgPrime (length (primes_found self))) ;;
      ret true
    else
      breaker (trip now1 now2) ;;
      print MsgNotPrime ;;
      ret false.

(** [max(l)] of a non-empty list; [None] stands for the guard
    [if self.primes_found else None] of line 178. *)
Definition py_max_list (l : list Z) : option Z :=
  match l with
  | [] => None
  | x :: rest => Some (fold_left py_max rest x)
  end.

(** [l[-k:]] for [k > 0]: the last [k] items, all of them when there are
    fewer. *)
Definition py_last (k : nat) {A} (l : list A) : list A :=
  skipn (length l - k) l.

(** [sorted(l, reverse=True)] on ints, as a stable insertion sort: an item
    goes in front of the first one that is not larger, so equal items keep
    the order they came in. *)
Fixpoint insert_descending (x : Z) (l : list Z) : list Z :=
  match l with
  | [] => [x]
  | y :: rest => if y <=? x then x :: l else y :: insert_descending x rest
  end.

Definition sorted_reverse (l : list Z) : list Z :=
  fold_right insert_descending [] l.

(** The dict returned by [get_summary], under its keys. *)
Module Summary.
Record t : Type := mk {
  attempts : Z;
  primes_found : nat;
  largest_prime : option Z;
  prime_hit_rate : Q;
  circuit_breaker : Stats.t;
  recent_primes : list Z
}.
End Summary.

(** [get_summary]; [now1] and [now2] are the readings of [get_stats].  The
    rate of line 179 is exact here; [Binary64.get_summary] computes it in
    binary64. *)
Definition get_summary (now1 now2 : Q) : Method PrimeHunter Summary.t :=
  cb_stats <- breaker (get_stats now1 now2) ;;
  self <- get ;;
  ret (Summary.mk
         (attempts self)
         (length (primes_found self))
         (py_max_list (primes_found self))
         (inject_Z (Z.of_nat (length (primes_found self)))
            / inject_Z (py_max 1 (attempts self)) * 100)%Q
         cb_stats
         (sorted_reverse (py_last 5 (primes_found self)))).

(** ** Histories of a breaker

    The calls a client can make, each with the clock readings it consumes. *)

Inductive Call : Type :=
| CallAllow (now : Q)
| CallTrip (now1 now2 : Q)
| CallReset (now : Q)
| CallRecordSuccess (now1 now2 : Q)
| CallGetStats (now1 now2 : Q).

Definition perform (c : Call) : Method CircuitBreaker unit :=
  match c with
  | CallAllow now => allow now ;; ret tt
  | CallTrip now1 now2 => trip now1 now2
  | CallReset now => reset now
  | CallRecordSuccess now1 now2 => record_success now1 now2
  | CallGetStats now1 now2 => get_stats now1 now2 ;; ret tt
  end.

Fixpoint perform_all (cs : list Call) : Method CircuitBreaker unit :=
  match cs with
  | [] => ret tt
  | c :: rest => perform c ;; perform_all rest
  end.

(** A state is reachable when some history leads to it from a freshly
    constructed breaker. *)
Definition reachable (cb : CircuitBreaker) : Prop :=
  exists threshold cooldown cb0 cs,
    CircuitBreaker_init threshold cooldown = Return cb0 /\
    final (perform_all cs cb0) = cb.

(** ** Auxiliary notions of the proofs *)

(** What [trip] does before it looks at the threshold (lines 45-47). *)
Definition count_failure (now : Q) (cb : CircuitBreaker) : CircuitBreaker :=
  set_last_failure_time (Some now)
    (set_total_failures (_total_failures cb + 1)
       (set_consecutive_failures (_consecutive_failures cb + 1) cb)).

Definition streak_within_total (cb : CircuitBreaker) : Prop :=
  0 <= _consecutive_failures cb <= _total_failures cb.

(** A history in the manner of [test_circuit_breaker]: three failures open
    the circuit, a success after the cooldown, one more failure. *)
Definition sample_history : list Call :=
  [CallAllow 1; CallTrip 1 1; CallAllow 2; CallTrip 2 2; CallAllow 3;
   CallTrip 3 3; CallGetStats 4 4; CallAllow 9; CallRecordSuccess 9 9;
   CallTrip 10 10].

(** ** Sessions of a hunter

    What one call of [hunt_prime] consumes: three clock readings and the
    entropy of the draw. *)

Record Hunt : Type := mkHunt {
  hunt_now0 : Q;
  hunt_now1 : Q;
  hunt_now2 : Q;
  hunt_entropy : Z
}.

Definition hunt (x : Hunt) : Method PrimeHunter bool :=
  hunt_prime (hunt_now0 x) (hunt_now1 x) (hunt_now2 x) (hunt_entropy x).

(** The calls [hunter.hunt_prime()] of the loop of [main], in order.  An
    exception ends the session: [main] catches nothing but the keyboard
    interrupt. *)
Fixpoint hunt_all (hs : list Hunt) : Method PrimeHunter unit :=
  match hs with
  | [] => ret tt
  | x :: rest => hunt x ;; hunt_all rest
  end.

(** The number [hunt_prime] tests when the range is not empty. *)
Definition drawn (r : Z) (h : PrimeHunter) : Z :=
  min_num h + r mod (max_num h - min_num h + 1).

(** A hunter as a session can leave it, from construction on. *)
Definition session_state (h : PrimeHunter) : Prop :=
  exists threshold cooldown lo hi h0 hs,
    PrimeHunter_init threshold cooldown lo hi = Return h0 /\
    final (hunt_all hs h0) = h.

(** How many calls of a history record a failure, and how many a success. *)
Definition is_failure (c : Call) : bool :=
  match c with CallTrip _ _ => true | _ => false end.

Definition is_success (c : Call) : bool :=
  match c with CallReset _ | CallRecordSuccess _ _ => true | _ => false end.

Definition failures_in (cs : list Call) : Z :=
  Z.of_nat (length (filter is_failure cs)).

Definition successes_in (cs : list Call) : Z :=
  Z.of_nat (length (filter is_success cs)).

(** The state a history leaves behind. *)
Definition state_after (cs : list Call) (cb : CircuitBreaker) : CircuitBreaker :=
  final (perform_all cs cb).

(** ** Notions of the further properties *)

(** Two runs that end alike: same outcome, same final state. *)
Definition same_result {S A} (r1 r2 : Run S A) : Prop :=
  outcome r1 = outcome r2 /\ final r1 = final r2.

(** What a hunt can do to a hunter, case by case. *)
Inductive hunt_effect (x : Hunt) (h : PrimeHunter) : Run PrimeHunter bool -> Prop :=
| HuntBlocked run :
    outcome run = Return false -> final run = h ->
    hunt_effect x h run
| HuntRaised run e :
    outcome run = Raise e -> final run = set_attempts (attempts h + 1) h ->
    hunt_effect x h run
| HuntFound run number :
    min_num h <= max_num h ->
    number = drawn (hunt_entropy x) h ->
    is_prime number = Return true ->
    outcome run = Return true ->
    final run =
      set_circuit_breaker
        (final (record_success (hunt_now1 x) (hunt_now2 x) (circuit_breaker h)))
        (set_primes_found (primes_found h ++ [number]) (set_attempts (attempts h + 1) h)) ->
    hunt_effect x h run
| HuntMissed run :
    outcome run = Return false ->
    final run =
      set_circuit_breaker
        (final (trip (hunt_now1 x) (hunt_now2 x) (circuit_breaker h)))
        (set_attempts (attempts h + 1) h) ->
    hunt_effect x h run.


(** A circuit that has been opened has seen a threshold of failures. *)
Definition opened_only_after_threshold (cb : CircuitBreaker) : Prop :=
  _tripped_until cb = 0%Q \/ failure_threshold cb <= _total_failures cb.

(** Unfolds a method call down to the record operations. *)
Ltac run_method :=
  cbv [allow trip reset record_success get_stats perform assign when
       bind ret get put print lift on_field breaker
       outcome final printed].

(** * The breaker and the hunter once more, bit for bit

    The definitions above take the clock and the two rates as exact
    rationals and printing as always successful.  That is enough for what
    the counters and the control flow do; it is not what the script computes
    where a sum, a difference or a quotient of floats is stored or compared,
    nor where building a line to print fails.  This module embeds the same
    classes again with
    - [time.time()], [_tripped_until] once set, the waits and the two rates
      in IEEE 754 binary64, every operation rounded as Python rounds it;
    - [cooldown_seconds] (and the initial [_tripped_until = 0]) as a Python
      number, int or float;
    - the exceptions that formatting raises: the conversion of a large int
      to decimal digits, and [datetime.fromtimestamp] on a time the
      platform cannot turn into a date. *)

Module Binary64.

(** ** Python numbers *)

Inductive Number : Type :=
| PyInt (z : Z)
| PyFloat (x : spec_float).

(** The conversion an arithmetic operator applies to the operand that is
    not a float already. *)
Definition to_float (n : Number) : Outcome spec_float :=
  match n with
  | PyInt z => Float64.of_int z
  | PyFloat x => Return x
  end.

Definition add (x y : spec_float) : spec_float :=
  SFadd Float64.prec Float64.emax x y.

Definition sub (x y : spec_float) : spec_float :=
  SFsub Float64.prec Float64.emax x y.

Definition mul (x y : spec_float) : spec_float :=
  SFmul Float64.prec Float64.emax x y.

(** [x > z] for a float and an int: Python compares the two exactly. *)
Definition gt_int (x : spec_float) (z : Z) : bool :=
  match x with
  | S754_nan => false
  | S754_infinity s => negb s
  | S754_zero _ => 0 >? z
  | S754_finite s m e =>
      let v := if s then Zneg m else Zpos m in
      match e with
      | Zneg p => v >? z * 2 ^ Zpos p
      | _ => v * 2 ^ e >? z
      end
  end.

(** [x > n] for a float [x]. *)
Definition gt (x : spec_float) (n : Number) : bool :=
  match n with
  | PyInt z => gt_int x z
  | PyFloat y => SFltb y x
  end.

(** [max(0, x)] for a float [x]: the first argument stays unless the
    second is greater. *)
Definition max_0 (x : spec_float) : Number :=
  if gt_int x 0 then PyFloat x else PyInt 0.

(** [n - x] for a number [n] and a float [x]. *)
Definition minus_float (n : Number) (x : spec_float) : Outcome spec_float :=
  match to_float n with
  | Return y => Return (sub y x)
  | Raise e => Raise e
  end.

(** [x + n] for a float [x] and a number [n]. *)
Definition float_plus (x : spec_float) (n : Number) : Outcome spec_float :=
  match to_float n with
  | Return y => Return (add x y)
  | Raise e => Raise e
  end.

(** [a / b] for an int [a] and an int [b > 0]: the quotient of the two
    integers rounded once, to nearest, ties to even; [OverflowError] where
    it is too large for a float. *)
Definition true_divide (a : Z) (b : positive) : Outcome spec_float :=
  let rounded (s : bool) (m : positive) :=
    let '(q, e, l) :=
      SFdiv_core_binary Float64.prec Float64.emax (Zpos m) 0 (Zpos b) 0 in
    match binary_round_aux Float64.prec Float64.emax s q e l with
    | S754_infinity _ => Raise OverflowError
    | x => Return x
    end in
  match a with
  | Z0 => Return (S754_zero false)
  | Zpos m => rounded false m
  | Zneg m => rounded true m
  end.

(** [a / max(1, b) * 100] on ints. *)
Definition percentage (a b : Z) : Outcome spec_float :=
  match true_divide a (Z.to_pos (py_max 1 b)) with
  | Return q =>
      match Float64.of_int 100 with
      | Return hundred => Return (mul q hundred)
      | Raise e => Raise e
      end
  | Raise e => Raise e
  end.

(** The number a finite float stands for ([0] for the others). *)
Definition value (x : spec_float) : Q :=
  match x with
  | S754_finite s m e =>
      let v := if s then Zneg m else Zpos m in
      match e with
      | Zneg p => v # 2 ^ p
      | _ => inject_Z (v * 2 ^ e)
      end
  | _ => 0%Q
  end.

(** ** The platform

    What decides whether a line can be built: the limit on the decimal
    digits of an int turned into a string ([sys.get_int_max_str_digits()],
    4300 unless changed, [0] for no limit), and whether
    [datetime.fromtimestamp(x).strftime(...)] accepts the time [x]. *)

Record Platform : Type := mkPlatform {
  int_max_str_digits : Z;
  strftime_fromtimestamp : spec_float -> Outcome unit
}.

(** Whether [n] has more than [limit] decimal digits, that is, whether
    [10^limit <= |n|].  An int below [2^(3 limit)] is below [10^limit]: that
    much is read off its size in bits, before any power is taken. *)
Definition exceeds_digits (limit n : Z) : bool :=
  if Z.log2 (Z.abs n) <? 3 * limit then false else 10 ^ limit <=? Z.abs n.

(** [f"{n}"] and [f"{n:,}"] for an int: [ValueError] beyond the limit. *)
Definition format_int (pf : Platform) (n : Z) : Outcome unit :=
  if (0 <? int_max_str_digits pf) && exceeds_digits (int_max_str_digits pf) n
  then Raise ValueError
  else Return tt.

(** [f"{n}"] for a number; a float always has a short form. *)
Definition format_number (pf : Platform) (n : Number) : Outcome unit :=
  match n with
  | PyInt z => format_int pf z
  | PyFloat _ => Return tt
  end.

(** A platform for the examples: the default digit limit, and a clock
    display for the times from the epoch to the last second of the year
    9999, which every platform has; this one has no others. *)
Definition sample_platform : Platform :=
  mkPlatform 4300
    (fun x =>
       match x with
       | S754_nan => Raise ValueError
       | S754_infinity _ => Raise OverflowError
       | _ => if gt_int x (-1) && negb (gt_int x 253402300799)
              then Return tt else Raise ValueError
       end).

(** ** What the program prints *)

(** The string [get_status_string] returns: which of the two lines, and
    the numbers put into it. *)
Inductive StatusString : Type :=
| StatusOpen (retry_in : Number)           (* line 94 *)
| StatusClosed (failures threshold : Z).   (* line 96 *)

Inductive Event : Type :=
| MsgTripped (consecutive : Z)          (* line 52 *)
| MsgWaiting (cooldown : Number)        (* line 53 *)
| MsgReopenAt (until : spec_float)      (* line 54 *)
| MsgReset                              (* line 64 *)
| MsgBlocked (retry_in : Number)        (* line 151 *)
| MsgAttempt (attempt number : Z)       (* line 158 *)
| MsgPrime (total_found : nat)          (* line 164 *)
| MsgNotPrime                           (* line 169 *)
| MsgTesting                            (* line 269 *)
| MsgRule                               (* line 270 *)
| MsgChecking (test number : Z)         (* line 279 *)
| MsgIsPrime                            (* line 281 *)
| MsgIsNotPrime                         (* line 284 *)
| MsgSkipping (test : Z)                (* line 287 *)
| MsgStatus (status : StatusString)     (* line 289 *)
| MsgTestComplete.                      (* line 292 *)

(** ** The method monad, over these events *)

Record Run (S A : Type) : Type := mkRun {
  outcome : Outcome A;
  final : S;
  printed : list Event
}.

Arguments mkRun {S A} outcome final printed.
Arguments outcome {S A} r.
Arguments final {S A} r.
Arguments printed {S A} r.

Definition Method (S A : Type) : Type := S -> Run S A.

Definition ret {S A} (a : A) : Method S A :=
  fun self => mkRun (Return a) self [].

Definition bind {S A B} (m : Method S A) (k : A -> Method S B) : Method S B :=
  fun self =>
    let r := m self in
    match outcome r with
    | Return a =>
        let r' := k a (final r) in
        mkRun (outcome r') (final r') (printed r ++ printed r')
    | Raise e => mkRun (Raise e) (final r) (printed r)
    end.

Definition get {S} : Method S S :=
  fun self => mkRun (Return self) self [].

Definition put {S} (s : S) : Method S unit :=
  fun _ => mkRun (Return tt) s [].

Definition lift {S A} (o : Outcome A) : Method S A :=
  fun self => mkRun o self [].

(** [print(f"...")]: the line is built first, which can raise, then
    written. *)
Definition print {S} (built : Outcome unit) (e : Event) : Method S unit :=
  fun self =>
    match built with
    | Return _ => mkRun (Return tt) self [e]
    | Raise x => mkRun (Raise x) self []
    end.

Definition when {S} (b : bool) (m : Method S unit) : Method S unit :=
  if b then m else ret tt.

Declare Scope binary64_scope.
Delimit Scope binary64_scope with binary64.
Notation "x <- m ;; k" := (bind m (fun x => k))
  (at level 61, m at next level, right associativity) : binary64_scope.
Notation "m ;; k" := (bind m (fun _ => k))
  (at level 61, right associativity) : binary64_scope.
Local Open Scope binary64_scope.

Definition on_field {S T A} (proj : S -> T) (upd : T -> S -> S)
  (m : Method T A) : Method S A :=
  fun self =>
    let r := m (proj self) in
    mkRun (outcome r) (upd (final r) self) (printed r).

Definition assign {S V} (setter : V -> S -> S) (rhs : S -> V) : Method S unit :=
  self <- get ;; put (setter (rhs self) self).

(** ** Circuit breaker *)

Record CircuitBreaker : Type := mkCircuitBreaker {
  failure_threshold : Z;
  cooldown_seconds : Number;
  _tripped_until : Number;              (* When circuit will close again *)
  _consecutive_failures : Z;            (* Current failure streak *)
  _total_failures : Z;                  (* Total failures since start *)
  _total_successes : Z;                 (* Total successes since start *)
  _last_failure_time : option spec_float  (* When last failure occurred *)
}.

Definition set_tripped_until (v : Number) (cb : CircuitBreaker) : CircuitBreaker :=
  mkCircuitBreaker (failure_threshold cb) (cooldown_seconds cb) v
    (_consecutive_failures cb) (_total_failures cb) (_total_successes cb)
    (_last_failure_time cb).

Definition set_consecutive_failures (v : Z) (cb : CircuitBreaker) : CircuitBreaker :=
  mkCircuitBreaker (failure_threshold cb) (cooldown_seconds cb) (_tripped_until cb)
    v (_total_failures cb) (_total_successes cb) (_last_failure_time cb).

Definition set_total_failures (v : Z) (cb : CircuitBreaker) : CircuitBreaker :=
  mkCircuitBreaker (failure_threshold cb) (cooldown_seconds cb) (_tripped_until cb)
    (_consecutive_failures cb) v (_total_successes cb) (_last_failure_time cb).

Definition set_total_successes (v : Z) (cb : CircuitBreaker) : CircuitBreaker :=
  mkCircuitBreaker (failure_threshold cb) (cooldown_seconds cb) (_tripped_until cb)
    (_consecutive_failures cb) (_total_failures cb) v (_last_failure_time cb).

Definition set_last_failure_time (v : option spec_float) (cb : CircuitBreaker)
  : CircuitBreaker :=
  mkCircuitBreaker (failure_threshold cb) (cooldown_seconds cb) (_tripped_until cb)
    (_consecutive_failures cb) (_total_failures cb) (_total_successes cb) v.

Module Stats.
Record t : Type := mk {
  is_open : bool;
  consecutive_failures : Z;
  total_failures : Z;
  total_successes : Z;
  failure_threshold : Z;
  cooldown_seconds : Number;
  next_retry_time : option Number;
  seconds_until_retry : Number;
  success_rate : spec_float
}.
End Stats.

Definition CircuitBreaker_init (failure_threshold : Z) (cooldown_seconds : Number)
  : Outcome CircuitBreaker :=
  Return (mkCircuitBreaker failure_threshold cooldown_seconds (PyInt 0) 0 0 0 None).

(** [allow]; [now] is the reading of [time.time()] on line 41. *)
Definition allow (now : spec_float) : Method CircuitBreaker bool :=
  self <- get ;;
  ret (gt now (_tripped_until self)).

(** [trip]; [now1] is read on line 47, [now2] on line 51 (only when the
    threshold is reached).  Line 51 raises before it assigns when the
    cooldown is an int with no float; lines 52 to 54 raise, if they do,
    after the assignment. *)
Definition trip (pf : Platform) (now1 now2 : spec_float) : Method CircuitBreaker unit :=
  assign set_consecutive_failures (fun self => _consecutive_failures self + 1) ;;
  assign set_total_failures (fun self => _total_failures self + 1) ;;
  assign set_last_failure_time (fun _ => Some now1) ;;
  self <- get ;;
  when (_consecutive_failures self >=? failure_threshold self)
    (until <- lift (float_plus now2 (cooldown_seconds self)) ;;
     assign set_tripped_until (fun _ => PyFloat until) ;;
     print (format_int pf (_consecutive_failures self))
       (MsgTripped (_consecutive_failures self)) ;;
     print (format_number pf (cooldown_seconds self))
       (MsgWaiting (cooldown_seconds self)) ;;
     print (strftime_fromtimestamp pf until) (MsgReopenAt until)).

(** [reset]; [now] is read by the [allow()] of line 58. *)
Definition reset (now : spec_float) : Method CircuitBreaker unit :=
  allowed <- allow now ;;
  let was_open := negb allowed in
  assign set_tripped_until (fun _ => PyInt 0) ;;
  assign set_consecutive_failures (fun _ => 0) ;;
  assign set_total_successes (fun self => _total_successes self + 1) ;;
  when was_open (print (Return tt) MsgReset).

(** [record_success]; [now1] is read by the [allow()] of line 68, [now2] by
    [reset] when it is called. *)
Definition record_success (now1 now2 : spec_float) : Method CircuitBreaker unit :=
  allowed <- allow now1 ;;
  if allowed then
    assign set_consecutive_failures (fun _ => 0) ;;
    assign set_total_successes (fun self => _total_successes self + 1)
  else
    reset now2.

(** [get_stats]; [now1] is read by the [allow()] of line 77, [now2] on line 86
    (only when the breaker is open).  The entries of the dict are evaluated
    in order; the last two can raise. *)
Definition get_stats (now1 now2 : spec_float) : Method CircuitBreaker Stats.t :=
  allowed <- allow now1 ;;
  let is_open := negb allowed in
  self <- get ;;
  seconds_until_retry <-
    (if is_open
     then remaining <- lift (minus_float (_tripped_until self) now2) ;;
          ret (max_0 remaining)
     else ret (PyInt 0)) ;;
  success_rate <-
    lift (percentage (_total_successes self)
            (_total_successes self + _total_failures self)) ;;
  ret (Stats.mk
         is_open
         (_consecutive_failures self)
         (_total_failures self)
         (_total_successes self)
         (failure_threshold self)
         (cooldown_seconds self)
         (if is_open then Some (_tripped_until self) else None)
         seconds_until_retry
         success_rate).

(** [get_status_string]; the closed line puts two ints into decimal. *)
Definition get_status_string (pf : Platform) (now1 now2 : spec_float)
  : Method CircuitBreaker StatusString :=
  stats <- get_stats now1 now2 ;;
  if Stats.is_open stats
  then ret (StatusOpen (Stats.seconds_until_retry stats))
  else
    lift (format_int pf (Stats.consecutive_failures stats)) ;;
    lift (format_int pf (Stats.failure_threshold stats)) ;;
    ret (StatusClosed (Stats.consecutive_failures stats)
           (Stats.failure_threshold stats)).

(** ** Configuration and testing *)

(** The clock readings one round of the loop of [test_circuit_breaker]
    consumes: [allow()] on line 278, then [record_success()] or [trip()],
    then the [get_stats()] behind the status line. *)
Record Round : Type := mkRound {
  round_allow : spec_float;
  round_report1 : spec_float;
  round_report2 : spec_float;
  round_status1 : spec_float;
  round_status2 : spec_float
}.

(** The f-string of line 279 puts the index, then the number, into
    decimal. *)
Definition format_checking (pf : Platform) (test number : Z) : Outcome unit :=
  match format_int pf test with
  | Return _ => format_int pf number
  | Raise e => Raise e
  end.

(** The body of the loop, lines 278 to 290; [time.sleep(1)] reads no clock
    and writes nothing. *)
Definition test_round (pf : Platform) (test number : Z) (x : Round)
  : Method CircuitBreaker unit :=
  allowed <- allow (round_allow x) ;;
  (if allowed then
     print (format_checking pf test number) (MsgChecking test number) ;;
     prime <- lift (is_prime number) ;;
     if prime then
       print (Return tt) MsgIsPrime ;;
       record_success (round_report1 x) (round_report2 x)
     else
       print (Return tt) MsgIsNotPrime ;;
       trip pf (round_report1 x) (round_report2 x)
   else
     print (format_int pf test) (MsgSkipping test)) ;;
  status <- get_status_string pf (round_status1 x) (round_status2 x) ;;
  print (Return tt) (MsgStatus status).

(** [for i, num in enumerate(numbers, i): ...], the clock giving each round
    its readings. *)
Fixpoint test_rounds (pf : Platform) (clock : Z -> Round) (i : Z) (numbers : list Z)
  : Method CircuitBreaker unit :=
  match numbers with
  | [] => ret tt
  | number :: rest =>
      test_round pf i number (clock i) ;; test_rounds pf clock (i + 1) rest
  end.

(** [test_circuit_breaker]; the state of the run is its local variable
    [cb], constructed on line 272 (the two lines printed before that do not
    depend on it). *)
Definition test_circuit_breaker (pf : Platform) (clock : Z -> Round)
  : Outcome (Run CircuitBreaker unit) :=
  match CircuitBreaker_init 3 (PyInt 5) with
  | Return cb =>
      Return
        ((print (Return tt) MsgTesting ;;
          print (Return tt) MsgRule ;;
          test_rounds pf clock 1 [4; 6; 8; 9; 10; 11] ;;
          print (Return tt) MsgTestComplete) cb)
  | Raise e => Raise e
  end.

(** A clock for the examples: round [i] happens at [i] seconds, all of its
    readings alike. *)
Definition sample_clock (i : Z) : Round :=
  let t := match Float64.of_int i with
           | Return x => x
           | Raise _ => S754_zero false
           end in
  mkRound t t t t t.

(** ** Prime hunter with circuit breaker *)

Record PrimeHunter : Type := mkPrimeHunter {
  circuit_breaker : CircuitBreaker;
  min_num : Z;
  max_num : Z;
  primes_found : list Z;
  attempts : Z
}.

Definition set_circuit_breaker (v : CircuitBreaker) (h : PrimeHunter) : PrimeHunter :=
  mkPrimeHunter v (min_num h) (max_num h) (primes_found h) (attempts h).

Definition set_primes_found (v : list Z) (h : PrimeHunter) : PrimeHunter :=
  mkPrimeHunter (circuit_breaker h) (min_num h) (max_num h) v (attempts h).

Definition set_attempts (v : Z) (h : PrimeHunter) : PrimeHunter :=
  mkPrimeHunter (circuit_breaker h) (min_num h) (max_num h) (primes_found h) v.

Definition breaker {A} (m : Method CircuitBreaker A) : Method PrimeHunter A :=
  on_field circuit_breaker set_circuit_breaker m.

Definition PrimeHunter_init (failure_threshold : Z) (cooldown_seconds : Number)
  (min_num max_num : Z) : Outcome PrimeHunter :=
  match CircuitBreaker_init failure_threshold cooldown_seconds with
  | Return cb => Return (mkPrimeHunter cb min_num max_num [] 0)
  | Raise e => Raise e
  end.

(** The f-string of line 158 puts [self.attempts], then the number drawn,
    into decimal. *)
Definition format_attempt (pf : Platform) (attempt number : Z) : Outcome unit :=
  match format_int pf attempt with
  | Return _ => format_int pf number
  | Raise e => Raise e
  end.

(** [hunt_prime]; [now0] is read by the [allow()] of line 148, [now1] and
    [now2] by whichever of [get_stats], [record_success] and [trip] runs next,
    [r] is the entropy of the random draw. *)
Definition hunt_prime (pf : Platform) (now0 now1 now2 : spec_float) (r : Z)
  : Method PrimeHunter bool :=
  allowed <- breaker (allow now0) ;;
  if negb allowed then
    stats <- breaker (get_stats now1 now2) ;;
    print (Return tt) (MsgBlocked (Stats.seconds_until_retry stats)) ;;
    ret false
  else
    assign set_attempts (fun self => attempts self + 1) ;;
    self <- get ;;
    number <- lift (generate_random_number r (min_num self) (max_num self)) ;;
    print (format_attempt pf (attempts self) number)
      (MsgAttempt (attempts self) number) ;;
    prime <- lift (is_prime number) ;;
    if prime then
      assign set_primes_found (fun self => primes_found self ++ [number]) ;;
      breaker (record_success now1 now2) ;;
      self <- get ;;
      print (Return tt) (MsgPrime (length (primes_found self))) ;;
      ret true
    else
      breaker (trip pf now1 now2) ;;
      print (Return tt) MsgNotPrime ;;
      ret false.

Module Summary.
Record t : Type := mk {
  attempts : Z;
  primes_found : nat;
  largest_prime : option Z;
  prime_hit_rate : spec_float;
  circuit_breaker : Stats.t;
  recent_primes : list Z
}.
End Summary.

(** [get_summary]; [now1] and [now2] are the readings of [get_stats]. *)
Definition get_summary (now1 now2 : spec_float) : Method PrimeHunter Summary.t :=
  cb_stats <- breaker (get_stats now1 now2) ;;
  self <- get ;;
  prime_hit_rate <-
    lift (percentage (Z.of_nat (length (primes_found self))) (attempts self)) ;;
  ret (Summary.mk
         (attempts self)
         (length (primes_found self))
         (py_max_list (primes_found self))
         prime_hit_rate
         cb_stats
         (sorted_reverse (py_last 5 (primes_found self)))).

(** ** Auxiliary notions of the proofs *)

(** What [trip] does before it looks at the threshold (lines 45-47). *)
Definition count_failure (now : spec_float) (cb : CircuitBreaker) : CircuitBreaker :=
  set_last_failure_time (Some now)
    (set_total_failures (_total_failures cb + 1)
       (set_consecutive_failures (_consecutive_failures cb + 1) cb)).

(** Building the three lines of lines 52 to 54, in order. *)
Definition notice (pf : Platform) (streak : Z) (cooldown : Number) (until : spec_float)
  : Outcome unit :=
  match format_int pf streak with
  | Return _ =>
      match format_number pf cooldown with
      | Return _ => strftime_fromtimestamp pf until
      | Raise e => Raise e
      end
  | Raise e => Raise e
  end.

(** The state after [n] calls of [trip()] in a row, all of them at clock
    reading [t], whatever they raised. *)
Fixpoint fail_times (pf : Platform) (t : spec_float) (n : nat) (cb : CircuitBreaker)
  : CircuitBreaker :=
  match n with
  | O => cb
  | Datatypes.S k => fail_times pf t k (final (trip pf t t cb))
  end.

(** A breaker as the methods keep it: counters that are not negative, and
    a [_tripped_until] that is the int 0 or a float. *)
Definition in_order (cb : CircuitBreaker) : Prop :=
  0 <= _total_successes cb /\ 0 <= _total_failures cb /\
  (_tripped_until cb = PyInt 0 \/ exists x, _tripped_until cb = PyFloat x).

(** The calls a client can make, each with the clock readings it consumes. *)
Inductive Call : Type :=
| CallAllow (now : spec_float)
| CallTrip (now1 now2 : spec_float)
| CallReset (now : spec_float)
| CallRecordSuccess (now1 now2 : spec_float)
| CallGetStats (now1 now2 : spec_float).

Definition perform (pf : Platform) (c : Call) : Method CircuitBreaker unit :=
  match c with
  | CallAllow now => allow now ;; ret tt
  | CallTrip now1 now2 => trip pf now1 now2
  | CallReset now => reset now
  | CallRecordSuccess now1 now2 => record_success now1 now2
  | CallGetStats now1 now2 => get_stats now1 now2 ;; ret tt
  end.

(** The state a history leaves behind; the client goes on after a call
    that raised. *)
Definition state_after (pf : Platform) (cs : list Call) (cb : CircuitBreaker)
  : CircuitBreaker :=
  fold_left (fun self c => final (perform pf c self)) cs cb.

Definition reachable (pf : Platform) (cb : CircuitBreaker) : Prop :=
  exists threshold cooldown cb0 cs,
    CircuitBreaker_init threshold cooldown = Return cb0 /\
    state_after pf cs cb0 = cb.

(** What one call of [hunt_prime] consumes. *)
Record Hunt : Type := mkHunt {
  hunt_now0 : spec_float;
  hunt_now1 : spec_float;
  hunt_now2 : spec_float;
  hunt_entropy : Z
}.

Definition hunt (pf : Platform) (x : Hunt) : Method PrimeHunter bool :=
  hunt_prime pf (hunt_now0 x) (hunt_now1 x) (hunt_now2 x) (hunt_entropy x).

(** The calls [hunter.hunt_prime()] of the loop of [main], in order.  An
    exception ends the session. *)
Fixpoint hunt_all (pf : Platform) (hs : list Hunt) : Method PrimeHunter unit :=
  match hs with
  | [] => ret tt
  | x :: rest => hunt pf x ;; hunt_all pf rest
  end.

(** The number [hunt_prime] tests when the range is not empty. *)
Definition drawn (r : Z) (h : PrimeHunter) : Z :=
  min_num h + r mod (max_num h - min_num h + 1).

(** Hunts that all read the clock at [t], one per entropy. *)
Definition hunts_at (t : spec_float) (rs : list Z) : list Hunt :=
  map (fun r => mkHunt t t t r) rs.

(** Two runs that end alike: same outcome, same final state. *)
Definition same_result {S A} (r1 r2 : Run S A) : Prop :=
  outcome r1 = outcome r2 /\ final r1 = final r2.

(** The books of a hunter: one success per prime found, one attempt per
    success or failure, every prime found drawn from the range and passed
    by the test, a breaker in order. *)
Definition books_kept (lo hi : Z) (h : PrimeHunter) : Prop :=
  min_num h = lo /\ max_num h = hi /\
  Z.of_nat (length (primes_found h)) = _total_successes (circuit_breaker h) /\
  attempts h =
    _total_successes (circuit_breaker h) + _total_failures (circuit_breaker h) /\
  in_order (circuit_breaker h) /\
  Forall (fun p => lo <= p <= hi /\ is_prime p = Return true) (primes_found h).

(** The state of a hunter over the single prime [p] after [k] hunts. *)
Definition only_found (p : Z) (k : nat) (h : PrimeHunter) : Prop :=
  min_num h = p /\ max_num h = p /\
  primes_found h = repeat p k /\ attempts h = Z.of_nat k /\
  _tripped_until (circuit_breaker h) = PyInt 0 /\
  _consecutive_failures (circuit_breaker h) = 0 /\
  _total_failures (circuit_breaker h) = 0.

(** Some floats of the examples. *)
Definition float_1 : spec_float := S754_finite false 4503599627370496 (-52).
Definition float_5 : spec_float := S754_finite false 5629499534213120 (-50).
Definition float_6 : spec_float := S754_finite false 6755399441055744 (-50).
Definition float_15 : spec_float := S754_finite false 8444249301319680 (-49).
Definition float_10 : spec_float := S754_finite false 5629499534213120 (-49).
Definition float_12 : spec_float := S754_finite false 6755399441055744 (-49).
Definition float_0_7 : spec_float := S754_finite false 6305039478318694 (-53).
Definition float_1700000000 : spec_float := S754_finite false 7130316800000000 (-22).
Definition float_1700000000_7 : spec_float := S754_finite false 7130316802936013 (-22).
Definition float_100 : spec_float := S754_finite false 7036874417766400 (-46).
Definition float_50 : spec_float := S754_finite false 7036874417766400 (-47).
Definition float_33_3 : spec_float := S754_finite false 4691249611844266 (-47).

End Binary64.

(** * Properties *)

(** ** Running the model on concrete inputs *)

Example is_prime_small :
  map is_prime [-7; 0; 1; 2; 3; 4; 6; 8; 9; 10; 11; 25; 97; 999983; 1000000]
  = map Return [false; false; false; true; true; false; false; false; false;
                false; true; false; true; true; false].
Proof. vm_compute. reflexivity. Qed.

Example int_sqrt_small :
  map int_sqrt [0; 1; 2; 3; 4; 8; 9; 15; 16; 24; 25; 999999; 1000000]
  = map Return [0; 1; 1; 1; 2; 2; 3; 3; 4; 4; 5; 999; 1000].
Proof. vm_compute. reflexivity. Qed.

(** The largest int that still converts to a float, and the first one that
    does not. *)
Example of_int_limit :
  int_sqrt (2 ^ 1024 - 2 ^ 970 - 1) = Return (2 ^ 512 - 2 ^ 459) /\
  int_sqrt (2 ^ 1024 - 2 ^ 970) = Raise OverflowError.
Proof. split; vm_compute; reflexivity. Qed.

(** ** Comparisons *)

Lemma Qgt_bool_true (a b : Q) : Qgt_bool a b = true <-> (b < a)%Q.
Proof.
  unfold Qgt_bool. rewrite negb_true_iff, <- not_true_iff_false, Qle_bool_iff.
  split; [apply Qnot_le_lt | apply Qlt_not_le].
Qed.

Lemma Qgt_bool_false (a b : Q) : Qgt_bool a b = false <-> (a <= b)%Q.
Proof.
  unfold Qgt_bool. rewrite negb_false_iff. apply Qle_bool_iff.
Qed.

Lemma py_max_spec (a b : Z) : py_max a b = Z.max a b.
Proof. unfold py_max. destruct (Z.gtb_spec b a); lia. Qed.

(** ** The breaker's methods, one equation each *)

Lemma allow_outcome (now : Q) (cb : CircuitBreaker) :
  outcome (allow now cb) = Return (Qgt_bool now (_tripped_until cb)).
Proof. reflexivity. Qed.

Lemma allow_final (now : Q) (cb : CircuitBreaker) : final (allow now cb) = cb.
Proof. reflexivity. Qed.

Lemma allow_true (now : Q) (cb : CircuitBreaker) :
  outcome (allow now cb) = Return true <-> (_tripped_until cb < now)%Q.
Proof.
  rewrite allow_outcome, <- Qgt_bool_true.
  split; [now intros [= ->] | now intros ->].
Qed.

Lemma allow_false (now : Q) (cb : CircuitBreaker) :
  outcome (allow now cb) = Return false <-> (now <= _tripped_until cb)%Q.
Proof.
  rewrite allow_outcome, <- Qgt_bool_false.
  split; [now intros [= ->] | now intros ->].
Qed.

Lemma trip_final (now1 now2 : Q) (cb : CircuitBreaker) :
  final (trip now1 now2 cb) =
  if _consecutive_failures cb + 1 >=? failure_threshold cb
  then set_tripped_until (now2 + cooldown_seconds cb) (count_failure now1 cb)
  else count_failure now1 cb.
Proof.
  run_method. cbn. destruct (_ >=? _); reflexivity.
Qed.

Lemma trip_outcome (now1 now2 : Q) (cb : CircuitBreaker) :
  outcome (trip now1 now2 cb) = Return tt.
Proof.
  run_method. cbn. destruct (_ >=? _); reflexivity.
Qed.

Lemma reset_final (now : Q) (cb : CircuitBreaker) :
  final (reset now cb) =
  set_total_successes (_total_successes cb + 1)
    (set_consecutive_failures 0 (set_tripped_until 0 cb)).
Proof.
  run_method. cbn. destruct (negb _); reflexivity.
Qed.

Lemma reset_outcome (now : Q) (cb : CircuitBreaker) :
  outcome (reset now cb) = Return tt.
Proof.
  run_method. cbn. destruct (negb _); reflexivity.
Qed.

Lemma record_success_final (now1 now2 : Q) (cb : CircuitBreaker) :
  final (record_success now1 now2 cb) =
  if Qgt_bool now1 (_tripped_until cb)
  then set_total_successes (_total_successes cb + 1) (set_consecutive_failures 0 cb)
  else final (reset now2 cb).
Proof.
  run_method. cbn. destruct (Qgt_bool now1 _); [reflexivity|].
  cbn. destruct (negb _); reflexivity.
Qed.

Lemma record_success_outcome (now1 now2 : Q) (cb : CircuitBreaker) :
  outcome (record_success now1 now2 cb) = Return tt.
Proof.
  run_method. cbn. destruct (Qgt_bool now1 _); [reflexivity|].
  cbn. destruct (negb _); reflexivity.
Qed.

Lemma get_stats_outcome (now1 now2 : Q) (cb : CircuitBreaker) :
  outcome (get_stats now1 now2 cb) =
  Return (Stats.mk
            (negb (Qgt_bool now1 (_tripped_until cb)))
            (_consecutive_failures cb)
            (_total_failures cb)
            (_total_successes cb)
            (failure_threshold cb)
            (cooldown_seconds cb)
            (if negb (Qgt_bool now1 (_tripped_until cb))
             then Some (_tripped_until cb) else None)
            (if negb (Qgt_bool now1 (_tripped_until cb))
             then py_qmax 0 (_tripped_until cb - now2) else 0)%Q
            (inject_Z (_total_successes cb)
             / inject_Z (py_max 1 (_total_successes cb + _total_failures cb))
             * 100)%Q).
Proof. reflexivity. Qed.

Lemma get_stats_final (now1 now2 : Q) (cb : CircuitBreaker) :
  final (get_stats now1 now2 cb) = cb.
Proof. reflexivity. Qed.

(** ** Recording a success *)

(** C1. [record_success()] is asymmetric.  Where its [allow()] answers true
    (Closed) it zeroes [_consecutive_failures], adds one to [_total_successes]
    and leaves [_tripped_until] (and every other field) as it was.  Where its
    [allow()] answers false (Open) it does what [reset()] does: afterwards
    [_tripped_until] is the sentinel 0, [_consecutive_failures] is 0,
    [_total_successes] is one more, whatever cooldown remained, and [allow()]
    answers true at every reading of the epoch clock (a positive number of
    seconds). *)
Theorem record_success_asymmetric (cb : CircuitBreaker) (now1 now2 : Q) :
  let after := final (record_success now1 now2 cb) in
  (outcome (allow now1 cb) = Return true ->
     _consecutive_failures after = 0 /\
     _total_successes after = _total_successes cb + 1 /\
     _tripped_until after = _tripped_until cb /\
     after = set_total_successes (_total_successes cb + 1)
               (set_consecutive_failures 0 cb)) /\
  (outcome (allow now1 cb) = Return false ->
     after = final (reset now2 cb) /\
     _tripped_until after = 0%Q /\
     _consecutive_failures after = 0 /\
     _total_successes after = _total_successes cb + 1 /\
     forall now : Q, (0 < now)%Q -> outcome (allow now after) = Return true).
Proof.
  cbv zeta. rewrite record_success_final, allow_outcome.
  split; intros [= ->].
  - repeat split.
  - rewrite reset_final. repeat split.
    intros now Hnow. apply allow_true. exact Hnow.
Qed.

Lemma record_success_asymmetric_witness :
  let closed := mkCircuitBreaker 3 5 6 3 3 0 (Some 1%Q) in
  let opened := mkCircuitBreaker 3 5 15 3 3 0 (Some 10%Q) in
  (outcome (allow 11 closed) = Return true /\
   _tripped_until (final (record_success 11 11 closed)) = 6%Q) /\
  (outcome (allow 11 opened) = Return false /\
   outcome (allow 11 (final (record_success 11 11 opened))) = Return true).
Proof.
  cbv zeta. split.
  - split; [reflexivity|].
    destruct (record_success_asymmetric
                (mkCircuitBreaker 3 5 6 3 3 0 (Some 1%Q)) 11 11) as [Hclosed _].
    destruct (Hclosed eq_refl) as (_ & _ & Huntil & _). exact Huntil.
  - split; [reflexivity|].
    destruct (record_success_asymmetric
                (mkCircuitBreaker 3 5 15 3 3 0 (Some 10%Q)) 11 11) as [_ Hopen].
    destruct (Hopen eq_refl) as (_ & _ & _ & _ & Hallow).
    apply Hallow. reflexivity.
Defined.

(** C10. [reset()] leaves [_total_failures] and [_last_failure_time] as they
    were, and so does [record_success()], in the Open state (where it is
    [reset()]) as in the Closed one: a success clears the streak and closes
    the circuit and never touches the lifetime failure count or the time of
    the last failure. *)
Theorem success_keeps_failure_history (cb : CircuitBreaker) (now1 now2 : Q) :
  (_total_failures (final (reset now1 cb)) = _total_failures cb /\
   _last_failure_time (final (reset now1 cb)) = _last_failure_time cb) /\
  (_total_failures (final (record_success now1 now2 cb)) = _total_failures cb /\
   _last_failure_time (final (record_success now1 now2 cb)) = _last_failure_time cb) /\
  (forall now : Q,
     outcome (allow now cb) = Return false ->
     final (record_success now now2 cb) = final (reset now2 cb)).
Proof.
  rewrite record_success_final, !reset_final.
  repeat split.
  - destruct (Qgt_bool now1 _); reflexivity.
  - destruct (Qgt_bool now1 _); reflexivity.
  - intros now H. rewrite record_success_final, allow_outcome in *.
    injection H as ->. apply reset_final.
Qed.

Lemma success_keeps_failure_history_witness :
  let opened := mkCircuitBreaker 3 5 15 3 7 4 (Some 10%Q) in
  final (record_success 11 12 opened) = final (reset 12 opened) /\
  _total_failures (final (reset 12 opened)) = 7 /\
  _last_failure_time (final (reset 12 opened)) = Some 10%Q.
Proof.
  cbv zeta.
  destruct (success_keeps_failure_history
              (mkCircuitBreaker 3 5 15 3 7 4 (Some 10%Q)) 12 12)
    as ((Htotal & Hlast) & _ & Hopen).
  split; [|split].
  - apply Hopen. reflexivity.
  - exact Htotal.
  - exact Hlast.
Defined.

(** ** The streak never exceeds the lifetime count *)

Lemma perform_outcome (c : Call) (cb : CircuitBreaker) :
  outcome (perform c cb) = Return tt.
Proof.
  destruct c; cbn [perform];
    auto using trip_outcome, reset_outcome, record_success_outcome.
Qed.

Lemma perform_all_cons (c : Call) (cs : list Call) (cb : CircuitBreaker) :
  final (perform_all (c :: cs) cb) = final (perform_all cs (final (perform c cb))).
Proof.
  cbn [perform_all]. unfold bind at 1. rewrite perform_outcome. reflexivity.
Qed.

Lemma perform_final (c : Call) (cb : CircuitBreaker) :
  final (perform c cb) =
  match c with
  | CallAllow _ | CallGetStats _ _ => cb
  | CallTrip now1 now2 => final (trip now1 now2 cb)
  | CallReset now => final (reset now cb)
  | CallRecordSuccess now1 now2 => final (record_success now1 now2 cb)
  end.
Proof. destruct c; reflexivity. Qed.

Lemma perform_keeps_streak_within_total (c : Call) (cb : CircuitBreaker) :
  streak_within_total cb -> streak_within_total (final (perform c cb)).
Proof.
  unfold streak_within_total. intros Hinv.
  rewrite perform_final. destruct c as [now|now1 now2|now|now1 now2|now1 now2].
  - exact Hinv.
  - rewrite trip_final. destruct (_ >=? _); cbn; lia.
  - rewrite reset_final. cbn. lia.
  - rewrite record_success_final, reset_final.
    destruct (Qgt_bool _ _); cbn; lia.
  - exact Hinv.
Qed.

Lemma perform_all_keeps_streak_within_total (cs : list Call) (cb : CircuitBreaker) :
  streak_within_total cb -> streak_within_total (final (perform_all cs cb)).
Proof.
  revert cb. induction cs as [|c cs IH]; intros cb Hinv; [exact Hinv|].
  rewrite perform_all_cons.
  apply IH, perform_keeps_streak_within_total, Hinv.
Qed.

(** C6. In every state reachable from a fresh breaker by calls of [trip],
    [reset], [record_success], [allow] and [get_stats],
    [_consecutive_failures <= _total_failures] (and the streak is not
    negative).  From such a state [trip] adds one to both counters, and
    [reset] and [record_success] never raise the streak and leave
    [_total_failures] alone. *)
Theorem streak_never_exceeds_total (cb : CircuitBreaker) :
  reachable cb ->
  _consecutive_failures cb <= _total_failures cb /\
  0 <= _consecutive_failures cb /\
  (forall now1 now2,
     _consecutive_failures (final (trip now1 now2 cb)) = _consecutive_failures cb + 1 /\
     _total_failures (final (trip now1 now2 cb)) = _total_failures cb + 1) /\
  (forall now,
     _consecutive_failures (final (reset now cb)) <= _consecutive_failures cb /\
     _total_failures (final (reset now cb)) = _total_failures cb) /\
  (forall now1 now2,
     _consecutive_failures (final (record_success now1 now2 cb))
       <= _consecutive_failures cb /\
     _total_failures (final (record_success now1 now2 cb)) = _total_failures cb).
Proof.
  intros (threshold & cooldown & cb0 & cs & Hinit & Hrun).
  assert (Hinv : streak_within_total cb).
  { rewrite <- Hrun. apply perform_all_keeps_streak_within_total.
    injection Hinit as <-. unfold streak_within_total. cbn. lia. }
  destruct Hinv as [Hlow Hhigh].
  repeat split; try assumption.
  - rewrite trip_final. destruct (_ >=? _); reflexivity.
  - rewrite trip_final. destruct (_ >=? _); reflexivity.
  - rewrite reset_final. exact Hlow.
  - rewrite reset_final. reflexivity.
  - rewrite record_success_final, reset_final. destruct (Qgt_bool _ _); exact Hlow.
  - rewrite record_success_final, reset_final. destruct (Qgt_bool _ _); reflexivity.
Qed.

Lemma streak_never_exceeds_total_witness :
  let cb := final (perform_all sample_history (mkCircuitBreaker 3 5 0 0 0 0 None)) in
  _consecutive_failures cb = 1 /\ _total_failures cb = 4 /\
  _consecutive_failures cb <= _total_failures cb.
Proof.
  cbv zeta.
  assert (Hreach : reachable
            (final (perform_all sample_history (mkCircuitBreaker 3 5 0 0 0 0 None)))).
  { exists 3, 5%Q, (mkCircuitBreaker 3 5 0 0 0 0 None), sample_history.
    split; reflexivity. }
  destruct (streak_never_exceeds_total _ Hreach) as [Hle _].
  split; [reflexivity | split; [reflexivity | exact Hle]].
Defined.

(** ** The hunter *)



(** *** The built-ins behind [get_summary] *)

Lemma fold_py_max_spec (l : list Z) (x : Z) :
  let m := fold_left py_max l x in
  In m (x :: l) /\ x <= m /\ Forall (fun y => y <= m) l.
Proof.
  revert x. induction l as [|y l IH]; intros x; cbn [fold_left].
  - cbn. repeat split; [now left | lia | constructor].
  - destruct (IH (py_max x y)) as (Hin & Hge & Hall).
    rewrite py_max_spec in *.
    repeat split.
    + destruct Hin as [Heq | Hin]; [|now right; right].
      rewrite <- Heq. destruct (Z.max_spec x y) as [[_ ->] | [_ ->]];
        [right; left | left]; reflexivity.
    + lia.
    + constructor; [lia | exact Hall].
Qed.

Lemma py_max_list_spec (l : list Z) :
  match py_max_list l with
  | None => l = []
  | Some m => In m l /\ Forall (fun y => y <= m) l
  end.
Proof.
  destruct l as [|x l]; [reflexivity|]. cbn [py_max_list].
  destruct (fold_py_max_spec l x) as (Hin & Hge & Hall).
  split; [exact Hin | constructor; assumption].
Qed.

Lemma py_last_spec {A} (k : nat) (l : list A) :
  l = firstn (length l - k) l ++ py_last k l /\
  length (py_last k l) = Nat.min k (length l).
Proof.
  unfold py_last. split.
  - symmetry. apply firstn_skipn.
  - rewrite length_skipn. lia.
Qed.

Lemma insert_descending_perm (x : Z) (l : list Z) :
  Permutation (x :: l) (insert_descending x l).
Proof.
  induction l as [|y l IH]; cbn [insert_descending]; [reflexivity|].
  destruct (y <=? x); [reflexivity|].
  rewrite perm_swap. apply perm_skip, IH.
Qed.

Lemma insert_descending_sorted (x : Z) (l : list Z) :
  StronglySorted (fun a b => b <= a) l ->
  StronglySorted (fun a b => b <= a) (insert_descending x l).
Proof.
  induction 1 as [|y l Hsorted IH Hall]; cbn [insert_descending].
  - repeat constructor.
  - destruct (Z.leb_spec y x) as [Hle | Hgt].
    + constructor; [constructor; assumption|].
      constructor; [exact Hle|].
      apply Forall_impl with (2 := Hall). intros z Hz. lia.
    + constructor; [exact IH|].
      apply Permutation_Forall with (1 := insert_descending_perm x l).
      constructor; [lia | exact Hall].
Qed.

Lemma sorted_reverse_spec (l : list Z) :
  Permutation l (sorted_reverse l) /\
  StronglySorted (fun x y => y <= x) (sorted_reverse l).
Proof.
  unfold sorted_reverse.
  induction l as [|x l [IHperm IHsorted]]; cbn [fold_right].
  - split; constructor.
  - split.
    + rewrite <- insert_descending_perm. apply perm_skip, IHperm.
    + apply insert_descending_sorted, IHsorted.
Qed.

Example recent_primes_by_value :
  sorted_reverse (py_last 5 [11; 101; 7; 13; 5; 97; 3]) = [97; 13; 7; 5; 3].
Proof. reflexivity. Qed.

(** ** Construction *)

(** C9, as the spec states it, fails: a hunter with threshold 0, cooldown
    -1 and the empty range 10..5 is constructed without complaint and holds
    exactly those values. *)
Lemma invalid_configuration_is_accepted :
  CircuitBreaker_init 0 (-1) = Return (mkCircuitBreaker 0 (-1) 0 0 0 0 None) /\
  PrimeHunter_init 0 (-1) 10 5 =
    Return (mkPrimeHunter (mkCircuitBreaker 0 (-1) 0 0 0 0 None) 10 5 [] 0).
Proof. split; reflexivity. Qed.

(** C9, amended.  Construction checks nothing: whatever the threshold, the
    cooldown and the range, both constructors return an object that holds
    the values given, with the circuit closed, the counters at 0 and no
    prime found. *)
Theorem construction_never_rejects
  (threshold : Z) (cooldown : Q) (lo hi : Z) :
  CircuitBreaker_init threshold cooldown =
    Return (mkCircuitBreaker threshold cooldown 0 0 0 0 None) /\
  PrimeHunter_init threshold cooldown lo hi =
    Return (mkPrimeHunter (mkCircuitBreaker threshold cooldown 0 0 0 0 None)
              lo hi [] 0).
Proof. split; reflexivity. Qed.

(** An empty range is found out by the first draw, after the attempt has
    been counted. *)
Example empty_range_raises_on_first_hunt :
  let h := mkPrimeHunter (mkCircuitBreaker 3 5 0 0 0 0 None) 10 5 [] 0 in
  outcome (hunt_prime 1 1 1 42 h) = Raise ValueError /\
  attempts (final (hunt_prime 1 1 1 42 h)) = 1.
Proof. split; reflexivity. Qed.

(** ** The primality test *)

Lemma is_prime_below_two (n : Z) : n < 2 -> is_prime n = Return false.
Proof.
  intros Hlt. unfold is_prime.
  destruct (Z.ltb_spec n 2); [reflexivity | lia].
Qed.

Lemma is_prime_two : is_prime 2 = Return true.
Proof. reflexivity. Qed.

Lemma is_prime_even (n : Z) : 2 < n -> n mod 2 = 0 -> is_prime n = Return false.
Proof.
  intros Hgt Heven. unfold is_prime.
  destruct (Z.ltb_spec n 2); [lia|].
  destruct (Z.eqb_spec n 2); [lia|].
  rewrite Heven. reflexivity.
Qed.

Lemma is_prime_odd (n : Z) :
  2 < n -> n mod 2 = 1 ->
  is_prime n =
  match int_sqrt n with
  | Return s => Return (trial_division n 3 (range2_len 3 (s + 1)))
  | Raise e => Raise e
  end.
Proof.
  intros Hgt Hodd. unfold is_prime.
  destruct (Z.ltb_spec n 2); [lia|].
  destruct (Z.eqb_spec n 2); [lia|].
  rewrite Hodd. reflexivity.
Qed.

(** The loop answers false exactly when one of the numbers it visits
    divides [n]. *)
Lemma trial_division_false (n i : Z) (steps : nat) :
  trial_division n i steps = false <->
  exists j : Z, 0 <= j < Z.of_nat steps /\ n mod (i + 2 * j) = 0.
Proof.
  revert i. induction steps as [|k IH]; intros i; cbn [trial_division].
  - split; [discriminate | intros (j & Hj & _); lia].
  - destruct (Z.eqb_spec (n mod i) 0) as [Hdiv | Hndiv].
    + split; [intros _ | reflexivity].
      exists 0. split; [lia|]. rewrite Z.mul_0_r, Z.add_0_r. exact Hdiv.
    + rewrite IH. split.
      * intros (j & Hj & Hdiv). exists (j + 1). split; [lia|].
        rewrite <- Hdiv. f_equal. lia.
      * intros (j & Hj & Hdiv).
        assert (j = 0 \/ 0 < j) as [-> | Hpos] by lia.
        -- rewrite Z.mul_0_r, Z.add_0_r in Hdiv. contradiction.
        -- exists (j - 1). split; [lia|].
           rewrite <- Hdiv. f_equal. lia.
Qed.

(** The numbers visited from 3 are the odd numbers of [3..s]. *)
Lemma trial_division_odd_divisors (n s : Z) :
  trial_division n 3 (range2_len 3 (s + 1)) = false <->
  exists d : Z, 3 <= d <= s /\ d mod 2 = 1 /\ n mod d = 0.
Proof.
  rewrite trial_division_false. unfold range2_len.
  replace (s + 1 - 3 + 1) with (s - 1) by lia.
  split.
  - intros (j & Hj & Hdiv). exists (3 + 2 * j).
    assert (0 < (s - 1) / 2) by lia.
    assert (Hs : 0 <= s - 1) by (destruct (Z.le_gt_cases 0 (s - 1)) as [|Hneg];
      [assumption | apply (Z.div_lt_upper_bound (s - 1) 2 0) in Hneg; lia]).
    rewrite Z2Nat.id in Hj by lia.
    pose proof (Z.mul_div_le (s - 1) 2 ltac:(lia)).
    repeat split; [lia | lia | | exact Hdiv].
    rewrite (Z.mul_comm 2 j), Z.mod_add by lia. reflexivity.
  - intros (d & Hd & Hodd & Hdiv).
    exists ((d - 3) / 2).
    assert (Hd3 : d - 3 = 2 * ((d - 3) / 2)).
    { apply Z.div_exact; [lia|].
      rewrite Zminus_mod, Hodd. reflexivity. }
    split.
    + rewrite Z2Nat.id by (apply Z.div_pos; lia).
      split; [apply Z.div_pos; lia|].
      apply Z.div_lt_upper_bound; [lia|].
      pose proof (Z.mul_succ_div_gt (s - 1) 2 ltac:(lia)). lia.
    + rewrite <- Hd3. replace (3 + (d - 3)) with d by lia. exact Hdiv.
Qed.

(** Trial division by the odd numbers up to [s] decides primality of an odd
    [n] as soon as [s] reaches the integer square root and stays below [n]. *)
Lemma odd_trial_division_decides (n s : Z) :
  2 < n -> n mod 2 = 1 -> Z.sqrt n <= s < n ->
  trial_division n 3 (range2_len 3 (s + 1)) = true <-> Z.prime n.
Proof.
  intros Hgt Hodd Hs.
  rewrite <- not_false_iff_true, trial_division_odd_divisors.
  split.
  - intros Hnone. split; [lia|].
    intros d Hd [c Hc].
    assert (Hcpos : 1 < c < n) by nia.
    assert (Hsmall : exists a b, n = a * b /\ 1 < a <= b).
    { destruct (Z.le_gt_cases c d); [exists c, d | exists d, c]; split; lia. }
    destruct Hsmall as (a & b & Hab & Ha).
    apply Hnone. exists a.
    assert (Haodd : a mod 2 = 1).
    { pose proof (Z.mod_pos_bound a 2 ltac:(lia)).
      assert (a mod 2 = 0 \/ a mod 2 = 1) as [Heven | ?] by lia; [|assumption].
      exfalso.
      rewrite Hab, <- Z.mul_mod_idemp_l, Heven in Hodd by lia. discriminate. }
    repeat split.
    + assert (a <> 2) by (intros ->; discriminate). lia.
    + apply Z.le_trans with (Z.sqrt n); [|lia].
      apply Z.sqrt_le_square; nia.
    + exact Haodd.
    + rewrite Hab, Z.mul_comm. apply Z.mod_mul. lia.
  - intros [_ Hprime] (d & Hd & _ & Hdiv).
    apply (Hprime d); [lia|].
    apply Z.mod_divide; [lia | exact Hdiv].
Qed.

(** *** [int(math.sqrt(n))] below [2^53]

    Below [2^53] an int converts to a float exactly, and the correctly
    rounded square root, truncated, is the integer square root or one more
    (one more happens: [int(math.sqrt(94906265**2 - 1))] is [94906265]). *)

Lemma digits2_pos_size (p : positive) : digits2_pos p = Pos.size p.
Proof. induction p; cbn; congruence. Qed.

Lemma Zdigits2_pos_bounds (p : positive) :
  2 ^ (Zdigits2 (Zpos p) - 1) <= Zpos p < 2 ^ Zdigits2 (Zpos p).
Proof.
  cbn [Zdigits2]. rewrite digits2_pos_size.
  pose proof (Pos.size_gt p) as Hgt.
  pose proof (Pos.size_le p) as Hle.
  apply Pos2Z.pos_lt_pos in Hgt. apply Pos2Z.pos_le_pos in Hle.
  rewrite Pos2Z.inj_pow in Hgt, Hle.
  change (Zpos 2) with 2 in *.
  replace (2 ^ Zpos (Pos.size p)) with (2 * 2 ^ (Zpos (Pos.size p) - 1)) in Hle.
  2:{ rewrite <- Z.pow_succ_r by lia. f_equal. lia. }
  lia.
Qed.

Lemma Zdigits2_unique (z k : Z) :
  2 ^ (k - 1) <= z < 2 ^ k -> 0 < k -> Zdigits2 z = k.
Proof.
  intros Hz Hk.
  assert (0 < z) by (pose proof (Z.pow_pos_nonneg 2 (k - 1)); lia).
  destruct z as [|p|p]; try lia.
  pose proof (Zdigits2_pos_bounds p) as Hp.
  assert (0 < Zdigits2 (Zpos p)) by (cbn; lia).
  destruct (Z.lt_trichotomy (Zdigits2 (Zpos p)) k) as [Hlt | [Heq | Hgt]]; [|exact Heq|].
  - assert (2 ^ Zdigits2 (Zpos p) <= 2 ^ (k - 1)) by (apply Z.pow_le_mono_r; lia). lia.
  - assert (2 ^ k <= 2 ^ (Zdigits2 (Zpos p) - 1)) by (apply Z.pow_le_mono_r; lia). lia.
Qed.

Lemma shr_record_of_loc_m (m : Z) (l : location) : shr_m (shr_record_of_loc m l) = m.
Proof. destruct l as [|[| |]]; reflexivity. Qed.

Lemma loc_of_shr_record_of_loc (m : Z) (l : location) :
  loc_of_shr_record (shr_record_of_loc m l) = l.
Proof. destruct l as [|[| |]]; reflexivity. Qed.

Lemma shr_fexp_canonical (m e : Z) (l : location) :
  Zdigits2 m = 53 -> -1074 <= e ->
  shr_fexp 53 1024 m e l = (shr_record_of_loc m l, e).
Proof.
  intros Hd He. unfold shr_fexp, fexp, emin. rewrite Hd.
  replace (Z.max (53 + e - 53) (3 - 1024 - 53) - e) with 0 by lia.
  reflexivity.
Qed.

Lemma binary_round_aux_canonical (s : bool) (m : positive) (e : Z) :
  Zdigits2 (Zpos m) = 53 -> -1074 <= e <= 971 ->
  binary_round_aux 53 1024 s (Zpos m) e loc_Exact = S754_finite s m e.
Proof.
  intros Hd He. unfold binary_round_aux.
  rewrite shr_fexp_canonical by (assumption || lia).
  cbn [shr_record_of_loc shr_m loc_of_shr_record round_nearest_even].
  rewrite shr_fexp_canonical by (assumption || lia).
  cbn [shr_record_of_loc shr_m].
  destruct (Z.leb_spec e (1024 - 53)); [reflexivity | lia].
Qed.

Lemma shift_pos_value (m k : positive) :
  Zpos (Pos.iter xO m k) = Zpos m * 2 ^ Zpos k.
Proof.
  change (Pos.iter xO m k) with (shift_pos k m).
  rewrite shift_pos_correct, Zpower_pos_nat, Z.mul_comm.
  f_equal. rewrite Zpower_nat_Z, positive_nat_Z. reflexivity.
Qed.

(** Conversion of a positive int below 2^53 is exact. *)
Lemma of_int_exact (n : Z) :
  0 < n < 2 ^ 53 ->
  exists (m : positive) (e : Z),
    Float64.of_int n = Return (S754_finite false m e) /\
    Zdigits2 (Zpos m) = 53 /\ -52 <= e <= 0 /\
    Zpos m = n * 2 ^ (- e).
Proof.
  intros Hn. destruct n as [|p|p]; try lia.
  pose proof (Zdigits2_pos_bounds p) as Hp.
  set (d := Zdigits2 (Zpos p)) in *.
  assert (Hd : 1 <= d <= 53).
  { assert (0 < d) by (subst d; cbn; lia). split; [lia|].
    destruct (Z.le_gt_cases d 53); [assumption|].
    assert (2 ^ 53 <= 2 ^ (d - 1)) by (apply Z.pow_le_mono_r; lia). lia. }
  unfold Float64.of_int, binary_normalize, binary_round.
  change (Zpos (digits2_pos p)) with d. rewrite Z.add_0_r.
  unfold fexp at 1, emin. 
  replace (Z.max (d - Float64.prec) (3 - Float64.emax - Float64.prec)) with (d - 53)
    by (unfold Float64.prec, Float64.emax; lia).
  unfold shl_align. rewrite Z.sub_0_r.
  destruct (d - 53) as [|k|k] eqn:Hk; try lia.
  - exists p, 0. change Float64.prec with 53. change Float64.emax with 1024.
    rewrite binary_round_aux_canonical; [|subst d; lia|lia].
    repeat split; lia || (subst d; lia).
  - exists (Pos.iter xO p k), (Zneg k).
    change Float64.prec with 53. change Float64.emax with 1024.
    assert (Hval : Zpos (Pos.iter xO p k) = Zpos p * 2 ^ Zpos k) by apply shift_pos_value.
    assert (Hdig : Zdigits2 (Zpos (Pos.iter xO p k)) = 53).
    { apply Zdigits2_unique; [|lia]. rewrite Hval.
      replace 53 with (d + Zpos k) by lia.
      replace (d + Zpos k - 1) with ((d - 1) + Zpos k) by lia.
      rewrite !Z.pow_add_r by lia.
      assert (0 < 2 ^ Zpos k) by (apply Z.pow_pos_nonneg; lia). nia. }
    rewrite binary_round_aux_canonical; [|exact Hdig|lia].
    repeat split; lia || exact Hdig || exact Hval.
Qed.

Lemma shr_1_m (mrs : shr_record) :
  0 <= shr_m mrs -> shr_m (shr_1 mrs) = shr_m mrs / 2.
Proof.
  destruct mrs as [m r s]. cbn [shr_m]. intros Hm.
  destruct m as [|[p|p|]|p]; try lia; cbn [shr_1 shr_m]; try reflexivity.
  - rewrite Pos2Z.inj_xI. Z.div_mod_to_equations. lia.
  - rewrite Pos2Z.inj_xO. Z.div_mod_to_equations. lia.
Qed.

Lemma iter_shr_1_m (k : positive) (mrs : shr_record) :
  0 <= shr_m mrs ->
  shr_m (iter_pos shr_1 k mrs) = shr_m mrs / 2 ^ Zpos k.
Proof.
  revert mrs. induction k as [k IH | k IH |]; intros mrs Hm; cbn [iter_pos].
  - assert (0 <= shr_m (shr_1 mrs)) by (rewrite shr_1_m by lia; apply Z.div_pos; lia).
    assert (0 < 2 ^ Zpos k) by (apply Z.pow_pos_nonneg; lia).
    rewrite IH, IH, shr_1_m by (rewrite ?IH by lia; try apply Z.div_pos; lia).
    rewrite !Z.div_div by lia.
    f_equal. replace (Zpos k~1) with (1 + Zpos k + Zpos k) by lia.
    rewrite !Z.pow_add_r by lia. change (2 ^ 1) with 2. lia.
  - assert (0 < 2 ^ Zpos k) by (apply Z.pow_pos_nonneg; lia).
    rewrite IH, IH by (rewrite ?IH by lia; try apply Z.div_pos; lia).
    rewrite !Z.div_div by lia.
    f_equal. replace (Zpos k~0) with (Zpos k + Zpos k) by lia.
    rewrite !Z.pow_add_r by lia. reflexivity.
  - apply shr_1_m, Hm.
Qed.


Lemma round_nearest_even_bounds (q : Z) (l : location) :
  q <= round_nearest_even q l <= q + 1.
Proof.
  destruct l as [|[| |]]; cbn [round_nearest_even]; try lia.
  destruct (Z.even q); lia.
Qed.

(** The end of [binary_round_aux]: a 53-bit significand is rounded to
    nearest, and the result is finite or infinite by its exponent alone. *)
Lemma binary_round_tail (m1 e : Z) (l : location) :
  2 ^ 52 <= m1 < 2 ^ 53 -> -1074 <= e ->
  exists (m : positive) (e2 : Z),
    (let '(mrs, e'') := shr_fexp 53 1024 (round_nearest_even m1 l) e loc_Exact in
     match shr_m mrs with
     | Z0 => S754_zero false
     | Zpos m => if e'' <=? 1024 - 53 then S754_finite false m e'' else S754_infinity false
     | Zneg _ => S754_nan
     end)
    = (if e2 <=? 971 then S754_finite false m e2 else S754_infinity false) /\
    e <= e2 <= e + 1 /\
    m1 <= Zpos m * 2 ^ (e2 - e) <= m1 + 1.
Proof.
  intros Hm He.
  pose proof (round_nearest_even_bounds m1 l) as Hr.
  set (q1 := round_nearest_even m1 l) in *.
  assert (q1 < 2 ^ 53 \/ q1 = 2 ^ 53) as [Hlt | Heq] by lia.
  - rewrite shr_fexp_canonical; [|apply Zdigits2_unique; lia|lia].
    cbn [shr_record_of_loc shr_m].
    destruct q1 as [|m|m]; try lia.
    exists m, e. rewrite Z.sub_diag. cbn [Z.pow]. repeat split; lia.
  - rewrite Heq. unfold shr_fexp.
    replace (Zdigits2 (2 ^ 53)) with 54 by reflexivity.
    unfold fexp, emin.
    replace (Z.max (54 + e - 53) (3 - 1024 - 53) - e) with 1 by lia.
    cbn [shr iter_pos shr_record_of_loc].
    change (shr_1 {| shr_m := 2 ^ 53; shr_r := false; shr_s := false |})
      with {| shr_m := 2 ^ 52; shr_r := false; shr_s := false |}.
    cbn [shr_m]. change (2 ^ 52) with (Zpos (2 ^ 52)).
    exists (2 ^ 52)%positive, (e + 1).
    replace (e + 1 - e) with 1 by lia.
    change (Zpos (2 ^ 52) * 2 ^ 1) with (2 ^ 53).
    repeat split; lia.
Qed.


(** Rounding a 53-bit integer significand: it stays, or becomes [2^53]. *)
Lemma binary_round_aux_53 (q e : Z) (l : location) :
  2 ^ 52 <= q < 2 ^ 53 -> -1074 <= e <= 970 ->
  exists (m : positive) (e2 : Z),
    binary_round_aux 53 1024 false q e l = S754_finite false m e2 /\
    e <= e2 <= e + 1 /\
    q <= Zpos m * 2 ^ (e2 - e) <= q + 1.
Proof.
  intros Hq He. unfold binary_round_aux.
  rewrite shr_fexp_canonical; [|apply Zdigits2_unique; lia|lia].
  rewrite shr_record_of_loc_m, loc_of_shr_record_of_loc.
  destruct (binary_round_tail q e l Hq ltac:(lia)) as (m & e2 & -> & He2 & Hval).
  exists m, e2. destruct (Z.leb_spec e2 971); [|lia].
  repeat split; lia.
Qed.

Lemma sqrt_core_53 (m : positive) (e : Z) :
  Zdigits2 (Zpos m) = 53 -> -52 <= e <= 0 ->
  exists l : location,
    SFsqrt_core_binary 53 1024 (Zpos m) e =
    (Z.sqrt (Zpos m * 2 ^ (e - 2 * (e / 2 - 26))), e / 2 - 26, l).
Proof.
  intros Hd He. unfold SFsqrt_core_binary.
  rewrite Hd. unfold fexp, emin. rewrite !Z.div2_div.
  replace (Z.min (Z.max ((53 + e + 1) / 2 - 53) (3 - 1024 - 53)) (e / 2))
    with (e / 2 - 26) by (Z.div_mod_to_equations; lia).
  set (e' := e / 2 - 26).
  assert (Hs : 52 <= e - 2 * e' <= 53) by (subst e'; Z.div_mod_to_equations; lia).
  destruct (e - 2 * e') as [|s|s] eqn:Hshift; try lia.
  rewrite Z.shiftl_mul_pow2 by lia.
  rewrite <- Z.sqrtrem_sqrt.
  destruct (Z.sqrtrem (Zpos m * 2 ^ Zpos s)) as [q r].
  eexists. reflexivity.
Qed.

(** Scaling by an even power of two commutes with the integer square
    root, up to the rounding of the scaled root. *)
Lemma scaled_sqrt_bounds (n E q1 : Z) :
  0 <= n -> 0 < E ->
  Z.sqrt (n * (E * E)) <= q1 <= Z.sqrt (n * (E * E)) + 1 ->
  Z.sqrt n <= q1 / E <= Z.sqrt n + 1.
Proof.
  intros Hn HE Hq1.
  pose proof (Z.sqrt_spec n Hn) as Hk.
  pose proof (Z.sqrt_spec (n * (E * E)) ltac:(nia)) as Hq.
  pose proof (Z.sqrt_nonneg n) as Hk0.
  pose proof (Z.sqrt_nonneg (n * (E * E))) as Hq0.
  set (k := Z.sqrt n) in *. set (q := Z.sqrt (n * (E * E))) in *.
  unfold Z.succ in *.
  assert (Hlow : E * k <= q).
  { assert (E * k < q + 1); [|lia].
    apply Z.square_lt_simpl_nonneg; [lia|]. nia. }
  assert (Hhigh : q + 1 <= (k + 1) * E).
  { assert (q < (k + 1) * E); [|lia].
    apply Z.square_lt_simpl_nonneg; [nia|]. nia. }
  split.
  - apply Z.div_le_lower_bound; lia.
  - apply Z.div_le_upper_bound; lia.
Qed.

Lemma int_sqrt_bounds (n : Z) :
  0 < n < 2 ^ 53 ->
  exists s : Z, int_sqrt n = Return s /\ Z.sqrt n <= s <= Z.sqrt n + 1.
Proof.
  intros Hn.
  destruct (of_int_exact n Hn) as (m & e & Hof & Hd & He & Hm).
  unfold int_sqrt. rewrite Hof. unfold Float64.sqrt, SFsqrt.
  change Float64.prec with 53. change Float64.emax with 1024.
  destruct (sqrt_core_53 m e Hd He) as [l ->].
  set (e' := e / 2 - 26).
  assert (He' : -52 <= e' <= -26) by (subst e'; Z.div_mod_to_equations; lia).
  assert (Hshift : 52 <= e - 2 * e' <= 53) by (subst e'; Z.div_mod_to_equations; lia).
  set (E := 2 ^ (- e')).
  assert (HE : 0 < E) by (apply Z.pow_pos_nonneg; lia).
  assert (Hscaled : Zpos m * 2 ^ (e - 2 * e') = n * (E * E)).
  { rewrite Hm. unfold E. rewrite <- Z.mul_assoc, <- !Z.pow_add_r by lia.
    do 2 f_equal. lia. }
  rewrite Hscaled.
  set (q := Z.sqrt (n * (E * E))).
  assert (Hq : 2 ^ 52 <= q < 2 ^ 53).
  { pose proof (Zdigits2_pos_bounds m) as Hmb. rewrite Hd in Hmb.
    change (2 ^ (53 - 1)) with (2 ^ 52) in Hmb.
    assert (H104 : 2 ^ 104 <= n * (E * E) < 2 ^ 106).
    { rewrite <- Hscaled.
      assert (2 ^ 52 <= 2 ^ (e - 2 * e') <= 2 ^ 53)
        by (split; apply Z.pow_le_mono_r; lia).
      change (2 ^ 104) with (2 ^ 52 * 2 ^ 52).
      change (2 ^ 106) with (2 ^ 53 * 2 ^ 53). nia. }
    split.
    - change (2 ^ 52) with (Z.sqrt (2 ^ 104)). apply Z.sqrt_le_mono. lia.
    - apply Z.sqrt_lt_square; [lia | lia |].
      change (2 ^ 53 * 2 ^ 53) with (2 ^ 106). lia. }
  destruct (binary_round_aux_53 q e' l Hq ltac:(lia)) as (m2 & e2 & -> & He2 & Hval).
  unfold Float64.to_int.
  destruct e2 as [|p|p]; try lia.
  rewrite Z.shiftr_div_pow2 by lia.
  eexists. split; [reflexivity|].
  set (delta := Zneg p - e') in *.
  assert (Hsplit : E = 2 ^ Zpos p * 2 ^ delta).
  { unfold E, delta. rewrite <- Z.pow_add_r by lia. f_equal. lia. }
  assert (Hdelta : 0 < 2 ^ delta) by (apply Z.pow_pos_nonneg; lia).
  rewrite <- (Z.div_mul_cancel_r (Zpos m2) (2 ^ Zpos p) (2 ^ delta)) by lia.
  rewrite <- Hsplit.
  apply scaled_sqrt_bounds; [lia | exact HE | exact Hval].
Qed.

(** From [2^1024] on, conversion to a float overflows. *)
Lemma of_int_overflow (n : Z) :
  2 ^ 1024 <= n -> Float64.of_int n = Raise OverflowError.
Proof.
  intros Hn. destruct n as [|p|p]; try lia.
  pose proof (Zdigits2_pos_bounds p) as Hp.
  set (d := Zdigits2 (Zpos p)) in *.
  assert (Hd : 1025 <= d).
  { destruct (Z.le_gt_cases 1025 d); [assumption|].
    assert (2 ^ d <= 2 ^ 1024) by (apply Z.pow_le_mono_r; lia). lia. }
  unfold Float64.of_int, binary_normalize, binary_round.
  change (Zpos (digits2_pos p)) with d. rewrite Z.add_0_r.
  change Float64.prec with 53. change Float64.emax with 1024.
  unfold fexp at 1, emin.
  replace (Z.max (d - 53) (3 - 1024 - 53)) with (d - 53) by lia.
  unfold shl_align. rewrite Z.sub_0_r.
  destruct (d - 53) as [|k|k] eqn:Hk; try lia.
  unfold binary_round_aux, shr_fexp at 1.
  fold d. unfold fexp at 1, emin. rewrite Z.add_0_r.
  replace (Z.max (d - 53) (3 - 1024 - 53) - 0) with (Zpos k) by lia.
  cbn [shr shr_record_of_loc]. rewrite Z.add_0_l.
  set (mrs := iter_pos shr_1 k _).
  assert (Hm1 : 2 ^ 52 <= shr_m mrs < 2 ^ 53).
  { unfold mrs. rewrite iter_shr_1_m by (cbn; lia). cbn [shr_m].
    assert (0 < 2 ^ Zpos k) by (apply Z.pow_pos_nonneg; lia).
    split.
    - apply Z.div_le_lower_bound; [lia|].
      rewrite <- Z.pow_add_r by lia. replace (Zpos k + 52) with (d - 1) by lia. lia.
    - apply Z.div_lt_upper_bound; [lia|].
      rewrite <- Z.pow_add_r by lia. replace (Zpos k + 53) with d by lia. lia. }
  destruct (binary_round_tail (shr_m mrs) (Zpos k) (loc_of_shr_record mrs) Hm1 ltac:(lia))
    as (m & e2 & -> & He2 & _).
  destruct (Z.leb_spec e2 971); [lia | reflexivity].
Qed.

Example int_sqrt_one_too_many :
  int_sqrt (94906265 * 94906265 - 1) = Return 94906265 /\
  Z.sqrt (94906265 * 94906265 - 1) = 94906264.
Proof. split; vm_compute; reflexivity. Qed.

(** Below [2^53] the test is right: it returns, and it returns true exactly
    on the primes. *)
Lemma is_prime_correct_below_2_53 (n : Z) :
  n < 2 ^ 53 ->
  exists b : bool, is_prime n = Return b /\ (b = true <-> Z.prime n).
Proof.
  intros Hn.
  destruct (Z.lt_ge_cases n 2) as [Hsmall | Hbig].
  { exists false. split; [apply is_prime_below_two, Hsmall|].
    split; [discriminate | intros [? _]; lia]. }
  assert (n = 2 \/ 2 < n) as [-> | Hgt] by lia.
  { exists true. split; [reflexivity|]. split; [intros _; apply Z.prime_2 | reflexivity]. }
  pose proof (Z.mod_pos_bound n 2 ltac:(lia)) as Hmod.
  assert (n mod 2 = 0 \/ n mod 2 = 1) as [Heven | Hodd] by lia.
  { exists false. split; [apply is_prime_even; assumption|].
    split; [discriminate|]. intros [_ Hnone]. exfalso.
    apply (Hnone 2); [lia|]. apply Z.mod_divide; [lia | exact Heven]. }
  destruct (int_sqrt_bounds n ltac:(lia)) as (s & Hs & Hbounds).
  rewrite is_prime_odd, Hs by assumption.
  eexists. split; [reflexivity|].
  apply odd_trial_division_decides; try assumption.
  split; [lia|].
  assert (Z.sqrt n < n - 1); [|lia].
  apply Z.sqrt_lt_square; nia.
Qed.

(** C4, where the code departs from it: on every odd integer from [2^1024]
    on, [is_prime] answers neither true nor false; [math.sqrt] cannot
    convert its argument to a float and raises [OverflowError].  So it does
    on [3^700], an odd multiple of 3. *)
Theorem is_prime_raises_beyond_float_range (n : Z) :
  2 ^ 1024 <= n -> n mod 2 = 1 -> is_prime n = Raise OverflowError.
Proof.
  intros Hn Hodd.
  assert (2 < 2 ^ 1024) by reflexivity.
  rewrite is_prime_odd by lia.
  unfold int_sqrt. rewrite of_int_overflow by exact Hn. reflexivity.
Qed.

Lemma is_prime_raises_beyond_float_range_witness :
  (3 ^ 700) mod 3 = 0 /\ is_prime (3 ^ 700) = Raise OverflowError.
Proof.
  split; [vm_compute; reflexivity|].
  apply (is_prime_raises_beyond_float_range (3 ^ 700)).
  - vm_compute. discriminate.
  - vm_compute. reflexivity.
Defined.

(** * Further properties

    What the counters, the branches of [hunt_prime], whole sessions of
    hunts and the primality test guarantee beyond the statements above. *)

(** ** Histories, counted *)

Lemma state_after_cons (c : Call) (cs : list Call) (cb : CircuitBreaker) :
  state_after (c :: cs) cb = state_after cs (final (perform c cb)).
Proof. apply perform_all_cons. Qed.

(** One call: what it adds to the lifetime counters, and that it leaves the
    configuration alone. *)
Lemma perform_counts (c : Call) (cb : CircuitBreaker) :
  _total_failures (final (perform c cb)) =
    _total_failures cb + (if is_failure c then 1 else 0) /\
  _total_successes (final (perform c cb)) =
    _total_successes cb + (if is_success c then 1 else 0) /\
  failure_threshold (final (perform c cb)) = failure_threshold cb /\
  cooldown_seconds (final (perform c cb)) = cooldown_seconds cb.
Proof.
  rewrite perform_final.
  destruct c as [now|now1 now2|now|now1 now2|now1 now2]; cbn [is_failure is_success].
  - repeat split; lia.
  - rewrite trip_final. destruct (_ >=? _); cbn; repeat split; lia.
  - rewrite reset_final. cbn. repeat split; lia.
  - rewrite record_success_final, reset_final.
    destruct (Qgt_bool _ _); cbn; repeat split; lia.
  - repeat split; lia.
Qed.

(** X3. Whatever the state and the clock, a history adds to [_total_failures]
    the number of its [trip()] calls and to [_total_successes] the number of
    its [reset()] and [record_success()] calls, and never changes the
    threshold or the cooldown. *)
Theorem history_is_counted (cs : list Call) (cb : CircuitBreaker) :
  _total_failures (state_after cs cb) = _total_failures cb + failures_in cs /\
  _total_successes (state_after cs cb) = _total_successes cb + successes_in cs /\
  failure_threshold (state_after cs cb) = failure_threshold cb /\
  cooldown_seconds (state_after cs cb) = cooldown_seconds cb.
Proof.
  revert cb. induction cs as [|c cs IH]; intros cb.
  - unfold failures_in, successes_in. cbn. repeat split; lia.
  - rewrite state_after_cons.
    destruct (IH (final (perform c cb))) as (-> & -> & -> & ->).
    destruct (perform_counts c cb) as (-> & -> & -> & ->).
    unfold failures_in, successes_in. cbn [filter].
    destruct (is_failure c), (is_success c); cbn [length]; repeat split; lia.
Qed.

(** ** A circuit opens only after enough failures *)

Lemma perform_keeps_opened_only_after_threshold (c : Call) (cb : CircuitBreaker) :
  streak_within_total cb ->
  opened_only_after_threshold cb ->
  opened_only_after_threshold (final (perform c cb)).
Proof.
  unfold streak_within_total, opened_only_after_threshold. intros Hstreak Hinv.
  rewrite perform_final.
  destruct c as [now|now1 now2|now|now1 now2|now1 now2]; try exact Hinv.
  - rewrite trip_final.
    destruct (Z.geb_spec (_consecutive_failures cb + 1) (failure_threshold cb));
      cbn; [right; lia | destruct Hinv; [now left | right; lia]].
  - rewrite reset_final. now left.
  - rewrite record_success_final, reset_final.
    destruct (Qgt_bool _ _); cbn; [exact Hinv | now left].
Qed.

Lemma reachable_invariants (cb : CircuitBreaker) :
  reachable cb ->
  streak_within_total cb /\ opened_only_after_threshold cb /\
  0 <= _total_successes cb.
Proof.
  intros (threshold & cooldown & cb0 & cs & [= <-] & <-).
  set (cb0 := mkCircuitBreaker threshold cooldown 0 0 0 0 None).
  assert (Hinit : streak_within_total cb0 /\ opened_only_after_threshold cb0 /\
                  0 <= _total_successes cb0).
  { unfold streak_within_total, opened_only_after_threshold. cbn.
    repeat split; try lia. now left. }
  clearbody cb0. revert cb0 Hinit.
  induction cs as [|c cs IH]; intros cb0 Hinit; [exact Hinit|].
  rewrite perform_all_cons. apply IH.
  destruct Hinit as (Hstreak & Hopened & Hsucc).
  repeat split.
  - apply perform_keeps_streak_within_total, Hstreak.
  - apply perform_keeps_streak_within_total, Hstreak.
  - apply perform_keeps_opened_only_after_threshold; assumption.
  - destruct (perform_counts c cb0) as (_ & -> & _).
    destruct (is_success c); lia.
Qed.

(** X4. A breaker that has recorded fewer failures than its threshold, in
    total, has never been opened: [_tripped_until] is still the sentinel and
    [allow()] is true at every reading of the epoch clock. *)
Theorem few_failures_never_open (cb : CircuitBreaker) :
  reachable cb ->
  _total_failures cb < failure_threshold cb ->
  _tripped_until cb = 0%Q /\
  forall now : Q, (0 < now)%Q -> outcome (allow now cb) = Return true.
Proof.
  intros Hreach Hfew.
  destruct (reachable_invariants cb Hreach) as (_ & [Hclosed | Hmany] & _); [|lia].
  split; [exact Hclosed|].
  intros now Hnow. apply allow_true. rewrite Hclosed. exact Hnow.
Qed.

Lemma few_failures_never_open_witness :
  outcome (allow 4 (state_after [CallTrip 1 1; CallTrip 2 2; CallRecordSuccess 3 3; CallTrip 3 3]
                      (mkCircuitBreaker 4 5 0 0 0 0 None))) = Return true.
Proof.
  apply (few_failures_never_open
           (state_after [CallTrip 1 1; CallTrip 2 2; CallRecordSuccess 3 3; CallTrip 3 3]
              (mkCircuitBreaker 4 5 0 0 0 0 None))).
  - exists 4, 5%Q, (mkCircuitBreaker 4 5 0 0 0 0 None),
      [CallTrip 1 1; CallTrip 2 2; CallRecordSuccess 3 3; CallTrip 3 3].
    split; reflexivity.
  - reflexivity.
  - reflexivity.
Defined.

(** ** Rates are percentages *)




(** ** One hunt, branch by branch *)

Lemma same_result_trans {S A} (r1 r2 r3 : Run S A) :
  same_result r1 r2 -> same_result r2 r3 -> same_result r1 r3.
Proof. intros [? ?] [? ?]. split; congruence. Qed.

Lemma step_return {S A B} (m : Method S A) (k : A -> Method S B) (self self' : S) (a : A) :
  outcome (m self) = Return a -> final (m self) = self' ->
  same_result (bind m k self) (k a self').
Proof. intros Hout <-. unfold bind. rewrite Hout. split; reflexivity. Qed.

Lemma step_raise {S A B} (m : Method S A) (k : A -> Method S B) (self self' : S) (e : Exn) :
  outcome (m self) = Raise e -> final (m self) = self' ->
  same_result (bind m k self) (mkRun (Raise e) self' []).
Proof. intros Hout <-. unfold bind. rewrite Hout. split; reflexivity. Qed.

(** One step of a method, run on a state that is known. *)
Ltac run_small :=
  cbv [assign bind ret get put print lift breaker on_field allow
       set_circuit_breaker set_primes_found set_attempts
       circuit_breaker min_num max_num primes_found attempts];
  cbn [outcome final printed].

Ltac exec v :=
  eapply same_result_trans;
  [ eapply step_return with (a := v); run_small; try reflexivity | cbv beta ].

(** An allowed hunt: the attempt is counted first; then the draw, the test
    and the report to the breaker, each of which may end the call. *)
Lemma hunt_prime_allowed (h : PrimeHunter) (now0 now1 now2 : Q) (r : Z) :
  outcome (allow now0 (circuit_breaker h)) = Return true ->
  let counted := set_attempts (attempts h + 1) h in
  same_result (hunt_prime now0 now1 now2 r h)
    match generate_random_number r (min_num h) (max_num h) with
    | Raise e => mkRun (Raise e) counted []
    | Return number =>
        match is_prime number with
        | Raise e => mkRun (Raise e) counted []
        | Return true =>
            mkRun (Return true)
              (set_circuit_breaker (final (record_success now1 now2 (circuit_breaker h)))
                 (set_primes_found (primes_found h ++ [number]) counted)) []
        | Return false =>
            mkRun (Return false)
              (set_circuit_breaker (final (trip now1 now2 (circuit_breaker h))) counted) []
        end
    end.
Proof.
  rewrite allow_outcome. intros [= Hallowed].
  destruct h as [cb lo hi found tries]. cbn [circuit_breaker] in Hallowed.
  cbv zeta. cbn [min_num max_num circuit_breaker attempts primes_found].
  unfold hunt_prime.
  exec true. { rewrite Hallowed. reflexivity. }
  cbn [negb].
  exec tt. exec (mkPrimeHunter cb lo hi found (tries + 1)).
  cbn [min_num max_num attempts].
  destruct (generate_random_number r lo hi) as [number|e] eqn:Hdraw.
  2:{ eapply same_result_trans; [eapply step_raise with (e := e); reflexivity|].
      split; reflexivity. }
  exec number. exec tt.
  destruct (is_prime number) as [[|]|e] eqn:Hprime.
  - exec true. exec tt.
    exec tt. { rewrite record_success_outcome. reflexivity. }
    eapply same_result_trans; [eapply step_return; run_small; reflexivity|].
    cbv beta. exec tt. split; reflexivity.
  - exec false.
    exec tt. { rewrite trip_outcome. reflexivity. }
    exec tt. split; reflexivity.
  - eapply same_result_trans; [eapply step_raise with (e := e); reflexivity|].
    split; reflexivity.
Qed.

(** The draw: inside the range when there is one, [ValueError] when there
    is none. *)
Lemma generate_random_number_spec (r lo hi : Z) :
  (lo <= hi ->
     generate_random_number r lo hi = Return (lo + r mod (hi - lo + 1)) /\
     lo <= lo + r mod (hi - lo + 1) <= hi) /\
  (hi < lo -> generate_random_number r lo hi = Raise ValueError).
Proof.
  unfold generate_random_number, randint. split; intros Hrange.
  - destruct (Z.gtb_spec lo hi); [lia|]. split; [reflexivity|].
    pose proof (Z.mod_pos_bound r (hi - lo + 1) ltac:(lia)). lia.
  - destruct (Z.gtb_spec lo hi); [reflexivity | lia].
Qed.

(** A blocked hunt, for the proofs below: it returns false and changes
    nothing. *)
Lemma hunt_prime_blocked (h : PrimeHunter) (now0 now1 now2 : Q) (r : Z) :
  outcome (allow now0 (circuit_breaker h)) = Return false ->
  same_result (hunt_prime now0 now1 now2 r h) (mkRun (Return false) h []).
Proof.
  rewrite allow_outcome. intros [= Hblocked].
  destruct h as [cb lo hi found tries]. cbn [circuit_breaker] in Hblocked.
  unfold hunt_prime.
  exec false. { rewrite Hblocked. reflexivity. }
  cbn [negb].
  eapply same_result_trans; [eapply step_return; [apply get_stats_outcome | reflexivity]|].
  cbv beta. exec tt. split; reflexivity.
Qed.

Lemma allow_decides (now : Q) (cb : CircuitBreaker) :
  outcome (allow now cb) = Return true \/ outcome (allow now cb) = Return false.
Proof. rewrite allow_outcome. destruct (Qgt_bool _ _); [left | right]; reflexivity. Qed.



(** ** Sessions *)

Lemma hunt_all_cons_return (x : Hunt) (rest : list Hunt) (h : PrimeHunter) (b : bool) :
  outcome (hunt x h) = Return b ->
  same_result (hunt_all (x :: rest) h) (hunt_all rest (final (hunt x h))).
Proof.
  intros Hout.
  exact (step_return (hunt x) (fun _ => hunt_all rest) h _ b Hout eq_refl).
Qed.

Lemma hunt_all_cons_raise (x : Hunt) (rest : list Hunt) (h : PrimeHunter) (e : Exn) :
  outcome (hunt x h) = Raise e ->
  same_result (hunt_all (x :: rest) h) (mkRun (Raise e) (final (hunt x h)) []).
Proof.
  intros Hout.
  exact (step_raise (hunt x) (fun _ => hunt_all rest) h _ e Hout eq_refl).
Qed.

Lemma hunt_cases (x : Hunt) (h : PrimeHunter) : hunt_effect x h (hunt x h).
Proof.
  unfold hunt.
  destruct (allow_decides (hunt_now0 x) (circuit_breaker h)) as [Hallowed | Hblocked].
  2:{ destruct (hunt_prime_blocked h _ (hunt_now1 x) (hunt_now2 x) (hunt_entropy x) Hblocked).
      apply HuntBlocked; assumption. }
  pose proof (hunt_prime_allowed h _ (hunt_now1 x) (hunt_now2 x) (hunt_entropy x) Hallowed)
    as Hrun.
  cbv zeta in Hrun.
  destruct (generate_random_number_spec (hunt_entropy x) (min_num h) (max_num h))
    as [Hdraw Hempty].
  destruct (Z.le_gt_cases (min_num h) (max_num h)) as [Hrange | Hinverted].
  - destruct (Hdraw Hrange) as [Hnumber _]. rewrite Hnumber in Hrun.
    fold (drawn (hunt_entropy x) h) in Hrun.
    destruct (is_prime (drawn (hunt_entropy x) h)) as [[|]|e] eqn:Htest;
      destruct Hrun as [Hout Hfinal].
    + eapply HuntFound; eauto.
    + apply HuntMissed; assumption.
    + eapply HuntRaised; eassumption.
  - rewrite (Hempty ltac:(lia)) in Hrun. destruct Hrun as [Hout Hfinal].
    eapply HuntRaised; eassumption.
Qed.



Lemma tested_primes_are_prime (lo hi : Z) (l : list Z) :
  hi < 2 ^ 53 ->
  Forall (fun p => lo <= p <= hi /\ is_prime p = Return true) l ->
  Forall Z.prime l.
Proof.
  intros Hbound Hall. apply Forall_impl with (2 := Hall).
  intros p [Hrange Htest].
  destruct (is_prime_correct_below_2_53 p ltac:(lia)) as (b & Hb & Hiff).
  apply Hiff. congruence.
Qed.




(** ** The breaker inside a hunter *)

Lemma perform_all_app (cs cs' : list Call) (cb : CircuitBreaker) :
  final (perform_all (cs ++ cs') cb) = final (perform_all cs' (final (perform_all cs cb))).
Proof.
  revert cb. induction cs as [|c cs IH]; intros cb; [reflexivity|].
  rewrite <- app_comm_cons, !perform_all_cons. apply IH.
Qed.

Lemma reachable_step (c : Call) (cb : CircuitBreaker) :
  reachable cb -> reachable (final (perform c cb)).
Proof.
  intros (threshold & cooldown & cb0 & cs & Hinit & <-).
  exists threshold, cooldown, cb0, (cs ++ [c]). split; [exact Hinit|].
  rewrite perform_all_app, perform_all_cons. reflexivity.
Qed.

Lemma hunt_keeps_breaker_reachable (x : Hunt) (h : PrimeHunter) :
  reachable (circuit_breaker h) -> reachable (circuit_breaker (final (hunt x h))).
Proof.
  intros Hreach.
  destruct (hunt_cases x h) as [run Hout Hfinal | run e Hout Hfinal
                               | run number Hrange Hnumber Htest Hout Hfinal
                               | run Hout Hfinal];
    rewrite Hfinal; destruct h as [cb lo hi found tries];
    cbv [set_circuit_breaker set_primes_found set_attempts circuit_breaker] in *.
  - exact Hreach.
  - exact Hreach.
  - apply (reachable_step (CallRecordSuccess (hunt_now1 x) (hunt_now2 x))), Hreach.
  - apply (reachable_step (CallTrip (hunt_now1 x) (hunt_now2 x))), Hreach.
Qed.

Lemma hunt_all_final_cons (x : Hunt) (rest : list Hunt) (h : PrimeHunter) :
  final (hunt_all (x :: rest) h) = final (hunt_all rest (final (hunt x h))) \/
  final (hunt_all (x :: rest) h) = final (hunt x h).
Proof.
  destruct (outcome (hunt x h)) as [b|e] eqn:Hout.
  - left. apply (hunt_all_cons_return x rest h b Hout).
  - right. apply (hunt_all_cons_raise x rest h e Hout).
Qed.

(** X16. The breaker of a hunter is only ever in a state that a history of
    breaker calls reaches from a fresh breaker: what holds of every
    reachable breaker holds inside every session. *)
Theorem session_breaker_is_reachable (h : PrimeHunter) :
  session_state h -> reachable (circuit_breaker h).
Proof.
  intros (threshold & cooldown & lo & hi & h0 & hs & [= <-] & <-).
  set (h0 := mkPrimeHunter _ lo hi [] 0).
  assert (Hfresh : reachable (circuit_breaker h0)).
  { exists threshold, cooldown, (mkCircuitBreaker threshold cooldown 0 0 0 0 None), [].
    split; reflexivity. }
  clearbody h0. revert h0 Hfresh.
  induction hs as [|x rest IH]; intros h0 Hfresh; [exact Hfresh|].
  destruct (hunt_all_final_cons x rest h0) as [-> | ->].
  - apply IH, hunt_keeps_breaker_reachable, Hfresh.
  - apply hunt_keeps_breaker_reachable, Hfresh.
Qed.

Lemma session_breaker_is_reachable_witness :
  reachable (circuit_breaker
               (final (hunt_all [mkHunt 1 1 1 0; mkHunt 2 2 2 3]
                         (mkPrimeHunter (mkCircuitBreaker 3 5 0 0 0 0 None) 5 20 [] 0)))).
Proof.
  apply session_breaker_is_reachable.
  exists 3, 5%Q, 5, 20, (mkPrimeHunter (mkCircuitBreaker 3 5 0 0 0 0 None) 5 20 [] 0),
    [mkHunt 1 1 1 0; mkHunt 2 2 2 3].
  split; reflexivity.
Defined.

(** ** A success gives the whole budget back *)

Lemma failures_below_threshold (cs : list Call) (cb : CircuitBreaker) :
  Forall (fun c => is_failure c = true) cs ->
  _consecutive_failures cb + Z.of_nat (length cs) < failure_threshold cb ->
  _tripped_until (state_after cs cb) = _tripped_until cb.
Proof.
  revert cb. induction cs as [|c cs IH]; intros cb Hall Hroom; [reflexivity|].
  inversion Hall as [|c0 cs0 Hc Hrest]; subst c0 cs0.
  rewrite state_after_cons. cbn [length] in Hroom. rewrite Nat2Z.inj_succ in Hroom.
  destruct c as [now|now1 now2|now|now1 now2|now1 now2]; try discriminate.
  rewrite perform_final, IH; rewrite ?trip_final.
  - destruct (Z.geb_spec (_consecutive_failures cb + 1) (failure_threshold cb));
      [lia | reflexivity].
  - exact Hrest.
  - destruct (_ >=? _); cbn; lia.
Qed.

(** X6. After [record_success()], in whichever branch, the streak starts from
    nothing: fewer than [failure_threshold] calls of [trip()], at any clock
    readings, leave [_tripped_until] as the success left it. *)
Theorem success_gives_the_budget_back
  (cb : CircuitBreaker) (now1 now2 : Q) (cs : list Call) :
  Forall (fun c => is_failure c = true) cs ->
  Z.of_nat (length cs) < failure_threshold cb ->
  let recorded := final (record_success now1 now2 cb) in
  _consecutive_failures recorded = 0 /\
  _tripped_until (state_after cs recorded) = _tripped_until recorded /\
  _consecutive_failures (state_after cs recorded) = Z.of_nat (length cs).
Proof.
  intros Hall Hfew recorded.
  assert (Hzero : _consecutive_failures recorded = 0 /\
                  failure_threshold recorded = failure_threshold cb).
  { unfold recorded. rewrite record_success_final, reset_final.
    destruct (Qgt_bool _ _); split; reflexivity. }
  destruct Hzero as [Hzero Hthr].
  split; [exact Hzero|]. split.
  - apply failures_below_threshold; [exact Hall | lia].
  - clear Hfew Hthr. revert Hzero. generalize recorded. clear recorded.
    assert (Hgen : forall cb0, Forall (fun c => is_failure c = true) cs ->
              _consecutive_failures (state_after cs cb0) =
              _consecutive_failures cb0 + Z.of_nat (length cs)).
    { clear Hall. induction cs as [|c rest IH]; intros cb0 Hall.
      - cbn. lia.
      - inversion Hall as [|c0 cs0 Hc Hrest]; subst c0 cs0.
        rewrite state_after_cons, IH by exact Hrest.
        destruct c as [now|n1 n2|now|n1 n2|n1 n2]; try discriminate.
        rewrite perform_final, trip_final. cbn [length].
        destruct (_ >=? _); cbn; lia. }
    intros cb0 Hzero. rewrite Hgen by exact Hall. lia.
Qed.

Lemma success_gives_the_budget_back_witness :
  let opened := mkCircuitBreaker 3 5 15 3 3 0 (Some 10%Q) in
  _tripped_until (state_after [CallTrip 12 12; CallTrip 13 13]
                    (final (record_success 11 11 opened))) = 0%Q.
Proof.
  cbv zeta.
  destruct (success_gives_the_budget_back (mkCircuitBreaker 3 5 15 3 3 0 (Some 10%Q))
              11 11 [CallTrip 12 12; CallTrip 13 13]) as (_ & Huntil & _).
  - repeat constructor.
  - reflexivity.
  - rewrite Huntil. reflexivity.
Defined.

(** ** The primality test, where it can be trusted *)

(** X8. Below [2^53] [is_prime] decides primality: it returns true exactly on
    the primes and false exactly on the other integers, and never raises. *)
Theorem is_prime_decides_below_2_53 (n : Z) :
  n < 2 ^ 53 ->
  (is_prime n = Return true <-> Z.prime n) /\
  (is_prime n = Return false <-> ~ Z.prime n).
Proof.
  intros Hn.
  destruct (is_prime_correct_below_2_53 n Hn) as (b & -> & Hb).
  split; split.
  - intros [= ->]. apply Hb. reflexivity.
  - intros Hprime. f_equal. apply Hb, Hprime.
  - intros [= ->] Hprime. apply Hb in Hprime. discriminate.
  - intros Hcomposite. f_equal. destruct b; [|reflexivity].
    exfalso. apply Hcomposite, Hb. reflexivity.
Qed.

Lemma is_prime_decides_below_2_53_witness :
  (is_prime 999983 = Return true <-> Z.prime 999983) /\
  (is_prime 1000000 = Return false <-> ~ Z.prime 1000000).
Proof.
  split.
  - apply (is_prime_decides_below_2_53 999983). reflexivity.
  - apply (is_prime_decides_below_2_53 1000000). reflexivity.
Defined.

(** X9. On the integers that never reach [math.sqrt] (those below 2 and the
    even ones) [is_prime] is right whatever their size: it returns, and
    returns true exactly when the number is prime, that is on 2 alone. *)
Theorem is_prime_right_off_the_loop (n : Z) :
  n < 2 \/ n mod 2 = 0 ->
  exists b : bool,
    is_prime n = Return b /\ (b = true <-> Z.prime n) /\ (b = true <-> n = 2).
Proof.
  intros Hcase.
  destruct (Z.lt_ge_cases n 2) as [Hsmall | Hbig].
  { exists false. split; [apply is_prime_below_two, Hsmall|].
    split; (split; [discriminate|]); [intros [? _] | intros ->]; lia. }
  destruct Hcase as [? | Heven]; [lia|].
  assert (n = 2 \/ 2 < n) as [-> | Hgt] by lia.
  { exists true. split; [reflexivity|].
    split; (split; [intros _ | reflexivity]); [apply Z.prime_2 | reflexivity]. }
  exists false. split; [apply is_prime_even; assumption|].
  split; (split; [discriminate|]); [|intros ->; lia].
  intros [_ Hnone]. exfalso.
  apply (Hnone 2); [lia|]. apply Z.mod_divide; [lia | exact Heven].
Qed.

Lemma is_prime_right_off_the_loop_witness :
  is_prime (2 ^ 1024 + 2) = Return false.
Proof.
  destruct (is_prime_right_off_the_loop (2 ^ 1024 + 2)) as (b & Htest & _ & Htwo).
  - right. vm_compute. reflexivity.
  - rewrite Htest. f_equal. destruct b; [|reflexivity].
    assert (Habsurd : 2 ^ 1024 + 2 = 2) by (apply Htwo; reflexivity).
    vm_compute in Habsurd. discriminate.
Defined.

(** X10. The bound of the loop, [int(math.sqrt(n))], for [0 <= n < 2^53]: it is
    computed without exception and is the integer square root of [n] or one
    more, never less. *)
Theorem loop_bound_within_one (n : Z) :
  0 <= n < 2 ^ 53 ->
  exists s : Z, int_sqrt n = Return s /\ Z.sqrt n <= s <= Z.sqrt n + 1.
Proof.
  intros Hn.
  assert (n = 0 \/ 0 < n) as [-> | Hpos] by lia.
  - exists 0. split; [reflexivity | cbn; lia].
  - apply int_sqrt_bounds. lia.
Qed.

Lemma loop_bound_within_one_witness :
  exists s : Z,
    int_sqrt (94906265 * 94906265 - 1) = Return s /\
    Z.sqrt (94906265 * 94906265 - 1) <= s <= Z.sqrt (94906265 * 94906265 - 1) + 1.
Proof.
  apply (loop_bound_within_one (94906265 * 94906265 - 1)).
  split; [vm_compute; discriminate | reflexivity].
Defined.

(** ** The summary *)




(** * Properties of the script in binary64

    From here on the names of the classes and of their methods are those of
    [Binary64]. *)

Import Binary64.

(** ** Comparisons of floats *)

Lemma SFcompare_antisym (x y : spec_float) (c : comparison) :
  SFcompare x y = Some c -> SFcompare y x = Some (CompOpp c).
Proof.
  destruct x as [sx|sx| |sx mx ex], y as [sy|sy| |sy my ey]; cbn;
    try discriminate; intros [= <-];
    try (destruct sx; reflexivity); try (destruct sy; reflexivity);
    try (destruct sx, sy; reflexivity).
  assert (Hm : Pos.compare_cont Eq my mx = CompOpp (Pos.compare_cont Eq mx my))
    by (rewrite Pos.compare_cont_antisym; reflexivity).
  destruct sx, sy; try reflexivity;
    rewrite (Z.compare_antisym ex ey), Hm;
    destruct (ex ?= ey); cbn; try reflexivity;
    destruct (Pos.compare_cont Eq mx my); reflexivity.
Qed.

(** [x <= y] excludes [y < x]. *)
Lemma SFleb_not_gt (x y : spec_float) : SFleb x y = true -> SFltb y x = false.
Proof.
  unfold SFleb, SFltb.
  destruct (SFcompare x y) as [c|] eqn:Hc; [|discriminate].
  rewrite (SFcompare_antisym x y c Hc). destruct c; cbn; congruence.
Qed.

(** Only an int fails to convert, and only by its size. *)
Lemma to_float_raises (n : Number) (e : Exn) :
  to_float n = Raise e -> e = OverflowError.
Proof.
  destruct n as [z|x]; [|discriminate].
  cbn [to_float]. unfold Float64.of_int.
  destruct (binary_normalize _ _ _ _ _); congruence.
Qed.

(** ** The breaker's methods, one equation each *)

Lemma allow_compares (now : spec_float) (cb : CircuitBreaker) :
  outcome (allow now cb) = Return (gt now (_tripped_until cb)).
Proof. reflexivity. Qed.

Lemma allow_reads_only (now : spec_float) (cb : CircuitBreaker) : final (allow now cb) = cb.
Proof. reflexivity. Qed.

(** [trip] counts first; at the threshold it stores the float sum, unless
    the cooldown has no float. *)
Lemma trip_stores (pf : Platform) (now1 now2 : spec_float) (cb : CircuitBreaker) :
  final (trip pf now1 now2 cb) =
    if _consecutive_failures cb + 1 >=? failure_threshold cb
    then match to_float (cooldown_seconds cb) with
         | Return c => set_tripped_until (PyFloat (add now2 c)) (count_failure now1 cb)
         | Raise _ => count_failure now1 cb
         end
    else count_failure now1 cb.
Proof.
  destruct cb as [thr cd tu cf tf ts lft].
  cbv [trip assign when bind ret get put lift print float_plus
       outcome final printed count_failure
       set_consecutive_failures set_total_failures set_last_failure_time set_tripped_until
       failure_threshold cooldown_seconds _tripped_until _consecutive_failures
       _total_failures _total_successes _last_failure_time].
  destruct (cf + 1 >=? thr); [|reflexivity].
  destruct (to_float cd) as [c|e]; [|reflexivity].
  destruct (format_int pf (cf + 1)) as [[]|e]; [|reflexivity].
  destruct (format_number pf cd) as [[]|e]; [|reflexivity].
  destruct (strftime_fromtimestamp pf (add now2 c)) as [[]|e]; reflexivity.
Qed.

(** [trip] raises only at the threshold: from line 51 when the cooldown
    has no float, else from the first of its three lines that cannot be
    built. *)
Lemma trip_raises_where (pf : Platform) (now1 now2 : spec_float) (cb : CircuitBreaker) :
  outcome (trip pf now1 now2 cb) =
    if _consecutive_failures cb + 1 >=? failure_threshold cb
    then match to_float (cooldown_seconds cb) with
         | Return c =>
             notice pf (_consecutive_failures cb + 1) (cooldown_seconds cb) (add now2 c)
         | Raise e => Raise e
         end
    else Return tt.
Proof.
  destruct cb as [thr cd tu cf tf ts lft].
  cbv [trip assign when bind ret get put lift print float_plus notice
       outcome final printed
       set_consecutive_failures set_total_failures set_last_failure_time set_tripped_until
       failure_threshold cooldown_seconds _tripped_until _consecutive_failures
       _total_failures _total_successes _last_failure_time].
  destruct (cf + 1 >=? thr); [|reflexivity].
  destruct (to_float cd) as [c|e]; [|reflexivity].
  destruct (format_int pf (cf + 1)) as [[]|e]; [|reflexivity].
  destruct (format_number pf cd) as [[]|e]; [|reflexivity].
  destruct (strftime_fromtimestamp pf (add now2 c)) as [[]|e]; reflexivity.
Qed.

Lemma reset_writes (now : spec_float) (cb : CircuitBreaker) :
  final (reset now cb) =
    set_total_successes (_total_successes cb + 1)
      (set_consecutive_failures 0 (set_tripped_until (PyInt 0) cb)).
Proof.
  destruct cb as [thr cd tu cf tf ts lft].
  cbv [reset allow assign when bind ret get put print outcome final printed
       set_consecutive_failures set_total_successes set_tripped_until
       failure_threshold cooldown_seconds _tripped_until _consecutive_failures
       _total_failures _total_successes _last_failure_time].
  destruct (negb (gt now tu)); reflexivity.
Qed.

Lemma reset_returns (now : spec_float) (cb : CircuitBreaker) :
  outcome (reset now cb) = Return tt.
Proof.
  destruct cb as [thr cd tu cf tf ts lft].
  cbv [reset allow assign when bind ret get put print outcome final printed
       set_consecutive_failures set_total_successes set_tripped_until
       failure_threshold cooldown_seconds _tripped_until _consecutive_failures
       _total_failures _total_successes _last_failure_time].
  destruct (negb (gt now tu)); reflexivity.
Qed.

Lemma record_success_writes (now1 now2 : spec_float) (cb : CircuitBreaker) :
  final (record_success now1 now2 cb) =
    if gt now1 (_tripped_until cb)
    then set_total_successes (_total_successes cb + 1) (set_consecutive_failures 0 cb)
    else final (reset now2 cb).
Proof.
  unfold record_success, bind. rewrite allow_compares, allow_reads_only.
  destruct (gt now1 (_tripped_until cb)); reflexivity.
Qed.

Lemma record_success_returns (now1 now2 : spec_float) (cb : CircuitBreaker) :
  outcome (record_success now1 now2 cb) = Return tt.
Proof.
  unfold record_success, bind. rewrite allow_compares, allow_reads_only.
  destruct (gt now1 (_tripped_until cb)); cbn [outcome]; [reflexivity|].
  apply reset_returns.
Qed.

(** What every [trip] does, raising or not. *)
Lemma trip_counts (pf : Platform) (now1 now2 : spec_float) (cb : CircuitBreaker) :
  let after := final (trip pf now1 now2 cb) in
  failure_threshold after = failure_threshold cb /\
  cooldown_seconds after = cooldown_seconds cb /\
  _consecutive_failures after = _consecutive_failures cb + 1 /\
  _total_failures after = _total_failures cb + 1 /\
  _total_successes after = _total_successes cb /\
  _last_failure_time after = Some now1.
Proof.
  cbv zeta. rewrite trip_stores.
  destruct (_ >=? _); [destruct (to_float _)|]; repeat split.
Qed.

(** ** Failure streaks *)

Lemma streak_counts (pf : Platform) (t : spec_float) (n : nat) (cb : CircuitBreaker) :
  failure_threshold (fail_times pf t n cb) = failure_threshold cb /\
  cooldown_seconds (fail_times pf t n cb) = cooldown_seconds cb /\
  _consecutive_failures (fail_times pf t n cb) = _consecutive_failures cb + Z.of_nat n /\
  _total_failures (fail_times pf t n cb) = _total_failures cb + Z.of_nat n /\
  _total_successes (fail_times pf t n cb) = _total_successes cb.
Proof.
  revert cb. induction n as [|n IH]; intros cb; cbn [fail_times].
  - repeat split; lia.
  - destruct (IH (final (trip pf t t cb))) as (-> & -> & -> & -> & ->).
    rewrite trip_stores.
    destruct (_ >=? _); [destruct (to_float _)|]; cbn; repeat split; lia.
Qed.

(** Below the threshold nothing opens. *)
Lemma streak_below (pf : Platform) (t : spec_float) (n : nat) (cb : CircuitBreaker) :
  _consecutive_failures cb + Z.of_nat n < failure_threshold cb ->
  _tripped_until (fail_times pf t n cb) = _tripped_until cb.
Proof.
  revert cb. induction n as [|n IH]; intros cb Hlt; [reflexivity|].
  cbn [fail_times]. rewrite IH; rewrite trip_stores.
  - destruct (Z.geb_spec (_consecutive_failures cb + 1) (failure_threshold cb));
      [lia | reflexivity].
  - destruct (_ >=? _); [destruct (to_float _)|]; cbn; lia.
Qed.

(** The failure that reaches the threshold stores the float sum. *)
Lemma trip_at_threshold_stores
  (pf : Platform) (now1 now2 c : spec_float) (cb : CircuitBreaker) :
  failure_threshold cb <= _consecutive_failures cb + 1 ->
  to_float (cooldown_seconds cb) = Return c ->
  _tripped_until (final (trip pf now1 now2 cb)) = PyFloat (add now2 c).
Proof.
  intros Hge Hc. rewrite trip_stores, Hc.
  destruct (Z.geb_spec (_consecutive_failures cb + 1) (failure_threshold cb));
    [reflexivity | lia].
Qed.

(** With a cooldown that has no float, [trip] never stores anything. *)
Lemma trip_without_float
  (pf : Platform) (now1 now2 : spec_float) (e : Exn) (cb : CircuitBreaker) :
  to_float (cooldown_seconds cb) = Raise e ->
  _tripped_until (final (trip pf now1 now2 cb)) = _tripped_until cb /\
  (failure_threshold cb <= _consecutive_failures cb + 1 ->
     outcome (trip pf now1 now2 cb) = Raise e).
Proof.
  intros Hc. rewrite trip_stores, trip_raises_where, Hc.
  destruct (Z.geb_spec (_consecutive_failures cb + 1) (failure_threshold cb));
    split; try reflexivity; lia.
Qed.

Lemma streak_reaching
  (pf : Platform) (t c : spec_float) (n : nat) (cb : CircuitBreaker) :
  (0 < n)%nat ->
  failure_threshold cb <= _consecutive_failures cb + Z.of_nat n ->
  to_float (cooldown_seconds cb) = Return c ->
  _tripped_until (fail_times pf t n cb) = PyFloat (add t c).
Proof.
  revert cb. induction n as [|n IH]; intros cb Hpos Hge Hc; [lia|].
  cbn [fail_times].
  destruct n as [|n].
  - cbn [fail_times]. apply trip_at_threshold_stores; [lia | exact Hc].
  - destruct (trip_counts pf t t cb) as (Hthr & Hcool & Hcount & _).
    apply IH; [lia | lia | congruence].
Qed.

Lemma streak_without_float
  (pf : Platform) (t : spec_float) (e : Exn) (n : nat) (cb : CircuitBreaker) :
  to_float (cooldown_seconds cb) = Raise e ->
  _tripped_until (fail_times pf t n cb) = _tripped_until cb.
Proof.
  revert cb. induction n as [|n IH]; intros cb Hc; [reflexivity|].
  cbn [fail_times]. rewrite IH.
  - apply (trip_without_float pf t t e cb Hc).
  - destruct (trip_counts pf t t cb) as (_ & Hcool & _). congruence.
Qed.

(** C2, as the spec states it, fails.  Threshold 3, cooldown 0.7, three
    failures at time 1700000000.0: the sum stored by line 51 is the float
    nearest to 1700000000.7, which lies above the sum of the two numbers.
    At that reading of the clock the cooldown is over, by the numbers, and
    [allow()] is still false. *)
Lemma stored_sum_is_rounded :
  let t := float_1700000000 in
  let t' := float_1700000000_7 in
  let cb := mkCircuitBreaker 3 (PyFloat float_0_7) (PyInt 0) 0 0 0 None in
  let opened := fail_times sample_platform t 3 cb in
  CircuitBreaker_init 3 (PyFloat float_0_7) = Return cb /\
  outcome (allow t cb) = Return true /\
  (value t + value float_0_7 < value t')%Q /\
  _tripped_until opened = PyFloat t' /\
  outcome (allow t' opened) = Return false.
Proof. cbv zeta. repeat split. Qed.

(** C2, amended.  From an empty streak, [failure_threshold] calls of
    [trip()] at time [t] store the float sum of [t] and the cooldown, as
    line 51 rounds it.  From then on, with no further call, [allow()] is
    false at every reading up to that stored sum and true at every reading
    above it, whatever the three lines of the notice raised.  A cooldown
    that is an int too large for a float makes line 51 raise instead, and
    nothing is stored: the circuit does not open. *)
Theorem opens_until_the_stored_sum
  (pf : Platform) (cb : CircuitBreaker) (t : spec_float) :
  0 < failure_threshold cb ->
  _consecutive_failures cb = 0 ->
  let opened := fail_times pf t (Z.to_nat (failure_threshold cb)) cb in
  (forall c, to_float (cooldown_seconds cb) = Return c ->
     _tripped_until opened = PyFloat (add t c) /\
     (forall t', SFleb t' (add t c) = true -> outcome (allow t' opened) = Return false) /\
     (forall t', SFltb (add t c) t' = true -> outcome (allow t' opened) = Return true)) /\
  (forall e, to_float (cooldown_seconds cb) = Raise e ->
     e = OverflowError /\
     _tripped_until opened = _tripped_until cb /\
     forall t', outcome (allow t' opened) = outcome (allow t' cb)).
Proof.
  intros Hthreshold Hstreak opened. split.
  - intros c Hc.
    assert (Huntil : _tripped_until opened = PyFloat (add t c)).
    { apply streak_reaching; [lia | lia | exact Hc]. }
    split; [exact Huntil|].
    split; intros t' Ht'; rewrite allow_compares, Huntil; cbn [gt].
    + rewrite (SFleb_not_gt _ _ Ht'). reflexivity.
    + rewrite Ht'. reflexivity.
  - intros e He.
    assert (Huntil : _tripped_until opened = _tripped_until cb)
      by (apply streak_without_float with (e := e), He).
    split; [exact (to_float_raises _ e He)|].
    split; [exact Huntil|]. intros t'. rewrite !allow_compares, Huntil. reflexivity.
Qed.

Lemma opens_until_the_stored_sum_witness :
  let cb := mkCircuitBreaker 3 (PyInt 5) (PyInt 0) 0 0 0 None in
  let opened := fail_times sample_platform float_1 3 cb in
  outcome (allow float_6 opened) = Return false /\
  outcome (allow float_10 opened) = Return true.
Proof.
  cbv zeta.
  destruct (opens_until_the_stored_sum sample_platform
              (mkCircuitBreaker 3 (PyInt 5) (PyInt 0) 0 0 0 None) float_1
              eq_refl eq_refl) as [Hopens _].
  destruct (Hopens float_5 eq_refl) as (_ & Hclosed & Hopen).
  split; [apply Hclosed | apply Hopen]; reflexivity.
Defined.

(** C3, as the spec states it, fails: threshold 3, cooldown 5.  Three
    failures at time 1 open the circuit until 6; at time 10 the cooldown has
    elapsed and [allow()] is true again; one single failure at time 10 makes
    the streak 4 and opens the circuit again, until 15. *)
Lemma single_trip_reopens_after_cooldown :
  let cb := mkCircuitBreaker 3 (PyInt 5) (PyInt 0) 0 0 0 None in
  let opened := fail_times sample_platform float_1 3 cb in
  let later := final (trip sample_platform float_10 float_10 opened) in
  outcome (allow float_1 cb) = Return true /\
  outcome (allow float_5 opened) = Return false /\
  outcome (allow float_10 opened) = Return true /\
  _consecutive_failures later = 4 /\
  outcome (allow float_10 later) = Return false /\
  outcome (allow float_15 later) = Return false.
Proof. cbv zeta. repeat split. Qed.

(** C3, amended.  After the breaker has opened and its cooldown has elapsed
    with no success in between, the streak is still [failure_threshold]: the
    next single [trip()], at time [u], makes it [failure_threshold + 1] and
    opens the circuit again at once, until the float sum of [u] and the
    cooldown, for every positive threshold.  Only a success starts a fresh
    streak. *)
Theorem failure_after_cooldown_reopens
  (pf : Platform) (cb : CircuitBreaker) (t u c : spec_float) :
  0 < failure_threshold cb ->
  _consecutive_failures cb = 0 ->
  to_float (cooldown_seconds cb) = Return c ->
  let opened := fail_times pf t (Z.to_nat (failure_threshold cb)) cb in
  outcome (allow u opened) = Return true ->
  let later := final (trip pf u u opened) in
  _consecutive_failures opened = failure_threshold cb /\
  _consecutive_failures later = failure_threshold cb + 1 /\
  _tripped_until later = PyFloat (add u c) /\
  (forall t', SFleb t' (add u c) = true -> outcome (allow t' later) = Return false) /\
  _consecutive_failures (final (record_success u u opened)) = 0.
Proof.
  intros Hthreshold Hstreak Hc opened Helapsed later.
  destruct (streak_counts pf t (Z.to_nat (failure_threshold cb)) cb)
    as (Hthr & Hcool & Hcount & _).
  fold opened in Hthr, Hcool, Hcount.
  assert (Hopened : _consecutive_failures opened = failure_threshold cb) by lia.
  assert (Huntil : _tripped_until later = PyFloat (add u c)).
  { unfold later. apply trip_at_threshold_stores; [lia | rewrite Hcool; exact Hc]. }
  repeat split.
  - exact Hopened.
  - unfold later.
    destruct (trip_counts pf u u opened) as (_ & _ & Hnext & _). lia.
  - exact Huntil.
  - intros t' Hle. rewrite allow_compares, Huntil. cbn [gt].
    rewrite (SFleb_not_gt _ _ Hle). reflexivity.
  - rewrite record_success_writes, reset_writes.
    destruct (gt _ _); reflexivity.
Qed.

Lemma failure_after_cooldown_reopens_witness :
  let opened :=
    fail_times sample_platform float_1 2
      (mkCircuitBreaker 2 (PyInt 5) (PyInt 0) 0 0 0 None) in
  outcome (allow float_10 opened) = Return true /\
  outcome (allow float_12 (final (trip sample_platform float_10 float_10 opened)))
    = Return false.
Proof.
  cbv zeta. split; [reflexivity|].
  destruct (failure_after_cooldown_reopens sample_platform
              (mkCircuitBreaker 2 (PyInt 5) (PyInt 0) 0 0 0 None)
              float_1 float_10 float_5 eq_refl eq_refl eq_refl eq_refl)
    as (_ & _ & _ & Hblocked & _).
  apply Hblocked. reflexivity.
Defined.

(** ** Rounding a quotient *)

Lemma Zdigits2_le (z k : Z) : 0 <= z < 2 ^ k -> 0 <= k -> Zdigits2 z <= k.
Proof.
  intros Hz Hk. destruct z as [|p|p]; [cbn; lia | | lia].
  pose proof (Zdigits2_pos_bounds p) as Hp.
  destruct (Z.le_gt_cases (Zdigits2 (Zpos p)) k) as [|Hgt]; [assumption|].
  assert (2 ^ k <= 2 ^ (Zdigits2 (Zpos p) - 1)) by (apply Z.pow_le_mono_r; lia).
  lia.
Qed.

Lemma Zdigits2_nonneg (z : Z) : 0 <= Zdigits2 z.
Proof. destruct z; cbn; lia. Qed.

Lemma Zdigits2_lt_pow (z : Z) : 0 <= z -> z < 2 ^ Zdigits2 z.
Proof.
  intros Hz. destruct z as [|p|p]; [cbn; lia | apply Zdigits2_pos_bounds | lia].
Qed.

(** What [shr_fexp] does to a significand that is not negative. *)
Lemma shr_fexp_spec (m e : Z) (l : location) :
  0 <= m ->
  exists mrs e',
    shr_fexp 53 1024 m e l = (mrs, e') /\
    e' = Z.max e (fexp 53 1024 (Zdigits2 m + e)) /\
    shr_m mrs = m / 2 ^ (e' - e).
Proof.
  intros Hm. unfold shr_fexp, shr.
  destruct (fexp 53 1024 (Zdigits2 m + e) - e) as [|k|k] eqn:Hk.
  - eexists _, _. split; [reflexivity|]. split; [lia|].
    rewrite shr_record_of_loc_m, Z.sub_diag, Z.div_1_r. reflexivity.
  - eexists _, _. split; [reflexivity|]. split; [lia|].
    rewrite iter_shr_1_m by (rewrite shr_record_of_loc_m; exact Hm).
    rewrite shr_record_of_loc_m. f_equal. f_equal. lia.
  - eexists _, _. split; [reflexivity|]. split; [lia|].
    rewrite shr_record_of_loc_m, Z.sub_diag, Z.div_1_r. reflexivity.
Qed.

(** A quotient known to be small is rounded to a float, not to an
    infinity: the exponent of the result is bounded by the size of the
    number rounded. *)
Lemma binary_round_aux_finite (s : bool) (q e D : Z) (l : location) :
  0 <= q -> Zdigits2 q + e <= D -> e <= 971 -> D <= 1023 ->
  match binary_round_aux 53 1024 s q e l with
  | S754_infinity _ | S754_nan => False
  | _ => True
  end.
Proof.
  intros Hq HD He HD'. unfold binary_round_aux.
  destruct (shr_fexp_spec q e l Hq) as (mrs1 & e1 & -> & He1 & Hm1).
  set (m1 := round_nearest_even (shr_m mrs1) (loc_of_shr_record mrs1)).
  assert (H2 : 0 < 2 ^ (e1 - e)) by (apply Z.pow_pos_nonneg; lia).
  assert (Hm1' : 0 <= shr_m mrs1) by (rewrite Hm1; apply Z.div_pos; lia).
  pose proof (round_nearest_even_bounds (shr_m mrs1) (loc_of_shr_record mrs1)) as Hr.
  fold m1 in Hr.
  assert (Hfexp : forall x, fexp 53 1024 x = Z.max (x - 53) (-1074)) by reflexivity.
  assert (He1' : e1 <= 971) by (rewrite He1, Hfexp; lia).
  (* the size of the rounded significand *)
  assert (Hsize : m1 <= 2 ^ Z.max 0 (D - e1)).
  { assert (shr_m mrs1 < 2 ^ Z.max 0 (D - e1)); [|lia].
    rewrite Hm1. apply Z.div_lt_upper_bound; [lia|].
    rewrite <- Z.pow_add_r by lia.
    pose proof (Zdigits2_lt_pow q Hq) as Hlt.
    pose proof (Zdigits2_nonneg q).
    assert (2 ^ Zdigits2 q <= 2 ^ (e1 - e + Z.max 0 (D - e1)))
      by (apply Z.pow_le_mono_r; lia).
    lia. }
  assert (Hdig : Zdigits2 m1 <= Z.max 0 (D - e1) + 1).
  { apply Zdigits2_le; [|lia]. rewrite Z.pow_add_r by lia.
    change (2 ^ 1) with 2.
    assert (0 < 2 ^ Z.max 0 (D - e1)) by (apply Z.pow_pos_nonneg; lia). lia. }
  destruct (shr_fexp_spec m1 e1 loc_Exact ltac:(lia)) as (mrs2 & e2 & -> & He2 & Hm2).
  assert (0 <= shr_m mrs2).
  { rewrite Hm2. apply Z.div_pos; [lia|]. apply Z.pow_pos_nonneg; lia. }
  assert (e2 <= 971) by (rewrite He2, Hfexp; lia).
  destruct (shr_m mrs2) as [|m|m]; [exact I | | lia].
  destruct (Z.leb_spec e2 (1024 - 53)); [exact I | lia].
Qed.



(** A quotient below [2^1022] has a float. *)
Lemma true_divide_returns (a : Z) (b : positive) :
  0 <= a <= 2 ^ 1022 * Zpos b ->
  exists x, true_divide a b = Return x.
Proof.
  intros Ha. unfold true_divide.
  destruct a as [|m|m]; [eexists; reflexivity | | lia].
  unfold SFdiv_core_binary.
  set (e' := Z.min _ (0 - 0)).
  set (m' := match 0 - 0 - e' with
             | 0 => Zpos m | Zpos _ => Z.shiftl (Zpos m) (0 - 0 - e') | Zneg _ => 0
             end).
  assert (He' : e' <= 0) by (subst e'; lia).
  assert (Hm' : m' = Zpos m * 2 ^ (- e')).
  { subst m'. replace (0 - 0 - e') with (- e') by lia.
    destruct (- e') as [|k|k] eqn:Hk; [cbn; lia | | lia].
    rewrite Z.shiftl_mul_pow2 by lia. reflexivity. }
  clearbody m' e'.
  pose proof (Z_div_mod m' (Zpos b) ltac:(lia)) as Hdiv.
  destruct (Z.div_eucl m' (Zpos b)) as [q r]. destruct Hdiv as [Hq Hr].
  assert (Hpow : 0 < 2 ^ (- e')) by (apply Z.pow_pos_nonneg; lia).
  assert (Hq0 : 0 <= q) by nia.
  assert (Hqle : q <= 2 ^ (1022 - e')).
  { replace (1022 - e') with (1022 + - e') by lia. rewrite Z.pow_add_r by lia.
    assert (Zpos b * q <= Zpos b * (2 ^ 1022 * 2 ^ (- e'))) by nia.
    apply Z.mul_le_mono_pos_l with (p := Zpos b); [lia | assumption]. }
  assert (Hdig : Zdigits2 q <= 1023 - e').
  { apply Zdigits2_le; [|lia]. replace (1023 - e') with (1022 - e' + 1) by lia.
    rewrite Z.pow_add_r by lia. change (2 ^ 1) with 2.
    assert (0 < 2 ^ (1022 - e')) by (apply Z.pow_pos_nonneg; lia). lia. }
  pose proof (binary_round_aux_finite false q e' 1023 (new_location (Zpos b) r)
                Hq0 ltac:(lia) ltac:(lia) ltac:(lia)) as Hfin.
  change Float64.prec with 53. change Float64.emax with 1024.
  destruct (binary_round_aux 53 1024 false q e' (new_location (Zpos b) r));
    try contradiction; eexists; reflexivity.
Qed.

Lemma percentage_returns (a b : Z) :
  0 <= a <= 2 ^ 1022 * Z.max 1 b ->
  exists q, true_divide a (Z.to_pos (py_max 1 b)) = Return q /\
    percentage a b = Return (mul q float_100).
Proof.
  intros Ha. unfold percentage.
  destruct (true_divide_returns a (Z.to_pos (py_max 1 b))) as (q & Hq).
  { rewrite Z2Pos.id by (rewrite py_max_spec; lia). rewrite py_max_spec. exact Ha. }
  exists q. rewrite Hq. split; reflexivity.
Qed.

(** ** Statistics *)

Lemma in_order_has_float (cb : CircuitBreaker) :
  in_order cb -> exists y, to_float (_tripped_until cb) = Return y.
Proof.
  intros (_ & _ & [-> | [x ->]]); eexists; reflexivity.
Qed.

Lemma in_order_has_rate (cb : CircuitBreaker) :
  in_order cb ->
  exists q,
    true_divide (_total_successes cb)
      (Z.to_pos (Z.max 1 (_total_successes cb + _total_failures cb))) = Return q /\
    percentage (_total_successes cb) (_total_successes cb + _total_failures cb)
      = Return (mul q float_100).
Proof.
  intros (Hs & Hf & _).
  destruct (percentage_returns (_total_successes cb)
              (_total_successes cb + _total_failures cb)) as (q & Hq & Hrate); [nia|].
  rewrite py_max_spec in Hq. exists q. split; assumption.
Qed.

(** [get_stats] never writes, whether it returns or raises. *)
Lemma get_stats_reads_only (now1 now2 : spec_float) (cb : CircuitBreaker) :
  final (get_stats now1 now2 cb) = cb.
Proof.
  destruct cb as [thr cd tu cf tf ts lft].
  cbv [get_stats allow bind ret get lift outcome final printed
       failure_threshold cooldown_seconds _tripped_until _consecutive_failures
       _total_failures _total_successes _last_failure_time].
  destruct (negb (gt now1 tu)); cbv [outcome final printed].
  - destruct (minus_float tu now2); cbv [outcome final printed]; [|reflexivity].
    destruct (percentage ts (ts + tf)); reflexivity.
  - destruct (percentage ts (ts + tf)); reflexivity.
Qed.

(** The dict [get_stats] returns, entry by entry. *)
Lemma get_stats_entries (now1 now2 y : spec_float) (rate : spec_float)
  (cb : CircuitBreaker) :
  to_float (_tripped_until cb) = Return y ->
  percentage (_total_successes cb) (_total_successes cb + _total_failures cb)
    = Return rate ->
  outcome (get_stats now1 now2 cb) =
    Return (Stats.mk
              (negb (gt now1 (_tripped_until cb)))
              (_consecutive_failures cb)
              (_total_failures cb)
              (_total_successes cb)
              (failure_threshold cb)
              (cooldown_seconds cb)
              (if negb (gt now1 (_tripped_until cb))
               then Some (_tripped_until cb) else None)
              (if negb (gt now1 (_tripped_until cb))
               then max_0 (sub y now2) else PyInt 0)
              rate).
Proof.
  destruct cb as [thr cd tu cf tf ts lft].
  cbv [get_stats allow bind ret get lift outcome final printed minus_float
       failure_threshold cooldown_seconds _tripped_until _consecutive_failures
       _total_failures _total_successes _last_failure_time].
  intros -> ->.
  destruct (negb (gt now1 tu)); reflexivity.
Qed.

(** The quotient and the product of line 87 on sample counters: one third
    and seven hundredths do not come out as the numbers they stand for. *)
Example percentage_samples :
  percentage 0 0 = Return (S754_zero false) /\
  percentage 1 1 = Return float_100 /\
  percentage 1 2 = Return float_50 /\
  percentage 1 3 = Return float_33_3 /\
  value float_33_3 = (4691249611844266 # 2 ^ 47)%Q /\
  percentage 7 100 = Return (S754_finite false 7881299347898369 (-50)) /\
  percentage (10 ^ 400) (- 10 ^ 400) = Raise OverflowError.
Proof. repeat split; vm_compute; reflexivity. Qed.

(** C5, as the spec states it, fails.  One success and two failures, the
    state a fresh breaker is in after [record_success(); trip(); trip()]:
    the rate reported is the float 33.33333333333333570180911920033395290374755859375,
    which is not 100/3. *)
Lemma success_rate_is_rounded :
  let cb0 := mkCircuitBreaker 3 (PyInt 5) (PyInt 0) 0 0 0 None in
  let cb :=
    state_after sample_platform
      [CallRecordSuccess float_1 float_1; CallTrip float_5 float_5;
       CallTrip float_6 float_6] cb0 in
  CircuitBreaker_init 3 (PyInt 5) = Return cb0 /\
  _total_successes cb = 1 /\ _total_failures cb = 2 /\
  exists stats,
    outcome (get_stats float_10 float_10 cb) = Return stats /\
    Stats.success_rate stats = float_33_3 /\
    ~ (value (Stats.success_rate stats) == 100 # 3)%Q.
Proof.
  cbv zeta. repeat split. eexists. split; [vm_compute; reflexivity|].
  split; [reflexivity|]. cbn [Stats.success_rate]. vm_compute. discriminate.
Qed.

(** C5, amended.  In every state with counters that are not negative,
    [get_stats()] returns, and reports as [success_rate] what line 87
    computes in binary64: the quotient of the two ints rounded to the
    nearest float, times 100, rounded again.  It is 0 when nothing has been
    recorded, 100 after one success and no failure, 50 after one success and
    one failure. *)
Theorem success_rate_in_binary64 (cb : CircuitBreaker) (now1 now2 : spec_float) :
  in_order cb ->
  exists (stats : Stats.t) (quotient : spec_float),
    outcome (get_stats now1 now2 cb) = Return stats /\
    true_divide (_total_successes cb)
      (Z.to_pos (Z.max 1 (_total_successes cb + _total_failures cb))) = Return quotient /\
    Stats.success_rate stats = mul quotient float_100 /\
    (_total_successes cb = 0 -> _total_failures cb = 0 ->
       Stats.success_rate stats = S754_zero false) /\
    (_total_successes cb = 1 -> _total_failures cb = 0 ->
       Stats.success_rate stats = float_100) /\
    (_total_successes cb = 1 -> _total_failures cb = 1 ->
       Stats.success_rate stats = float_50).
Proof.
  intros Horder.
  destruct (in_order_has_float cb Horder) as (y & Hy).
  destruct (in_order_has_rate cb Horder) as (q & Hq & Hrate).
  eexists _, q. split; [apply (get_stats_entries now1 now2 y _ cb Hy Hrate)|].
  split; [exact Hq|]. cbn [Stats.success_rate]. split; [reflexivity|].
  repeat split; intros Hs Hf; rewrite Hs, Hf in Hq; vm_compute in Hq;
    injection Hq as <-; reflexivity.
Qed.

Lemma success_rate_in_binary64_witness :
  exists stats : Stats.t,
    outcome (get_stats float_10 float_10
               (mkCircuitBreaker 3 (PyInt 5) (PyInt 0) 1 1 1 (Some float_6)))
      = Return stats /\
    Stats.success_rate stats = float_50.
Proof.
  destruct (success_rate_in_binary64
              (mkCircuitBreaker 3 (PyInt 5) (PyInt 0) 1 1 1 (Some float_6))
              float_10 float_10)
    as (stats & q & Hrun & _ & _ & _ & _ & Hhalf).
  - repeat split; cbn; try lia. left. reflexivity.
  - exists stats. split; [exact Hrun | apply Hhalf; reflexivity].
Defined.

(** ** The summary *)

(** C8, as the spec states it, fails.  One prime found in three attempts:
    the hit rate reported is the float
    33.33333333333333570180911920033395290374755859375, which is not
    100/3. *)
Lemma hit_rate_is_rounded :
  let h :=
    mkPrimeHunter (mkCircuitBreaker 3 (PyInt 5) (PyInt 0) 2 2 1 (Some float_6))
      5 1000000 [7] 3 in
  exists s,
    outcome (get_summary float_10 float_10 h) = Return s /\
    Summary.primes_found s = 1%nat /\ Summary.attempts s = 3 /\
    Summary.prime_hit_rate s = float_33_3 /\
    ~ (value (Summary.prime_hit_rate s) == 100 # 3)%Q.
Proof.
  cbv zeta. eexists. split; [vm_compute; reflexivity|].
  repeat split. cbn [Summary.prime_hit_rate]. vm_compute. discriminate.
Qed.

(** C8, amended.  For every hunter with a breaker in order and a list
    shorter than [2^63] (the longest a list can be), [get_summary()] returns
    the attempt count, the number of primes found, their maximum ([None]
    when there is none), the hit rate as line 179 computes it in binary64
    (the quotient of the two ints rounded to the nearest float, times 100,
    rounded again), the breaker's statistics entry by entry, and the last at
    most five primes found, sorted by value in descending order; the hunter,
    breaker included, is left as it was. *)
Theorem get_summary_reads (h : PrimeHunter) (now1 now2 : spec_float) :
  in_order (circuit_breaker h) ->
  Z.of_nat (length (primes_found h)) < 2 ^ 63 ->
  let cb := circuit_breaker h in
  let is_open := negb (gt now1 (_tripped_until cb)) in
  let run := get_summary now1 now2 h in
  exists (s : Summary.t) (quotient until success_quotient : spec_float),
    outcome run = Return s /\
    final run = h /\
    Summary.attempts s = attempts h /\
    Summary.primes_found s = length (primes_found h) /\
    match Summary.largest_prime s with
    | None => primes_found h = []
    | Some m => In m (primes_found h) /\ Forall (fun p => p <= m) (primes_found h)
    end /\
    true_divide (Z.of_nat (length (primes_found h))) (Z.to_pos (Z.max 1 (attempts h)))
      = Return quotient /\
    Summary.prime_hit_rate s = mul quotient float_100 /\
    outcome (get_stats now1 now2 cb) = Return (Summary.circuit_breaker s) /\
    to_float (_tripped_until cb) = Return until /\
    true_divide (_total_successes cb)
      (Z.to_pos (Z.max 1 (_total_successes cb + _total_failures cb)))
      = Return success_quotient /\
    Summary.circuit_breaker s =
      Stats.mk is_open
        (_consecutive_failures cb) (_total_failures cb) (_total_successes cb)
        (failure_threshold cb) (cooldown_seconds cb)
        (if is_open then Some (_tripped_until cb) else None)
        (if is_open then max_0 (sub until now2) else PyInt 0)
        (mul success_quotient float_100) /\
    (exists older recent,
       primes_found h = older ++ recent /\
       length recent = Nat.min 5 (length (primes_found h)) /\
       Permutation recent (Summary.recent_primes s)) /\
    StronglySorted (fun x y => y <= x) (Summary.recent_primes s).
Proof.
  intros Horder Hlen cb is_open run.
  destruct (in_order_has_float cb Horder) as (y & Hy).
  destruct (in_order_has_rate cb Horder) as (sq & Hsq & Hrate).
  destruct (percentage_returns (Z.of_nat (length (primes_found h))) (attempts h))
    as (q & Hq & Hhit); [lia|].
  rewrite py_max_spec in Hq.
  pose proof (get_stats_entries now1 now2 y _ cb Hy Hrate) as Hstats.
  pose proof (get_stats_reads_only now1 now2 cb) as Hkept.
  assert (Hrun : outcome run =
                   Return (Summary.mk (attempts h) (length (primes_found h))
                             (py_max_list (primes_found h)) (mul q float_100)
                             (Stats.mk is_open
                                (_consecutive_failures cb) (_total_failures cb)
                                (_total_successes cb) (failure_threshold cb)
                                (cooldown_seconds cb)
                                (if is_open then Some (_tripped_until cb) else None)
                                (if is_open then max_0 (sub y now2) else PyInt 0)
                                (mul sq float_100))
                             (sorted_reverse (py_last 5 (primes_found h))))
                 /\ final run = h).
  { subst run cb. destruct h as [cb lo hi found tries].
    cbn [circuit_breaker primes_found attempts] in *.
    unfold get_summary, bind, breaker, on_field.
    cbn [circuit_breaker]. rewrite Hstats, Hkept.
    cbv [outcome final printed get lift ret set_circuit_breaker
         circuit_breaker min_num max_num primes_found attempts].
    rewrite Hhit. split; reflexivity. }
  destruct Hrun as [Hout Hfinal].
  eexists _, q, y, sq. split; [exact Hout|].
  cbn [Summary.attempts Summary.primes_found Summary.largest_prime
       Summary.prime_hit_rate Summary.circuit_breaker Summary.recent_primes].
  repeat split; try assumption.
  - apply py_max_list_spec.
  - exists (firstn (length (primes_found h) - 5) (primes_found h)),
      (py_last 5 (primes_found h)).
    destruct (py_last_spec 5 (primes_found h)) as [Hsplit Hlast].
    repeat split; [exact Hsplit | exact Hlast | apply sorted_reverse_spec].
  - apply sorted_reverse_spec.
Qed.

Lemma get_summary_reads_witness :
  let h :=
    mkPrimeHunter (mkCircuitBreaker 3 (PyInt 5) (PyInt 0) 1 1 1 (Some float_6))
      5 1000000 [7] 2 in
  exists s,
    outcome (get_summary float_10 float_10 h) = Return s /\
    Summary.prime_hit_rate s = float_50 /\
    Summary.recent_primes s = [7].
Proof.
  cbv zeta.
  destruct (get_summary_reads
              (mkPrimeHunter (mkCircuitBreaker 3 (PyInt 5) (PyInt 0) 1 1 1 (Some float_6))
                 5 1000000 [7] 2) float_10 float_10)
    as (s & q & y & sq & Hrun & _ & _ & _ & _ & Hq & Hrate & _ & _ & _ & _ &
        (older & recent & Hsplit & Hlen & Hperm) & _).
  - repeat split; cbn; try lia. left. reflexivity.
  - cbn. lia.
  - exists s. split; [exact Hrun|]. split.
    + rewrite Hrate. vm_compute in Hq. injection Hq as <-. reflexivity.
    + cbn [primes_found length Nat.min] in Hsplit, Hlen.
      destruct older as [|a older].
      * cbn in Hsplit. subst recent.
        apply Permutation_length_1_inv. exact Hperm.
      * destruct older; destruct recent; cbn in Hsplit, Hlen; discriminate.
Defined.

(** ** More on the statistics *)

(** X1. On a breaker in order, [get_stats()] returns and changes nothing.
    Its dict says [is_open] exactly when [allow()] is false at its first
    clock reading.  When closed, [next_retry_time] is [None] and
    [seconds_until_retry] is the int 0.  When open, [next_retry_time] is
    [_tripped_until] and [seconds_until_retry] is [max(0, d)] for [d] the
    float difference of [_tripped_until] and the second reading: the int 0,
    or a float greater than 0, never a negative number and never a NaN. *)
Theorem get_stats_snapshot (cb : CircuitBreaker) (now1 now2 : spec_float) :
  in_order cb ->
  let run := get_stats now1 now2 cb in
  exists (stats : Stats.t) (until : spec_float),
    outcome run = Return stats /\
    final run = cb /\
    printed run = [] /\
    to_float (_tripped_until cb) = Return until /\
    outcome (allow now1 cb) = Return (negb (Stats.is_open stats)) /\
    Stats.consecutive_failures stats = _consecutive_failures cb /\
    Stats.total_failures stats = _total_failures cb /\
    Stats.total_successes stats = _total_successes cb /\
    Stats.failure_threshold stats = failure_threshold cb /\
    Stats.cooldown_seconds stats = cooldown_seconds cb /\
    (Stats.is_open stats = false ->
       Stats.next_retry_time stats = None /\
       Stats.seconds_until_retry stats = PyInt 0) /\
    (Stats.is_open stats = true ->
       Stats.next_retry_time stats = Some (_tripped_until cb) /\
       Stats.seconds_until_retry stats = max_0 (sub until now2)) /\
    (Stats.seconds_until_retry stats = PyInt 0 \/
     exists x, Stats.seconds_until_retry stats = PyFloat x /\ gt_int x 0 = true).
Proof.
  intros Horder run.
  destruct (in_order_has_float cb Horder) as (y & Hy).
  destruct (in_order_has_rate cb Horder) as (sq & _ & Hrate).
  pose proof (get_stats_entries now1 now2 y _ cb Hy Hrate) as Hstats.
  eexists _, y. split; [exact Hstats|].
  split; [apply get_stats_reads_only|].
  split.
  { subst run. destruct cb as [thr cd tu cf tf ts lft].
    cbn [_tripped_until _total_successes _total_failures] in Hy, Hrate.
    cbv [get_stats allow bind ret get lift outcome final printed minus_float
         failure_threshold cooldown_seconds _tripped_until _consecutive_failures
         _total_failures _total_successes _last_failure_time].
    rewrite Hy, Hrate. destruct (negb (gt now1 tu)); reflexivity. }
  split; [exact Hy|].
  cbn [Stats.is_open Stats.consecutive_failures Stats.total_failures
       Stats.total_successes Stats.failure_threshold Stats.cooldown_seconds
       Stats.next_retry_time Stats.seconds_until_retry].
  rewrite allow_compares, negb_involutive.
  repeat split.
  - destruct (gt now1 _); [reflexivity | discriminate].
  - destruct (gt now1 _); [reflexivity | discriminate].
  - destruct (gt now1 _); [discriminate | reflexivity].
  - destruct (gt now1 _); [discriminate | reflexivity].
  - destruct (negb (gt now1 _)); [|left; reflexivity].
    unfold max_0. destruct (gt_int (sub y now2) 0) eqn:Hpos; [right | left; reflexivity].
    eexists. split; [reflexivity | exact Hpos].
Qed.

Lemma get_stats_snapshot_witness :
  exists stats : Stats.t,
    outcome (get_stats float_10 float_12
               (mkCircuitBreaker 3 (PyInt 5) (PyFloat float_15) 3 3 0 (Some float_10)))
      = Return stats /\
    Stats.is_open stats = true /\
    Stats.seconds_until_retry stats = PyFloat (S754_finite false 6755399441055744 (-51)).
Proof.
  destruct (get_stats_snapshot
              (mkCircuitBreaker 3 (PyInt 5) (PyFloat float_15) 3 3 0 (Some float_10))
              float_10 float_12)
    as (stats & y & Hrun & _ & _ & Hy & Hallow & _ & _ & _ & _ & _ & _ & Hopen & _).
  - repeat split; cbn; try lia. right. eexists. reflexivity.
  - exists stats. split; [exact Hrun|].
    assert (Hflag : Stats.is_open stats = true).
    { destruct (Stats.is_open stats); [reflexivity|].
      vm_compute in Hallow. discriminate. }
    split; [exact Hflag|].
    destruct (Hopen Hflag) as [_ ->].
    cbn in Hy. injection Hy as <-. reflexivity.
Defined.

(** ** One hunt, branch by branch *)

Lemma same_result_then {S A} (r1 r2 r3 : Run S A) :
  same_result r1 r2 -> same_result r2 r3 -> same_result r1 r3.
Proof. intros [? ?] [? ?]. split; congruence. Qed.

Lemma bind_return {S A B} (m : Method S A) (k : A -> Method S B) (self self' : S) (a : A) :
  outcome (m self) = Return a -> final (m self) = self' ->
  same_result (bind m k self) (k a self').
Proof. intros Hout <-. unfold bind. rewrite Hout. split; reflexivity. Qed.

Lemma bind_raise {S A B} (m : Method S A) (k : A -> Method S B) (self self' : S) (e : Exn) :
  outcome (m self) = Raise e -> final (m self) = self' ->
  same_result (bind m k self) (mkRun (Raise e) self' []).
Proof. intros Hout <-. unfold bind. rewrite Hout. split; reflexivity. Qed.

(** One step of a method, run on a state that is known. *)
Ltac run_step :=
  cbv [assign bind ret get put print lift breaker on_field allow
       set_circuit_breaker set_primes_found set_attempts
       circuit_breaker min_num max_num primes_found attempts];
  cbn [outcome final printed].

Ltac step v :=
  eapply same_result_then;
  [ eapply bind_return with (a := v); run_step; try reflexivity | cbv beta ].

Ltac stop e :=
  eapply same_result_then;
  [ eapply bind_raise with (e := e); run_step; try reflexivity | ].

Lemma allow_answers (now : spec_float) (cb : CircuitBreaker) :
  outcome (allow now cb) = Return true \/ outcome (allow now cb) = Return false.
Proof. rewrite allow_compares. destruct (gt _ _); [left | right]; reflexivity. Qed.

(** An allowed hunt: the attempt is counted first; then the draw, the line
    of line 158, the test and the report to the breaker, each of which may
    end the call. *)
Lemma allowed_hunt_runs
  (pf : Platform) (h : PrimeHunter) (now0 now1 now2 : spec_float) (r : Z) :
  outcome (allow now0 (circuit_breaker h)) = Return true ->
  let counted := set_attempts (attempts h + 1) h in
  same_result (hunt_prime pf now0 now1 now2 r h)
    match generate_random_number r (min_num h) (max_num h) with
    | Raise e => mkRun (Raise e) counted []
    | Return number =>
        match format_attempt pf (attempts h + 1) number with
        | Raise e => mkRun (Raise e) counted []
        | Return _ =>
            match is_prime number with
            | Raise e => mkRun (Raise e) counted []
            | Return true =>
                mkRun (Return true)
                  (set_circuit_breaker
                     (final (record_success now1 now2 (circuit_breaker h)))
                     (set_primes_found (primes_found h ++ [number]) counted)) []
            | Return false =>
                mkRun
                  match outcome (trip pf now1 now2 (circuit_breaker h)) with
                  | Return _ => Return false
                  | Raise e => Raise e
                  end
                  (set_circuit_breaker (final (trip pf now1 now2 (circuit_breaker h)))
                     counted) []
            end
        end
    end.
Proof.
  rewrite allow_compares. intros [= Hallowed].
  destruct h as [cb lo hi found tries]. cbn [circuit_breaker] in Hallowed.
  cbv zeta. cbn [min_num max_num circuit_breaker attempts primes_found].
  unfold hunt_prime.
  step true. { rewrite Hallowed. reflexivity. }
  cbn [negb].
  step tt. step (mkPrimeHunter cb lo hi found (tries + 1)).
  cbn [min_num max_num attempts].
  destruct (generate_random_number r lo hi) as [number|e] eqn:Hdraw.
  2:{ stop e. split; reflexivity. }
  step number.
  destruct (format_attempt pf (tries + 1) number) as [[]|e] eqn:Hline.
  2:{ stop e. split; reflexivity. }
  step tt.
  destruct (is_prime number) as [[|]|e] eqn:Hprime.
  - step true. step tt.
    step tt. { rewrite record_success_returns. reflexivity. }
    eapply same_result_then; [eapply bind_return; run_step; reflexivity|].
    cbv beta. step tt. split; reflexivity.
  - step false.
    destruct (outcome (trip pf now1 now2 cb)) as [[]|e] eqn:Htrip.
    + step tt. { rewrite Htrip. reflexivity. }
      step tt. split; reflexivity.
    + stop e. { rewrite Htrip. reflexivity. }
      split; reflexivity.
  - stop e. split; reflexivity.
Qed.

(** A blocked hunt on a breaker in order returns false and changes
    nothing. *)
Lemma blocked_hunt_runs
  (pf : Platform) (h : PrimeHunter) (now0 now1 now2 : spec_float) (r : Z) :
  in_order (circuit_breaker h) ->
  outcome (allow now0 (circuit_breaker h)) = Return false ->
  same_result (hunt_prime pf now0 now1 now2 r h) (mkRun (Return false) h []).
Proof.
  intros Horder. rewrite allow_compares. intros [= Hblocked].
  destruct (in_order_has_float _ Horder) as (y & Hy).
  destruct (in_order_has_rate _ Horder) as (sq & _ & Hrate).
  pose proof (get_stats_entries now1 now2 y _ _ Hy Hrate) as Hstats.
  pose proof (get_stats_reads_only now1 now2 (circuit_breaker h)) as Hkept.
  destruct h as [cb lo hi found tries]. cbn [circuit_breaker] in *.
  unfold hunt_prime.
  step false. { rewrite Hblocked. reflexivity. }
  cbn [negb].
  eapply same_result_then.
  { eapply bind_return; unfold breaker, on_field; cbn [outcome final circuit_breaker];
      [exact Hstats | rewrite Hkept; reflexivity]. }
  cbv beta. step tt. split; reflexivity.
Qed.

(** X11. A hunt that the breaker allows, over a range that is not empty and
    stays below [2^53], on a platform where the line of line 158 can be
    built: the number drawn lies in the range and the attempt is counted.
    On a prime the call returns true, appends the prime to the list and
    records a success.  On any other number it leaves the list alone and
    trips the breaker; it returns false if [trip] returns and raises what
    [trip] raises, the breaker being left as [trip] left it. *)
Theorem allowed_hunt_tests_the_draw
  (pf : Platform) (h : PrimeHunter) (now0 now1 now2 : spec_float) (r : Z) :
  min_num h <= max_num h -> max_num h < 2 ^ 53 ->
  outcome (allow now0 (circuit_breaker h)) = Return true ->
  format_attempt pf (attempts h + 1) (drawn r h) = Return tt ->
  let run := hunt_prime pf now0 now1 now2 r h in
  let tripped := trip pf now1 now2 (circuit_breaker h) in
  min_num h <= drawn r h <= max_num h /\
  attempts (final run) = attempts h + 1 /\
  min_num (final run) = min_num h /\ max_num (final run) = max_num h /\
  (Z.prime (drawn r h) ->
     outcome run = Return true /\
     primes_found (final run) = primes_found h ++ [drawn r h] /\
     circuit_breaker (final run) = final (record_success now1 now2 (circuit_breaker h))) /\
  (~ Z.prime (drawn r h) ->
     primes_found (final run) = primes_found h /\
     circuit_breaker (final run) = final tripped /\
     (outcome tripped = Return tt -> outcome run = Return false) /\
     (forall e, outcome tripped = Raise e -> outcome run = Raise e)).
Proof.
  intros Hrange Hbound Hallowed Hline run tripped.
  pose proof (allowed_hunt_runs pf h now0 now1 now2 r Hallowed) as Hrun.
  cbv zeta in Hrun. fold run in Hrun.
  destruct (generate_random_number_spec r (min_num h) (max_num h)) as [Hdraw _].
  destruct (Hdraw Hrange) as [Hnumber Hin]. rewrite Hnumber in Hrun.
  fold (drawn r h) in Hrun, Hin. rewrite Hline in Hrun.
  destruct (is_prime_correct_below_2_53 (drawn r h) ltac:(lia)) as (b & Htest & Hb).
  rewrite Htest in Hrun.
  split; [exact Hin|].
  destruct Hrun as [Hout Hfinal].
  assert (Hcases : (b = true /\ Z.prime (drawn r h)) \/ (b = false /\ ~ Z.prime (drawn r h))).
  { destruct b; [left | right]; split; try reflexivity.
    - apply Hb. reflexivity.
    - intros Hprime. apply Hb in Hprime. discriminate. }
  fold tripped in Hout, Hfinal. cbn [outcome final] in Hout, Hfinal.
  assert (Hcounted : attempts (final run) = attempts h + 1 /\
                     min_num (final run) = min_num h /\
                     max_num (final run) = max_num h).
  { rewrite Hfinal. destruct b, h; repeat split. }
  destruct Hcounted as (Hattempts & Hlo & Hhi).
  repeat split; try assumption.
  - destruct Hcases as [[-> _] | [_ ?]]; [exact Hout | tauto].
  - destruct Hcases as [[-> _] | [_ ?]]; [|tauto].
    rewrite Hfinal. destruct h; reflexivity.
  - destruct Hcases as [[-> _] | [_ ?]]; [|tauto].
    rewrite Hfinal. destruct h; reflexivity.
  - destruct Hcases as [[_ ?] | [-> _]]; [tauto|].
    rewrite Hfinal. destruct h; reflexivity.
  - destruct Hcases as [[_ ?] | [-> _]]; [tauto|].
    rewrite Hfinal. destruct h; reflexivity.
  - intros Htrip. destruct Hcases as [[_ ?] | [-> _]]; [tauto|].
    rewrite Hout, Htrip. reflexivity.
  - intros e Htrip. destruct Hcases as [[_ ?] | [-> _]]; [tauto|].
    rewrite Hout, Htrip. reflexivity.
Qed.

Lemma allowed_hunt_tests_the_draw_witness :
  let h :=
    mkPrimeHunter (mkCircuitBreaker 3 (PyInt 5) (PyInt 0) 2 2 0 (Some float_1))
      5 1000000 [7] 3 in
  drawn 6 h = 11 /\
  outcome (hunt_prime sample_platform float_5 float_5 float_5 6 h) = Return true /\
  primes_found (final (hunt_prime sample_platform float_5 float_5 float_5 6 h)) = [7; 11].
Proof.
  cbv zeta. split; [reflexivity|].
  destruct (allowed_hunt_tests_the_draw sample_platform
              (mkPrimeHunter (mkCircuitBreaker 3 (PyInt 5) (PyInt 0) 2 2 0 (Some float_1))
                 5 1000000 [7] 3)
              float_5 float_5 float_5 6) as (_ & _ & _ & _ & Hprime & _).
  - cbn. discriminate.
  - reflexivity.
  - reflexivity.
  - vm_compute. reflexivity.
  - assert (H11 : Z.prime 11).
    { destruct (is_prime_correct_below_2_53 11 eq_refl) as (b & Htest & Hb).
      apply Hb. vm_compute in Htest. congruence. }
    destruct (Hprime H11) as (Hout & Hfound & _). split; assumption.
Defined.

(** X12. On a breaker in order, [hunt_prime] raises only in a hunt the
    breaker allows; by then the attempt has been counted and the list of
    primes is as it was.  Either the draw, the line of line 158 or the
    primality test raised, and the breaker is untouched; or the number was
    found not prime and [trip] raised, and the breaker is as [trip] left
    it, the failure counted. *)
Theorem raising_hunt_counts_the_attempt
  (pf : Platform) (h : PrimeHunter) (now0 now1 now2 : spec_float) (r : Z) (e : Exn) :
  in_order (circuit_breaker h) ->
  let run := hunt_prime pf now0 now1 now2 r h in
  let tripped := trip pf now1 now2 (circuit_breaker h) in
  outcome run = Raise e ->
  outcome (allow now0 (circuit_breaker h)) = Return true /\
  attempts (final run) = attempts h + 1 /\
  primes_found (final run) = primes_found h /\
  min_num (final run) = min_num h /\ max_num (final run) = max_num h /\
  ((circuit_breaker (final run) = circuit_breaker h /\
    ((max_num h < min_num h /\ e = ValueError) \/
     (min_num h <= max_num h /\
      (format_attempt pf (attempts h + 1) (drawn r h) = Raise e \/
       is_prime (drawn r h) = Raise e)))) \/
   (min_num h <= max_num h /\
    is_prime (drawn r h) = Return false /\
    outcome tripped = Raise e /\
    circuit_breaker (final run) = final tripped /\
    _total_failures (circuit_breaker (final run))
      = _total_failures (circuit_breaker h) + 1)).
Proof.
  intros Horder run tripped Hraise.
  destruct (allow_answers now0 (circuit_breaker h)) as [Hallowed | Hblocked].
  2:{ destruct (blocked_hunt_runs pf h now0 now1 now2 r Horder Hblocked) as [Hout _].
      fold run in Hout. rewrite Hraise in Hout. discriminate. }
  split; [exact Hallowed|].
  pose proof (allowed_hunt_runs pf h now0 now1 now2 r Hallowed) as Hrun.
  cbv zeta in Hrun. fold run tripped in Hrun.
  destruct (generate_random_number_spec r (min_num h) (max_num h)) as [Hdraw Hempty].
  destruct (trip_counts pf now1 now2 (circuit_breaker h)) as (_ & _ & _ & Hcounted & _).
  fold tripped in Hcounted.
  destruct (Z.le_gt_cases (min_num h) (max_num h)) as [Hrange | Hinverted].
  - destruct (Hdraw Hrange) as [Hnumber _]. rewrite Hnumber in Hrun.
    fold (drawn r h) in Hrun.
    destruct (format_attempt pf (attempts h + 1) (drawn r h)) as [[]|e1] eqn:Hline.
    + destruct (is_prime (drawn r h)) as [[|]|e2] eqn:Htest;
        destruct Hrun as [Hout Hfinal]; rewrite Hraise in Hout;
        cbn [outcome final] in Hout, Hfinal; try discriminate.
      * destruct (outcome tripped) as [[]|e3] eqn:Htrip; [discriminate|].
        injection Hout as ->. rewrite Hfinal.
        destruct h as [cb lo hi found tries]. cbn in *.
        repeat split. right. repeat split; assumption.
      * injection Hout as ->. rewrite Hfinal.
        destruct h as [cb lo hi found tries]. cbn in *.
        repeat split. left. split; [reflexivity|]. right. split; [exact Hrange|].
        right. reflexivity.
    + destruct Hrun as [Hout Hfinal]. rewrite Hraise in Hout.
      cbn [outcome final] in Hout, Hfinal. injection Hout as ->. rewrite Hfinal.
      destruct h as [cb lo hi found tries]. cbn in *.
      repeat split. left. split; [reflexivity|]. right. split; [exact Hrange|].
      left. reflexivity.
  - rewrite (Hempty ltac:(lia)) in Hrun. destruct Hrun as [Hout Hfinal].
    rewrite Hraise in Hout. cbn [outcome final] in Hout, Hfinal.
    injection Hout as ->. rewrite Hfinal.
    destruct h as [cb lo hi found tries]. cbn in *.
    repeat split. left. split; [reflexivity|]. left. split; [lia | reflexivity].
Qed.

Lemma raising_hunt_counts_the_attempt_witness :
  let h :=
    mkPrimeHunter (mkCircuitBreaker 1 (PyInt (10 ^ 12)) (PyInt 0) 0 0 0 None) 8 8 [] 0 in
  let run :=
    hunt_prime sample_platform float_1700000000 float_1700000000 float_1700000000 0 h in
  outcome run = Raise ValueError /\
  attempts (final run) = 1 /\
  _total_failures (circuit_breaker (final run)) = 1.
Proof.
  cbv zeta.
  destruct (raising_hunt_counts_the_attempt sample_platform
              (mkPrimeHunter (mkCircuitBreaker 1 (PyInt (10 ^ 12)) (PyInt 0) 0 0 0 None)
                 8 8 [] 0)
              float_1700000000 float_1700000000 float_1700000000 0 ValueError)
    as (_ & Hattempts & _ & _ & _ & [[Hsame _] | (_ & _ & _ & _ & Hfailures)]).
  - repeat split; cbn; try lia. left. reflexivity.
  - vm_compute. reflexivity.
  - vm_compute in Hsame. discriminate.
  - split; [vm_compute; reflexivity|]. split; assumption.
Defined.

(** ** Breakers in order *)

Lemma trip_keeps_order (pf : Platform) (now1 now2 : spec_float) (cb : CircuitBreaker) :
  in_order cb -> in_order (final (trip pf now1 now2 cb)).
Proof.
  intros (Hs & Hf & Huntil). rewrite trip_stores. unfold in_order.
  destruct (_ >=? _); [destruct (to_float _)|]; cbn; repeat split; try lia;
    try exact Huntil.
  right. eexists. reflexivity.
Qed.

Lemma record_success_keeps_order (now1 now2 : spec_float) (cb : CircuitBreaker) :
  in_order cb -> in_order (final (record_success now1 now2 cb)).
Proof.
  intros (Hs & Hf & Huntil). rewrite record_success_writes, reset_writes.
  unfold in_order.
  destruct (gt _ _); cbn; repeat split; try lia; try exact Huntil.
  left. reflexivity.
Qed.

Lemma streak_keeps_order (pf : Platform) (t : spec_float) (n : nat) (cb : CircuitBreaker) :
  in_order cb -> in_order (fail_times pf t n cb).
Proof.
  revert cb. induction n as [|n IH]; intros cb Horder; [exact Horder|].
  cbn [fail_times]. apply IH, trip_keeps_order, Horder.
Qed.

Lemma perform_keeps_order (pf : Platform) (c : Call) (cb : CircuitBreaker) :
  in_order cb -> in_order (final (perform pf c cb)).
Proof.
  intros Horder. destruct c as [now | now1 now2 | now | now1 now2 | now1 now2];
    cbn [perform].
  - exact Horder.
  - apply trip_keeps_order, Horder.
  - rewrite reset_writes. destruct Horder as (Hs & Hf & _).
    repeat split; cbn; try lia. left. reflexivity.
  - apply record_success_keeps_order, Horder.
  - unfold bind. pose proof (get_stats_reads_only now1 now2 cb) as Hkept.
    destruct (outcome (get_stats now1 now2 cb)); cbn [final ret]; rewrite Hkept;
      exact Horder.
Qed.

(** ** Sessions *)

Lemma session_goes_on
  (pf : Platform) (x : Hunt) (rest : list Hunt) (h : PrimeHunter) (b : bool) :
  outcome (hunt pf x h) = Return b ->
  same_result (hunt_all pf (x :: rest) h) (hunt_all pf rest (final (hunt pf x h))).
Proof.
  intros Hout.
  exact (bind_return (hunt pf x) (fun _ => hunt_all pf rest) h _ b Hout eq_refl).
Qed.

Lemma session_ends
  (pf : Platform) (x : Hunt) (rest : list Hunt) (h : PrimeHunter) (e : Exn) :
  outcome (hunt pf x h) = Raise e ->
  same_result (hunt_all pf (x :: rest) h) (mkRun (Raise e) (final (hunt pf x h)) []).
Proof.
  intros Hout.
  exact (bind_raise (hunt pf x) (fun _ => hunt_all pf rest) h _ e Hout eq_refl).
Qed.

Lemma session_in_two (pf : Platform) (before after : list Hunt) (h : PrimeHunter) :
  outcome (hunt_all pf before h) = Return tt ->
  same_result (hunt_all pf (before ++ after) h)
    (hunt_all pf after (final (hunt_all pf before h))).
Proof.
  revert h. induction before as [|x rest IH]; intros h Hout.
  - split; reflexivity.
  - cbn [app].
    destruct (outcome (hunt pf x h)) as [b|e] eqn:Hx.
    + destruct (session_goes_on pf x rest h b Hx) as [Hout1 Hfinal1].
      destruct (session_goes_on pf x (rest ++ after) h b Hx) as [Hout2 Hfinal2].
      rewrite Hout1 in Hout. destruct (IH _ Hout) as [Hout3 Hfinal3].
      split; [rewrite Hout2, Hout3, Hfinal1 | rewrite Hfinal2, Hfinal3, Hfinal1];
        reflexivity.
    + destruct (session_ends pf x rest h e Hx) as [Hout1 _].
      rewrite Hout1 in Hout. discriminate.
Qed.

(** One hunt keeps the books, or raises before it has written anything
    but the attempt. *)
Lemma hunt_keeps_the_books (pf : Platform) (lo hi : Z) (x : Hunt) (h : PrimeHunter) :
  books_kept lo hi h ->
  books_kept lo hi (final (hunt pf x h)) \/
  (exists e, outcome (hunt pf x h) = Raise e /\
             final (hunt pf x h) = set_attempts (attempts h + 1) h).
Proof.
  intros (Hlo & Hhi & Hfound & Hattempts & Horder & Hall).
  unfold hunt.
  set (now0 := hunt_now0 x). set (now1 := hunt_now1 x). set (now2 := hunt_now2 x).
  set (r := hunt_entropy x).
  destruct (allow_answers now0 (circuit_breaker h)) as [Hallowed | Hblocked].
  2:{ destruct (blocked_hunt_runs pf h now0 now1 now2 r Horder Hblocked) as [_ Hfinal].
      left. rewrite Hfinal. cbn [final]. repeat split; try assumption; apply Horder. }
  pose proof (allowed_hunt_runs pf h now0 now1 now2 r Hallowed) as Hrun.
  cbv zeta in Hrun.
  destruct (generate_random_number_spec r (min_num h) (max_num h)) as [Hdraw Hempty].
  destruct (Z.le_gt_cases (min_num h) (max_num h)) as [Hrange | Hinverted].
  2:{ rewrite (Hempty ltac:(lia)) in Hrun. right. eexists. exact Hrun. }
  destruct (Hdraw Hrange) as [Hnumber Hin]. rewrite Hnumber in Hrun.
  destruct (format_attempt pf _ _) as [[]|e1]; [|right; eexists; exact Hrun].
  destruct (is_prime _) as [[|]|e2] eqn:Htest; [| |right; eexists; exact Hrun];
    destruct Hrun as [_ Hfinal]; cbn [final] in Hfinal; left; rewrite Hfinal.
  - pose proof (record_success_keeps_order now1 now2 _ Horder) as Horder'.
    assert (Hs : _total_successes (final (record_success now1 now2 (circuit_breaker h)))
                 = _total_successes (circuit_breaker h) + 1)
      by (rewrite record_success_writes, reset_writes; destruct (gt _ _); reflexivity).
    assert (Hf : _total_failures (final (record_success now1 now2 (circuit_breaker h)))
                 = _total_failures (circuit_breaker h))
      by (rewrite record_success_writes, reset_writes; destruct (gt _ _); reflexivity).
    destruct h as [cb l u found tries].
    cbv [books_kept set_circuit_breaker set_primes_found set_attempts
         circuit_breaker min_num max_num primes_found attempts] in *.
    repeat split; try assumption.
    + rewrite length_app, Nat2Z.inj_add, Hs. cbn [length]. lia.
    + rewrite Hs, Hf. lia.
    + apply Horder'.
    + apply Horder'.
    + apply Horder'.
    + apply Forall_app. split; [exact Hall|].
      constructor; [|constructor]. split; [lia | exact Htest].
  - pose proof (trip_keeps_order pf now1 now2 _ Horder) as Horder'.
    destruct (trip_counts pf now1 now2 (circuit_breaker h))
      as (_ & _ & _ & Hf & Hs & _).
    destruct h as [cb l u found tries].
    cbv [books_kept set_circuit_breaker set_primes_found set_attempts
         circuit_breaker min_num max_num primes_found attempts] in *.
    repeat split; try assumption; try apply Horder'.
    + rewrite Hs. exact Hfound.
    + rewrite Hs, Hf. lia.
Qed.

Lemma session_keeps_the_books
  (pf : Platform) (lo hi : Z) (hs : list Hunt) (h0 : PrimeHunter) :
  books_kept lo hi h0 ->
  books_kept lo hi (final (hunt_all pf hs h0)) \/
  (exists e h,
     outcome (hunt_all pf hs h0) = Raise e /\ books_kept lo hi h /\
     final (hunt_all pf hs h0) = set_attempts (attempts h + 1) h).
Proof.
  revert h0. induction hs as [|x rest IH]; intros h0 Hbooks.
  - left. exact Hbooks.
  - destruct (outcome (hunt pf x h0)) as [b|e] eqn:Hx.
    + destruct (session_goes_on pf x rest h0 b Hx) as [-> ->].
      destruct (hunt_keeps_the_books pf lo hi x h0 Hbooks) as [Hnext | (e & He & _)];
        [apply IH, Hnext | congruence].
    + destruct (session_ends pf x rest h0 e Hx) as [-> ->]. cbn [outcome final].
      destruct (hunt_keeps_the_books pf lo hi x h0 Hbooks) as [Hnext | (e' & He & Hfinal)].
      * left. exact Hnext.
      * right. exists e, h0.
        split; [reflexivity | split; [exact Hbooks | exact Hfinal]].
Qed.

(** X14. The books of a session.  From construction on, through any calls of
    [hunt_prime]: the range is never changed; there are as many primes in
    the list as successes in the breaker; every prime in the list was drawn
    from the range, and is a prime when the range ends below [2^53]; the
    breaker stays in order; and the attempts are the successes plus the
    failures when the session returns.  When it ended in an exception they
    are that or one more: one more when the hunt raised before it reached
    the breaker, the same when [trip] raised with the failure counted. *)
Theorem session_books
  (pf : Platform) (threshold : Z) (cooldown : Number) (lo hi : Z)
  (h0 : PrimeHunter) (hs : list Hunt) :
  PrimeHunter_init threshold cooldown lo hi = Return h0 ->
  let run := hunt_all pf hs h0 in
  let h := final run in
  let cb := circuit_breaker h in
  min_num h = lo /\ max_num h = hi /\
  Z.of_nat (length (primes_found h)) = _total_successes cb /\
  Forall (fun p => lo <= p <= hi) (primes_found h) /\
  (hi < 2 ^ 53 -> Forall Z.prime (primes_found h)) /\
  in_order cb /\
  (outcome run = Return tt ->
     attempts h = _total_successes cb + _total_failures cb) /\
  (forall e, outcome run = Raise e ->
     attempts h = _total_successes cb + _total_failures cb \/
     attempts h = _total_successes cb + _total_failures cb + 1).
Proof.
  intros [= <-]. cbv zeta.
  assert (Hfresh : books_kept lo hi
            (mkPrimeHunter (mkCircuitBreaker threshold cooldown (PyInt 0) 0 0 0 None)
               lo hi [] 0)).
  { repeat split; try reflexivity; try (cbn; lia). left. reflexivity. constructor. }
  destruct (session_keeps_the_books pf lo hi hs _ Hfresh)
    as [Hbooks | (e & h & Hout & Hbooks & Hfinal)].
  - destruct Hbooks as (Hlo & Hhi & Hfound & Hattempts & Horder & Hall).
    repeat split; try assumption; try apply Horder.
    + apply Forall_impl with (2 := Hall). tauto.
    + intros Hbound. apply (tested_primes_are_prime lo hi); assumption.
    + intros _. exact Hattempts.
    + intros e _. left. exact Hattempts.
  - rewrite Hfinal. destruct Hbooks as (Hlo & Hhi & Hfound & Hattempts & Horder & Hall).
    destruct h as [cb l u found tries].
    cbv [set_attempts circuit_breaker min_num max_num primes_found attempts] in *.
    repeat split; try assumption; try apply Horder.
    + apply Forall_impl with (2 := Hall). tauto.
    + intros Hbound. apply (tested_primes_are_prime lo hi); assumption.
    + intros He. rewrite Hout in He. discriminate.
    + intros _ _. right. lia.
Qed.

Lemma session_books_witness :
  let h0 := mkPrimeHunter (mkCircuitBreaker 3 (PyInt 5) (PyInt 0) 0 0 0 None) 5 20 [] 0 in
  let hs := [mkHunt float_1 float_1 float_1 0; mkHunt float_5 float_5 float_5 3;
             mkHunt float_6 float_6 float_6 6; mkHunt float_10 float_10 float_10 1] in
  primes_found (final (hunt_all sample_platform hs h0)) = [5; 11] /\
  attempts (final (hunt_all sample_platform hs h0)) = 4 /\
  Forall Z.prime (primes_found (final (hunt_all sample_platform hs h0))).
Proof.
  cbv zeta.
  destruct (session_books sample_platform 3 (PyInt 5) 5 20
              (mkPrimeHunter (mkCircuitBreaker 3 (PyInt 5) (PyInt 0) 0 0 0 None) 5 20 [] 0)
              [mkHunt float_1 float_1 float_1 0; mkHunt float_5 float_5 float_5 3;
               mkHunt float_6 float_6 float_6 6; mkHunt float_10 float_10 float_10 1]
              eq_refl)
    as (_ & _ & _ & _ & Hprimes & _ & Hattempts & _).
  split; [vm_compute; reflexivity|].
  split; [rewrite Hattempts by (vm_compute; reflexivity); vm_compute; reflexivity|].
  apply Hprimes. reflexivity.
Defined.

(** ** Two sessions, end to end *)

(** The digit limit, as a comparison with a power of ten. *)
Lemma exceeds_digits_spec (limit n : Z) :
  0 < limit -> exceeds_digits limit n = (10 ^ limit <=? Z.abs n).
Proof.
  intros Hlimit. unfold exceeds_digits.
  destruct (Z.ltb_spec (Z.log2 (Z.abs n)) (3 * limit)) as [Hsmall|]; [|reflexivity].
  symmetry. apply Z.leb_gt.
  assert (Hbits : Z.abs n < 2 ^ (3 * limit)).
  { destruct (Z.eq_dec (Z.abs n) 0) as [-> | Hn]; [apply Z.pow_pos_nonneg; lia|].
    apply Z.log2_lt_pow2; lia. }
  assert (Hpow : 2 ^ (3 * limit) <= 10 ^ limit).
  { rewrite Z.pow_mul_r by lia. change (2 ^ 3) with 8.
    apply Z.pow_le_mono_l. lia. }
  lia.
Qed.

Lemma format_int_spec (pf : Platform) (n : Z) :
  format_int pf n =
    if (0 <? int_max_str_digits pf) && (10 ^ int_max_str_digits pf <=? Z.abs n)
    then Raise ValueError else Return tt.
Proof.
  unfold format_int.
  destruct (Z.ltb_spec 0 (int_max_str_digits pf)) as [Hlimit|]; [|reflexivity].
  rewrite exceeds_digits_spec by exact Hlimit. reflexivity.
Qed.

(** An int converts to decimal where a larger one does. *)
Lemma format_int_smaller (pf : Platform) (n m : Z) :
  Z.abs n <= Z.abs m -> format_int pf m = Return tt -> format_int pf n = Return tt.
Proof.
  rewrite !format_int_spec. intros Hle.
  destruct (0 <? int_max_str_digits pf); cbn [andb]; [|reflexivity].
  destruct (Z.leb_spec (10 ^ int_max_str_digits pf) (Z.abs m)); [discriminate|].
  destruct (Z.leb_spec (10 ^ int_max_str_digits pf) (Z.abs n)); [lia | reflexivity].
Qed.

Lemma hunt_over_single_prime
  (pf : Platform) (p : Z) (k : nat) (h : PrimeHunter) (x : Hunt) :
  is_prime p = Return true -> gt_int (hunt_now0 x) 0 = true ->
  format_attempt pf (Z.of_nat (S k)) p = Return tt ->
  only_found p k h ->
  outcome (hunt pf x h) = Return true /\ only_found p (S k) (final (hunt pf x h)).
Proof.
  intros Htest Hnow Hline (Hlo & Hhi & Hfound & Hattempts & Hclosed & Hstreak & Hfailures).
  assert (Hallowed : outcome (allow (hunt_now0 x) (circuit_breaker h)) = Return true).
  { rewrite allow_compares, Hclosed. cbn [gt]. rewrite Hnow. reflexivity. }
  pose proof (allowed_hunt_runs pf h (hunt_now0 x) (hunt_now1 x) (hunt_now2 x)
                (hunt_entropy x) Hallowed) as Hrun.
  cbv zeta in Hrun.
  destruct (generate_random_number_spec (hunt_entropy x) (min_num h) (max_num h))
    as [Hdraw _].
  destruct (Hdraw ltac:(lia)) as [Hnumber Hin]. rewrite Hnumber in Hrun.
  replace (min_num h + hunt_entropy x mod (max_num h - min_num h + 1)) with p in Hrun
    by lia.
  replace (attempts h + 1) with (Z.of_nat (S k)) in Hrun by lia.
  rewrite Hline, Htest in Hrun. destruct Hrun as [Hout Hfinal].
  cbn [outcome final] in Hout, Hfinal.
  split; [exact Hout|]. unfold hunt. rewrite Hfinal.
  rewrite record_success_writes, reset_writes.
  destruct h as [cb lo hi found tries].
  cbv [only_found set_circuit_breaker set_primes_found set_attempts circuit_breaker
       min_num max_num primes_found attempts] in *.
  repeat split; try assumption.
  - rewrite Hfound. symmetry. apply (repeat_cons k p).
  - destruct (gt _ _); cbn; [exact Hclosed | reflexivity].
  - destruct (gt _ _); reflexivity.
  - destruct (gt _ _); cbn; exact Hfailures.
Qed.

(** X17. A hunter whose range holds one number, a prime [p] below [2^53], on
    a platform where [p] and the number of hunts convert to decimal: every
    call of [hunt_prime] at a clock reading above 0 returns true, whatever
    the entropy, and the session runs to its end; afterwards the list holds
    [p] once per hunt, the attempts are the hunts, and the breaker has never
    opened nor counted a failure. *)
Theorem single_prime_range_never_trips
  (pf : Platform) (p threshold : Z) (cooldown : Number) (h0 : PrimeHunter)
  (hs : list Hunt) :
  Z.prime p -> p < 2 ^ 53 ->
  PrimeHunter_init threshold cooldown p p = Return h0 ->
  Forall (fun x => gt_int (hunt_now0 x) 0 = true) hs ->
  format_int pf p = Return tt ->
  format_int pf (Z.of_nat (length hs)) = Return tt ->
  (forall before x after, hs = before ++ x :: after ->
     outcome (hunt_all pf before h0) = Return tt /\
     outcome (hunt pf x (final (hunt_all pf before h0))) = Return true) /\
  let run := hunt_all pf hs h0 in
  outcome run = Return tt /\
  primes_found (final run) = repeat p (length hs) /\
  attempts (final run) = Z.of_nat (length hs) /\
  _tripped_until (circuit_breaker (final run)) = PyInt 0 /\
  _consecutive_failures (circuit_breaker (final run)) = 0 /\
  _total_failures (circuit_breaker (final run)) = 0.
Proof.
  intros Hprime Hbound [= <-] Hclock Hp Hcount.
  assert (Htest : is_prime p = Return true).
  { destruct (is_prime_correct_below_2_53 p Hbound) as (b & Hb & Hiff).
    rewrite Hb. f_equal. apply Hiff, Hprime. }
  set (h0 := mkPrimeHunter _ p p [] 0).
  assert (Hline : forall k, (k <= length hs)%nat ->
            format_attempt pf (Z.of_nat k) p = Return tt).
  { intros k Hk. unfold format_attempt.
    rewrite (format_int_smaller pf (Z.of_nat k) (Z.of_nat (length hs))); [exact Hp| |exact Hcount].
    lia. }
  assert (Hgen : forall l k h,
            Forall (fun x => gt_int (hunt_now0 x) 0 = true) l ->
            (k + length l <= length hs)%nat -> only_found p k h ->
            outcome (hunt_all pf l h) = Return tt /\
            only_found p (k + length l) (final (hunt_all pf l h))).
  { induction l as [|x rest IH]; intros k h Hl Hk Hinv.
    - rewrite Nat.add_0_r. split; [reflexivity | exact Hinv].
    - inversion Hl as [|x0 rest0 Hnow Hrest]; subst x0 rest0.
      cbn [length] in Hk.
      destruct (hunt_over_single_prime pf p k h x Htest Hnow
                  (Hline (S k) ltac:(lia)) Hinv) as [Hout Hnext].
      destruct (session_goes_on pf x rest h true Hout) as [-> ->].
      cbn [length]. rewrite Nat.add_succ_r. apply (IH (S k)); [exact Hrest | lia | exact Hnext]. }
  assert (Hfresh : only_found p 0 h0) by (repeat split).
  split.
  - intros before x after Hsplit.
    assert (Hclock' : Forall (fun x => gt_int (hunt_now0 x) 0 = true) before /\
                      gt_int (hunt_now0 x) 0 = true).
    { rewrite Hsplit in Hclock. apply Forall_app in Hclock as [Hb Ha].
      split; [exact Hb|]. inversion Ha; assumption. }
    assert (Hlen : (S (length before) <= length hs)%nat).
    { rewrite Hsplit, length_app. cbn [length]. lia. }
    destruct (Hgen before 0%nat h0 (proj1 Hclock') ltac:(lia) Hfresh) as [Hout Hinv].
    split; [exact Hout|].
    apply (hunt_over_single_prime pf p (length before) _ x Htest (proj2 Hclock')
             (Hline _ Hlen) Hinv).
  - cbv zeta.
    destruct (Hgen hs 0%nat h0 Hclock ltac:(lia) Hfresh)
      as (Hout & _ & _ & Hfound & Hattempts & Hrest).
    repeat split; try assumption; apply Hrest.
Qed.

Lemma single_prime_range_never_trips_witness :
  let h0 := mkPrimeHunter (mkCircuitBreaker 3 (PyInt 5) (PyInt 0) 0 0 0 None) 5 5 [] 0 in
  let hs := [mkHunt float_1 float_1 float_1 7; mkHunt float_5 float_5 float_5 8;
             mkHunt float_6 float_6 float_6 9] in
  outcome (hunt sample_platform (mkHunt float_6 float_6 float_6 9)
             (final (hunt_all sample_platform
                       [mkHunt float_1 float_1 float_1 7;
                        mkHunt float_5 float_5 float_5 8] h0))) = Return true /\
  primes_found (final (hunt_all sample_platform hs h0)) = [5; 5; 5].
Proof.
  cbv zeta.
  assert (H5 : Z.prime 5).
  { destruct (is_prime_correct_below_2_53 5 eq_refl) as (b & Htest & Hb).
    apply Hb. vm_compute in Htest. congruence. }
  destruct (single_prime_range_never_trips sample_platform 5 3 (PyInt 5)
              (mkPrimeHunter (mkCircuitBreaker 3 (PyInt 5) (PyInt 0) 0 0 0 None) 5 5 [] 0)
              [mkHunt float_1 float_1 float_1 7; mkHunt float_5 float_5 float_5 8;
               mkHunt float_6 float_6 float_6 9] H5 eq_refl eq_refl)
    as (Heach & _ & Hfound & _).
  - repeat constructor.
  - vm_compute. reflexivity.
  - vm_compute. reflexivity.
  - split; [|exact Hfound].
    apply (Heach [mkHunt float_1 float_1 float_1 7; mkHunt float_5 float_5 float_5 8]
             (mkHunt float_6 float_6 float_6 9) []). reflexivity.
Defined.

(** A failing hunt that the breaker allows, below [2^53]. *)
Lemma missed_hunt_runs
  (pf : Platform) (h : PrimeHunter) (now0 now1 now2 : spec_float) (r : Z) :
  min_num h <= max_num h -> max_num h < 2 ^ 53 ->
  outcome (allow now0 (circuit_breaker h)) = Return true ->
  format_attempt pf (attempts h + 1) (drawn r h) = Return tt ->
  ~ Z.prime (drawn r h) ->
  outcome (hunt_prime pf now0 now1 now2 r h) =
    match outcome (trip pf now1 now2 (circuit_breaker h)) with
    | Return _ => Return false
    | Raise e => Raise e
    end /\
  final (hunt_prime pf now0 now1 now2 r h) =
    set_circuit_breaker (final (trip pf now1 now2 (circuit_breaker h)))
      (set_attempts (attempts h + 1) h).
Proof.
  intros Hrange Hbound Hallowed Hline Hcomposite.
  pose proof (allowed_hunt_runs pf h now0 now1 now2 r Hallowed) as Hrun.
  cbv zeta in Hrun.
  destruct (generate_random_number_spec r (min_num h) (max_num h)) as [Hdraw _].
  destruct (Hdraw Hrange) as [Hnumber Hin]. rewrite Hnumber in Hrun.
  fold (drawn r h) in Hrun, Hin. rewrite Hline in Hrun.
  destruct (is_prime_correct_below_2_53 (drawn r h) ltac:(lia)) as (b & Htest & Hb).
  rewrite Htest in Hrun. destruct b; [exfalso; apply Hcomposite, Hb; reflexivity|].
  exact Hrun.
Qed.

Lemma streak_one_more (pf : Platform) (t : spec_float) (n : nat) (cb : CircuitBreaker) :
  fail_times pf t (S n) cb = final (trip pf t t (fail_times pf t n cb)).
Proof.
  revert cb. induction n as [|n IH]; intros cb; [reflexivity|].
  change (fail_times pf t (S n) (final (trip pf t t cb)) =
          final (trip pf t t (fail_times pf t n (final (trip pf t t cb))))).
  apply IH.
Qed.

(** Failing hunts that stay below the threshold all return. *)
Lemma failing_hunts_below
  (pf : Platform) (t : spec_float) (rs : list Z) (h : PrimeHunter) :
  min_num h <= max_num h -> max_num h < 2 ^ 53 ->
  Forall (fun r => ~ Z.prime (drawn r h)) rs ->
  (forall k r, 0 < k <= Z.of_nat (length rs) -> In r rs ->
     format_attempt pf (attempts h + k) (drawn r h) = Return tt) ->
  _consecutive_failures (circuit_breaker h) + Z.of_nat (length rs)
    < failure_threshold (circuit_breaker h) ->
  outcome (allow t (circuit_breaker h)) = Return true ->
  outcome (hunt_all pf (hunts_at t rs) h) = Return tt /\
  final (hunt_all pf (hunts_at t rs) h) =
    set_circuit_breaker (fail_times pf t (length rs) (circuit_breaker h))
      (set_attempts (attempts h + Z.of_nat (length rs)) h).
Proof.
  revert h. induction rs as [|r rest IH]; intros h Hrange Hbound Hall Hlines Hroom Hallowed.
  - split; [reflexivity|]. destruct h as [cb lo hi found tries].
    cbn. unfold set_circuit_breaker, set_attempts. cbn. f_equal. lia.
  - cbn [hunts_at map]. fold (hunts_at t rest).
    inversion Hall as [|r0 rest0 Hcomposite Hrest]; subst r0 rest0.
    cbn [length] in Hroom, Hlines. rewrite Nat2Z.inj_succ in Hroom, Hlines.
    destruct (missed_hunt_runs pf h t t t r Hrange Hbound Hallowed
                (Hlines 1 r ltac:(lia) ltac:(left; reflexivity)) Hcomposite)
      as [Hout Hfinal].
    rewrite trip_raises_where in Hout.
    destruct (Z.geb_spec (_consecutive_failures (circuit_breaker h) + 1)
                (failure_threshold (circuit_breaker h))) as [|_]; [lia|].
    destruct (session_goes_on pf (mkHunt t t t r) (hunts_at t rest) h false Hout)
      as [-> ->].
    unfold hunt. cbn [hunt_now0 hunt_now1 hunt_now2 hunt_entropy]. rewrite Hfinal.
    destruct (trip_counts pf t t (circuit_breaker h)) as (Hthr & _ & Hstreak & _).
    assert (Hbelow : _tripped_until (final (trip pf t t (circuit_breaker h)))
                     = _tripped_until (circuit_breaker h)).
    { apply (streak_below pf t 1 (circuit_breaker h)). cbn. lia. }
    destruct h as [cb lo hi found tries].
    cbv [set_circuit_breaker set_attempts circuit_breaker min_num max_num attempts
         primes_found drawn] in *.
    destruct (IH (mkPrimeHunter (final (trip pf t t cb)) lo hi found (tries + 1)))
      as [Hout' Hfinal'].
    + exact Hrange.
    + exact Hbound.
    + exact Hrest.
    + intros k r0 Hk Hin. cbv [attempts min_num max_num].
      replace (tries + 1 + k) with (tries + (k + 1)) by lia.
      apply Hlines; [lia | right; exact Hin].
    + cbv [circuit_breaker]. rewrite Hthr, Hstreak. lia.
    + cbv [circuit_breaker]. rewrite allow_compares, Hbelow.
      rewrite allow_compares in Hallowed. exact Hallowed.
    + split; [exact Hout'|]. rewrite Hfinal'.
      cbv [circuit_breaker min_num max_num attempts primes_found].
      cbn [length fail_times]. f_equal. lia.
Qed.

(** X18. A run of failures, seen from the hunter.  Over a range that is not
    empty and stays below [2^53], on a breaker in order whose cooldown has
    the float [c], starting with an empty streak and allowed at time [t],
    where the lines of line 158 can be built: [failure_threshold] hunts at
    [t] that all draw a number that is not prime count [failure_threshold]
    attempts and as many failures, find nothing, and store the float sum of
    [t] and [c].  All of them return, but the last one raises when the
    notice of [trip] cannot be built.  Either way the circuit is open: any
    hunt at a reading up to the stored sum is blocked, returns false and
    changes nothing. *)
Theorem failing_hunts_open_the_circuit
  (pf : Platform) (h : PrimeHunter) (t c t' now1 now2 : spec_float)
  (rs : list Z) (r' : Z) :
  min_num h <= max_num h -> max_num h < 2 ^ 53 ->
  in_order (circuit_breaker h) ->
  0 < failure_threshold (circuit_breaker h) ->
  _consecutive_failures (circuit_breaker h) = 0 ->
  to_float (cooldown_seconds (circuit_breaker h)) = Return c ->
  outcome (allow t (circuit_breaker h)) = Return true ->
  Z.of_nat (length rs) = failure_threshold (circuit_breaker h) ->
  Forall (fun r => ~ Z.prime (drawn r h)) rs ->
  (forall k r, 0 < k <= failure_threshold (circuit_breaker h) -> In r rs ->
     format_attempt pf (attempts h + k) (drawn r h) = Return tt) ->
  SFleb t' (add t c) = true ->
  let run := hunt_all pf (hunts_at t rs) h in
  let built :=
    notice pf (failure_threshold (circuit_breaker h))
      (cooldown_seconds (circuit_breaker h)) (add t c) in
  outcome run = built /\
  attempts (final run) = attempts h + failure_threshold (circuit_breaker h) /\
  primes_found (final run) = primes_found h /\
  _total_failures (circuit_breaker (final run)) =
    _total_failures (circuit_breaker h) + failure_threshold (circuit_breaker h) /\
  _tripped_until (circuit_breaker (final run)) = PyFloat (add t c) /\
  outcome (hunt_prime pf t' now1 now2 r' (final run)) = Return false /\
  final (hunt_prime pf t' now1 now2 r' (final run)) = final run.
Proof.
  intros Hrange Hbound Horder Hthreshold Hstreak Hc Hallowed Hlength Hall Hlines Hsoon
    run built.
  destruct (exists_last (l := rs)) as (front & r & Hrs).
  { intros ->. cbn in Hlength. lia. }
  assert (Hfront : Z.of_nat (length front) + 1 = failure_threshold (circuit_breaker h)).
  { rewrite Hrs, length_app in Hlength. cbn [length] in Hlength. lia. }
  rewrite Hrs in Hall. apply Forall_app in Hall as [Hall Hlast].
  inversion Hlast as [|r0 l0 Hcomposite _]; subst r0 l0.
  destruct (failing_hunts_below pf t front h Hrange Hbound Hall) as [Hout Hfinal].
  { intros k r0 Hk Hin. apply Hlines; [lia|]. rewrite Hrs. apply in_or_app. left. exact Hin. }
  { lia. }
  { exact Hallowed. }
  set (cb := circuit_breaker h) in *.
  set (mid := final (hunt_all pf (hunts_at t front) h)) in *.
  destruct (streak_counts pf t (length front) cb) as (Hthr & Hcool & Hcount & Hfail & _).
  assert (Hmid : circuit_breaker mid = fail_times pf t (length front) cb /\
                 attempts mid = attempts h + Z.of_nat (length front) /\
                 primes_found mid = primes_found h /\
                 min_num mid = min_num h /\ max_num mid = max_num h).
  { rewrite Hfinal. destruct h; repeat split. }
  destruct Hmid as (Hmid_cb & Hmid_attempts & Hmid_found & Hmid_lo & Hmid_hi).
  assert (Hdrawn : drawn r mid = drawn r h) by (unfold drawn; rewrite Hmid_lo, Hmid_hi; reflexivity).
  assert (Hallowed' : outcome (allow t (circuit_breaker mid)) = Return true).
  { rewrite allow_compares, Hmid_cb, (streak_below pf t (length front) cb) by lia.
    rewrite allow_compares in Hallowed. exact Hallowed. }
  destruct (missed_hunt_runs pf mid t t t r) as [Hout' Hfinal'].
  { lia. } { lia. } { exact Hallowed'. }
  { rewrite Hdrawn, Hmid_attempts.
    replace (attempts h + Z.of_nat (length front) + 1)
      with (attempts h + failure_threshold cb) by lia.
    apply Hlines; [lia|]. rewrite Hrs. apply in_or_app. right. left. reflexivity. }
  { rewrite Hdrawn. exact Hcomposite. }
  rewrite Hmid_cb, <- streak_one_more in Hfinal'.
  rewrite Hmid_cb, trip_raises_where, Hthr, Hcool, Hcount, Hc in Hout'.
  destruct (Z.geb_spec (_consecutive_failures cb + Z.of_nat (length front) + 1)
              (failure_threshold cb)) as [_|]; [|lia].
  replace (_consecutive_failures cb + Z.of_nat (length front) + 1)
    with (failure_threshold cb) in Hout' by lia.
  fold built in Hout'.
  (* the whole session *)
  assert (Hrun : outcome run = built /\
                 final run =
                   set_circuit_breaker (fail_times pf t (S (length front)) cb)
                     (set_attempts (attempts mid + 1) mid)).
  { subst run. rewrite Hrs. unfold hunts_at. rewrite map_app. cbn [map].
    fold (hunts_at t front).
    destruct (session_in_two pf (hunts_at t front) [mkHunt t t t r] h Hout) as [-> ->].
    fold mid. cbn [hunt_all]. unfold hunt, bind.
    cbn [hunt_now0 hunt_now1 hunt_now2 hunt_entropy].
    rewrite Hout', Hfinal'.
    destruct built as [[]|e]; split; reflexivity. }
  destruct Hrun as [Hrun_out Hrun_final].
  assert (Huntil : _tripped_until (circuit_breaker (final run)) = PyFloat (add t c)).
  { rewrite Hrun_final. destruct mid. cbv [set_circuit_breaker set_attempts circuit_breaker].
    apply streak_reaching; [lia | lia | exact Hc]. }
  assert (Horder' : in_order (circuit_breaker (final run))).
  { rewrite Hrun_final. destruct mid. cbv [set_circuit_breaker set_attempts circuit_breaker].
    apply streak_keeps_order, Horder. }
  assert (Hblocked : outcome (allow t' (circuit_breaker (final run))) = Return false).
  { rewrite allow_compares, Huntil. cbn [gt]. rewrite (SFleb_not_gt _ _ Hsoon). reflexivity. }
  destruct (blocked_hunt_runs pf (final run) t' now1 now2 r' Horder' Hblocked)
    as [Hout'' Hfinal''].
  destruct (streak_counts pf t (S (length front)) cb) as (_ & _ & _ & Hfail' & _).
  repeat split; try assumption.
  - rewrite Hrun_final. destruct mid.
    cbv [set_circuit_breaker set_attempts attempts] in *. lia.
  - rewrite Hrun_final. destruct mid. exact Hmid_found.
  - rewrite Hrun_final. destruct mid.
    cbv [set_circuit_breaker set_attempts circuit_breaker]. lia.
Qed.

Lemma failing_hunts_open_the_circuit_witness :
  let h := mkPrimeHunter (mkCircuitBreaker 2 (PyInt 5) (PyInt 0) 0 0 0 None) 8 10 [] 0 in
  let run := hunt_all sample_platform (hunts_at float_1 [0; 1]) h in
  outcome run = Return tt /\
  attempts (final run) = 2 /\
  _tripped_until (circuit_breaker (final run)) = PyFloat float_6 /\
  outcome (hunt_prime sample_platform float_6 float_6 float_6 2 (final run)) = Return false.
Proof.
  cbv zeta.
  assert (Hcomposite : forall n, n < 2 ^ 53 -> is_prime n = Return false -> ~ Z.prime n).
  { intros n Hn Htest Hprime.
    destruct (is_prime_correct_below_2_53 n Hn) as (b & Hb & Hiff).
    apply Hiff in Hprime. congruence. }
  destruct (failing_hunts_open_the_circuit sample_platform
              (mkPrimeHunter (mkCircuitBreaker 2 (PyInt 5) (PyInt 0) 0 0 0 None) 8 10 [] 0)
              float_1 float_5 float_6 float_6 float_6 [0; 1] 2)
    as (Hout & Hattempts & _ & _ & Huntil & Hblocked & _).
  - cbn. discriminate.
  - reflexivity.
  - repeat split; cbn; try lia. left. reflexivity.
  - reflexivity.
  - reflexivity.
  - reflexivity.
  - reflexivity.
  - reflexivity.
  - repeat constructor; apply Hcomposite; reflexivity.
  - intros k r Hk Hin. cbn in Hk.
    assert (Hks : k = 1 \/ k = 2) by lia.
    destruct Hin as [<- | [<- | []]]; destruct Hks as [-> | ->]; vm_compute; reflexivity.
  - reflexivity.
  - split; [exact Hout|]. split; [exact Hattempts|]. split; [exact Huntil | exact Hblocked].
Defined.

(** ** The status line *)

(** X7. Once the cooldown is over the status line says CLOSED while it still
    shows a full streak: after [failure_threshold] failures at [t] on a
    breaker in order, at every reading above the stored float sum it reads
    "threshold out of threshold failures", where the threshold converts to
    decimal. *)
Theorem closed_with_a_full_streak
  (pf : Platform) (cb : CircuitBreaker) (t u now2 c : spec_float) :
  0 < failure_threshold cb ->
  _consecutive_failures cb = 0 ->
  in_order cb ->
  to_float (cooldown_seconds cb) = Return c ->
  SFltb (add t c) u = true ->
  format_int pf (failure_threshold cb) = Return tt ->
  let opened := fail_times pf t (Z.to_nat (failure_threshold cb)) cb in
  outcome (get_status_string pf u now2 opened)
    = Return (StatusClosed (failure_threshold cb) (failure_threshold cb)) /\
  final (get_status_string pf u now2 opened) = opened.
Proof.
  intros Hthreshold Hstreak Horder Hc Hlater Hline opened.
  pose proof (streak_keeps_order pf t (Z.to_nat (failure_threshold cb)) cb Horder)
    as Horder'.
  fold opened in Horder'.
  destruct (in_order_has_float opened Horder') as (y & Hy).
  destruct (in_order_has_rate opened Horder') as (sq & _ & Hrate).
  pose proof (get_stats_entries u now2 y _ opened Hy Hrate) as Hstats.
  pose proof (get_stats_reads_only u now2 opened) as Hkept.
  destruct (streak_counts pf t (Z.to_nat (failure_threshold cb)) cb)
    as (Hthr & _ & Hcount & _).
  fold opened in Hthr, Hcount.
  assert (Huntil : _tripped_until opened = PyFloat (add t c))
    by (apply streak_reaching; [lia | lia | exact Hc]).
  assert (Hallowed : gt u (_tripped_until opened) = true)
    by (rewrite Huntil; exact Hlater).
  rewrite Hallowed in Hstats. cbn [negb] in Hstats.
  unfold get_status_string, bind. rewrite Hstats, Hkept.
  cbn [Stats.is_open Stats.consecutive_failures Stats.failure_threshold].
  rewrite Hthr, Hcount, Hstreak.
  replace (0 + Z.of_nat (Z.to_nat (failure_threshold cb))) with (failure_threshold cb) by lia.
  unfold lift. cbn [outcome final printed]. rewrite Hline.
  split; reflexivity.
Qed.

Lemma closed_with_a_full_streak_witness :
  outcome (get_status_string sample_platform float_10 float_10
             (fail_times sample_platform float_1 3
                (mkCircuitBreaker 3 (PyInt 5) (PyInt 0) 0 0 0 None)))
  = Return (StatusClosed 3 3).
Proof.
  destruct (closed_with_a_full_streak sample_platform
              (mkCircuitBreaker 3 (PyInt 5) (PyInt 0) 0 0 0 None)
              float_1 float_10 float_10 float_5) as [Hline _].
  - reflexivity.
  - reflexivity.
  - repeat split; cbn; try lia. left. reflexivity.
  - reflexivity.
  - reflexivity.
  - reflexivity.
  - exact Hline.
Defined.

(** ** Where [trip] raises *)

(** X20. [trip()] counts the failure and notes its time whatever happens
    next, and below the threshold it returns.  At the threshold, with a
    cooldown that is an int too large for a float, line 51 raises
    [OverflowError] and [_tripped_until] stays as it was.  With any other
    cooldown the float sum is stored first; then the call returns if the
    three lines of the notice can be built and raises what the first
    failing line raises if not, with the circuit already open. *)
Theorem trip_raises_after_counting
  (pf : Platform) (now1 now2 : spec_float) (cb : CircuitBreaker) :
  let run := trip pf now1 now2 cb in
  _consecutive_failures (final run) = _consecutive_failures cb + 1 /\
  _total_failures (final run) = _total_failures cb + 1 /\
  _last_failure_time (final run) = Some now1 /\
  _total_successes (final run) = _total_successes cb /\
  (_consecutive_failures cb + 1 < failure_threshold cb ->
     outcome run = Return tt /\ _tripped_until (final run) = _tripped_until cb) /\
  (failure_threshold cb <= _consecutive_failures cb + 1 ->
     (forall e, to_float (cooldown_seconds cb) = Raise e ->
        e = OverflowError /\ outcome run = Raise OverflowError /\
        _tripped_until (final run) = _tripped_until cb) /\
     (forall c, to_float (cooldown_seconds cb) = Return c ->
        _tripped_until (final run) = PyFloat (add now2 c) /\
        outcome run =
          notice pf (_consecutive_failures cb + 1) (cooldown_seconds cb) (add now2 c))).
Proof.
  cbv zeta.
  destruct (trip_counts pf now1 now2 cb)
    as (_ & _ & Hstreak & Hfailures & Hsuccesses & Htime).
  split; [exact Hstreak|]. split; [exact Hfailures|].
  split; [exact Htime|]. split; [exact Hsuccesses|].
  split.
  - intros Hbelow. rewrite trip_raises_where, trip_stores.
    destruct (Z.geb_spec (_consecutive_failures cb + 1) (failure_threshold cb));
      [lia | split; reflexivity].
  - intros Hat. split.
    + intros e He. pose proof (to_float_raises _ e He) as ->.
      destruct (trip_without_float pf now1 now2 OverflowError cb He) as [Hkept Hraise].
      split; [reflexivity|]. split; [apply Hraise, Hat | exact Hkept].
    + intros c Hc. split; [apply trip_at_threshold_stores; assumption|].
      rewrite trip_raises_where, Hc.
      destruct (Z.geb_spec (_consecutive_failures cb + 1) (failure_threshold cb));
        [reflexivity | lia].
Qed.

Lemma trip_raises_after_counting_witness :
  let cb := mkCircuitBreaker 1 (PyInt (10 ^ 12)) (PyInt 0) 0 0 0 None in
  let run := trip sample_platform float_1700000000 float_1700000000 cb in
  outcome run = Raise ValueError /\
  _total_failures (final run) = 1 /\
  outcome (allow float_1700000000_7 (final run)) = Return false.
Proof.
  cbv zeta.
  destruct (trip_raises_after_counting sample_platform float_1700000000 float_1700000000
              (mkCircuitBreaker 1 (PyInt (10 ^ 12)) (PyInt 0) 0 0 0 None))
    as (_ & Hfailures & _ & _ & _ & Hat).
  destruct (Hat ltac:(cbn; lia)) as [_ Hstored].
  destruct (Hstored _ eq_refl) as [Huntil Hout].
  split; [rewrite Hout; vm_compute; reflexivity|].
  split; [exact Hfailures|].
  rewrite allow_compares, Huntil. vm_compute. reflexivity.
Defined.

(** ** States a history reaches *)

Lemma history_keeps_order (pf : Platform) (cs : list Call) (cb : CircuitBreaker) :
  in_order cb -> in_order (state_after pf cs cb).
Proof.
  revert cb. induction cs as [|c cs IH]; intros cb Horder; [exact Horder|].
  cbn [state_after fold_left]. apply IH, perform_keeps_order, Horder.
Qed.

(** The streak stays within the lifetime count through every call, raising
    or not. *)
Lemma perform_keeps_streak (pf : Platform) (c : Call) (cb : CircuitBreaker) :
  0 <= _consecutive_failures cb <= _total_failures cb ->
  0 <= _consecutive_failures (final (perform pf c cb))
    <= _total_failures (final (perform pf c cb)).
Proof.
  intros Hstreak. destruct c as [now | now1 now2 | now | now1 now2 | now1 now2];
    cbn [perform].
  - exact Hstreak.
  - destruct (trip_counts pf now1 now2 cb) as (_ & _ & -> & -> & _). lia.
  - rewrite reset_writes. cbn. lia.
  - rewrite record_success_writes, reset_writes. destruct (gt _ _); cbn; lia.
  - unfold bind. pose proof (get_stats_reads_only now1 now2 cb) as Hkept.
    destruct (outcome (get_stats now1 now2 cb)); cbn [final ret]; rewrite Hkept;
      exact Hstreak.
Qed.

Lemma history_keeps_streak (pf : Platform) (cs : list Call) (cb : CircuitBreaker) :
  0 <= _consecutive_failures cb <= _total_failures cb ->
  0 <= _consecutive_failures (state_after pf cs cb)
    <= _total_failures (state_after pf cs cb).
Proof.
  revert cb. induction cs as [|c cs IH]; intros cb Hstreak; [exact Hstreak|].
  cbn [state_after fold_left]. apply IH, perform_keeps_streak, Hstreak.
Qed.

(** X21. In every state that calls of the five methods reach from a fresh
    breaker, in any order and whatever they raised: the streak is not
    negative and does not exceed the lifetime count of failures; the
    counters are not negative and [_tripped_until] is the int 0 or a float;
    so [get_stats()] returns there, at every pair of clock readings, and
    changes nothing. *)
Theorem get_stats_returns_where_reachable
  (pf : Platform) (cb : CircuitBreaker) (now1 now2 : spec_float) :
  reachable pf cb ->
  0 <= _consecutive_failures cb <= _total_failures cb /\
  in_order cb /\
  (exists stats, outcome (get_stats now1 now2 cb) = Return stats) /\
  final (get_stats now1 now2 cb) = cb.
Proof.
  intros (threshold & cooldown & cb0 & cs & [= <-] & <-).
  assert (Horder : in_order (state_after pf cs
                     (mkCircuitBreaker threshold cooldown (PyInt 0) 0 0 0 None))).
  { apply history_keeps_order. repeat split; cbn; try lia. left. reflexivity. }
  split; [apply history_keeps_streak; cbn; lia|].
  split; [exact Horder|]. split; [|apply get_stats_reads_only].
  destruct (in_order_has_float _ Horder) as (y & Hy).
  destruct (in_order_has_rate _ Horder) as (sq & _ & Hrate).
  eexists. apply (get_stats_entries now1 now2 y _ _ Hy Hrate).
Qed.

Lemma get_stats_returns_where_reachable_witness :
  exists stats,
    outcome (get_stats float_10 float_10
               (state_after sample_platform
                  [CallTrip float_1 float_1; CallRecordSuccess float_5 float_5;
                   CallTrip float_6 float_6]
                  (mkCircuitBreaker 1 (PyInt 5) (PyInt 0) 0 0 0 None))) = Return stats.
Proof.
  destruct (get_stats_returns_where_reachable sample_platform
              (state_after sample_platform
                 [CallTrip float_1 float_1; CallRecordSuccess float_5 float_5;
                  CallTrip float_6 float_6]
                 (mkCircuitBreaker 1 (PyInt 5) (PyInt 0) 0 0 0 None))
              float_10 float_10) as (_ & _ & Hstats & _).
  - exists 1, (PyInt 5), (mkCircuitBreaker 1 (PyInt 5) (PyInt 0) 0 0 0 None),
      [CallTrip float_1 float_1; CallRecordSuccess float_5 float_5;
       CallTrip float_6 float_6].
    split; reflexivity.
  - exact Hstats.
Defined.

(** ** Recording a success, in binary64 *)

(** X22. [record_success()] never raises.  Where [allow()] is true at its
    first reading it clears the streak, counts the success and writes
    nothing else, printing nothing.  Where [allow()] is false it does what
    [reset()] does at the second reading: [_tripped_until] becomes the int
    0, so that [allow()] is true at every reading above 0, the streak is
    cleared and the success counted, the failure count and the time of the
    last failure staying as they were; and the reset line is printed only
    if [allow()] is still false at that second reading. *)
Theorem record_success_in_binary64
  (cb : CircuitBreaker) (now1 now2 : spec_float) :
  let run := record_success now1 now2 cb in
  let after := final run in
  outcome run = Return tt /\
  failure_threshold after = failure_threshold cb /\
  cooldown_seconds after = cooldown_seconds cb /\
  _consecutive_failures after = 0 /\
  _total_successes after = _total_successes cb + 1 /\
  _total_failures after = _total_failures cb /\
  _last_failure_time after = _last_failure_time cb /\
  (outcome (allow now1 cb) = Return true ->
     _tripped_until after = _tripped_until cb /\ printed run = []) /\
  (outcome (allow now1 cb) = Return false ->
     after = final (reset now2 cb) /\
     _tripped_until after = PyInt 0 /\
     (forall now, gt_int now 0 = true -> outcome (allow now after) = Return true) /\
     printed run =
       if gt now2 (_tripped_until cb) then [] else [MsgReset]).
Proof.
  cbv zeta.
  split; [apply record_success_returns|].
  rewrite record_success_writes, reset_writes, !allow_compares.
  destruct cb as [thr cd tu cf tf ts lft].
  cbv [record_success reset allow assign when bind ret get put print
       outcome final printed
       set_consecutive_failures set_total_successes set_tripped_until
       failure_threshold cooldown_seconds _tripped_until _consecutive_failures
       _total_failures _total_successes _last_failure_time].
  destruct (gt now1 tu) eqn:Hfirst; cbn [negb app]; repeat split;
    try discriminate.
  - intros now Hnow. cbn [gt]. rewrite Hnow. reflexivity.
  - destruct (gt now2 tu); reflexivity.
Qed.

Lemma record_success_in_binary64_witness :
  let cb := mkCircuitBreaker 3 (PyInt 5) (PyFloat float_15) 3 3 0 (Some float_10) in
  let run := record_success float_12 float_12 cb in
  _tripped_until (final run) = PyInt 0 /\ printed run = [MsgReset].
Proof.
  cbv zeta.
  destruct (record_success_in_binary64
              (mkCircuitBreaker 3 (PyInt 5) (PyFloat float_15) 3 3 0 (Some float_10))
              float_12 float_12) as (_ & _ & _ & _ & _ & _ & _ & _ & Hopen).
  destruct (Hopen eq_refl) as (_ & Huntil & _ & Hprinted).
  split; [exact Huntil | exact Hprinted].
Defined.

(** ** The status line, in general *)

(** X23. [get_status_string()] changes nothing and raises whatever
    [get_stats()] raises.  Where [get_stats()] returns a dict with [is_open]
    true, the line is the OPEN one with the dict's [seconds_until_retry];
    with [is_open] false it is the CLOSED one with the dict's streak and
    threshold, unless one of the two ints exceeds the digit limit, the
    streak being converted first. *)
Theorem status_line_reads_the_stats
  (pf : Platform) (cb : CircuitBreaker) (now1 now2 : spec_float) :
  let run := get_status_string pf now1 now2 cb in
  final run = cb /\
  (forall e, outcome (get_stats now1 now2 cb) = Raise e -> outcome run = Raise e) /\
  (forall stats, outcome (get_stats now1 now2 cb) = Return stats ->
     Stats.is_open stats = negb (gt now1 (_tripped_until cb)) /\
     (Stats.is_open stats = true ->
        outcome run = Return (StatusOpen (Stats.seconds_until_retry stats))) /\
     (Stats.is_open stats = false ->
        Stats.consecutive_failures stats = _consecutive_failures cb /\
        Stats.failure_threshold stats = failure_threshold cb /\
        outcome run =
          match format_int pf (_consecutive_failures cb) with
          | Raise e => Raise e
          | Return _ =>
              match format_int pf (failure_threshold cb) with
              | Raise e => Raise e
              | Return _ =>
                  Return (StatusClosed (_consecutive_failures cb) (failure_threshold cb))
              end
          end)).
Proof.
  cbv zeta.
  pose proof (get_stats_reads_only now1 now2 cb) as Hkept.
  assert (Hfields : forall stats, outcome (get_stats now1 now2 cb) = Return stats ->
            Stats.is_open stats = negb (gt now1 (_tripped_until cb)) /\
            Stats.consecutive_failures stats = _consecutive_failures cb /\
            Stats.failure_threshold stats = failure_threshold cb).
  { destruct cb as [thr cd tu cf tf ts lft].
    cbv [get_stats allow bind ret get lift outcome final printed
         failure_threshold cooldown_seconds _tripped_until _consecutive_failures
         _total_failures _total_successes _last_failure_time].
    destruct (negb (gt now1 tu)); cbv [outcome final printed].
    - destruct (minus_float tu now2); cbv [outcome final printed]; [|discriminate].
      destruct (percentage ts (ts + tf)); cbv [outcome]; [|discriminate].
      intros stats [= <-]. repeat split.
    - destruct (percentage ts (ts + tf)); cbv [outcome]; [|discriminate].
      intros stats [= <-]. repeat split. }
  unfold get_status_string, bind.
  destruct (outcome (get_stats now1 now2 cb)) as [stats|e] eqn:Hstats.
  - destruct (Hfields stats eq_refl) as (Hopen & Hstreak & Hthr).
    rewrite Hkept.
    assert (Hclosed :
              outcome
                ((lift (format_int pf (Stats.consecutive_failures stats)) ;;
                  lift (format_int pf (Stats.failure_threshold stats)) ;;
                  ret (StatusClosed (Stats.consecutive_failures stats)
                         (Stats.failure_threshold stats)))%binary64 cb) =
              match format_int pf (_consecutive_failures cb) with
              | Raise e => Raise e
              | Return _ =>
                  match format_int pf (failure_threshold cb) with
                  | Raise e => Raise e
                  | Return _ =>
                      Return (StatusClosed (_consecutive_failures cb)
                                (failure_threshold cb))
                  end
              end /\
              final
                ((lift (format_int pf (Stats.consecutive_failures stats)) ;;
                  lift (format_int pf (Stats.failure_threshold stats)) ;;
                  ret (StatusClosed (Stats.consecutive_failures stats)
                         (Stats.failure_threshold stats)))%binary64 cb) = cb).
    { rewrite Hstreak, Hthr. cbv [bind lift ret outcome final printed].
      destruct (format_int pf (_consecutive_failures cb)); cbv [outcome final];
        [|split; reflexivity].
      destruct (format_int pf (failure_threshold cb)); split; reflexivity. }
    destruct Hclosed as [Hline Hsame].
    split.
    { destruct (Stats.is_open stats); [reflexivity | exact Hsame]. }
    split; [discriminate|].
    intros stats' [= <-]. split; [exact Hopen|].
    split; intros Hflag; rewrite Hflag.
    + reflexivity.
    + split; [exact Hstreak|]. split; [exact Hthr | exact Hline].
  - cbn [final outcome]. split; [exact Hkept|].
    split; [intros e' [= <-]; reflexivity | discriminate].
Qed.

Lemma status_line_reads_the_stats_witness :
  outcome (get_status_string sample_platform float_10 float_12
             (mkCircuitBreaker 3 (PyInt 5) (PyFloat float_15) 3 3 0 (Some float_10)))
  = Return (StatusOpen (PyFloat (S754_finite false 6755399441055744 (-51)))).
Proof.
  destruct (status_line_reads_the_stats sample_platform
              (mkCircuitBreaker 3 (PyInt 5) (PyFloat float_15) 3 3 0 (Some float_10))
              float_10 float_12) as (_ & _ & Hline).
  destruct (Hline _ eq_refl) as (_ & Hopen & _).
  apply Hopen. reflexivity.
Defined.

(** ** The test of the breaker *)

Lemma run_eta {S A} (r : Run S A) : r = mkRun (outcome r) (final r) (printed r).
Proof. destruct r; reflexivity. Qed.

Lemma bind_run {S A B} (m : Method S A) (k : A -> Method S B)
  (self self' : S) (a : A) (l : list Event) :
  m self = mkRun (Return a) self' l ->
  bind m k self =
    mkRun (outcome (k a self')) (final (k a self')) (l ++ printed (k a self')).
Proof. intros Hm. unfold bind. rewrite Hm. reflexivity. Qed.

Lemma get_stats_prints_nothing (now1 now2 : spec_float) (cb : CircuitBreaker) :
  printed (get_stats now1 now2 cb) = [].
Proof.
  destruct cb as [thr cd tu cf tf ts lft].
  cbv [get_stats allow bind ret get lift outcome final printed
       failure_threshold cooldown_seconds _tripped_until _consecutive_failures
       _total_failures _total_successes _last_failure_time].
  destruct (negb (gt now1 tu)); cbv [outcome final printed].
  - destruct (minus_float tu now2); cbv [outcome final printed]; [|reflexivity].
    destruct (percentage ts (ts + tf)); reflexivity.
  - destruct (percentage ts (ts + tf)); reflexivity.
Qed.

(** On a breaker in order whose streak and threshold convert to decimal,
    the status line is returned, and nothing is printed or changed. *)
Lemma status_line_returns
  (pf : Platform) (now1 now2 : spec_float) (cb : CircuitBreaker) :
  in_order cb ->
  format_int pf (_consecutive_failures cb) = Return tt ->
  format_int pf (failure_threshold cb) = Return tt ->
  exists status, get_status_string pf now1 now2 cb = mkRun (Return status) cb [].
Proof.
  intros Horder Hstreak Hthr.
  destruct (in_order_has_float cb Horder) as (y & Hy).
  destruct (in_order_has_rate cb Horder) as (sq & _ & Hrate).
  pose proof (get_stats_entries now1 now2 y _ cb Hy Hrate) as Hstats.
  pose proof (get_stats_reads_only now1 now2 cb) as Hkept.
  pose proof (get_stats_prints_nothing now1 now2 cb) as Hquiet.
  unfold get_status_string, bind. rewrite Hstats, Hkept, Hquiet.
  cbn [Stats.is_open Stats.consecutive_failures Stats.failure_threshold
       Stats.seconds_until_retry].
  destruct (negb (gt now1 (_tripped_until cb))).
  - eexists. reflexivity.
  - cbv [lift ret outcome final printed]. rewrite Hstreak.
    cbv [outcome final printed]. rewrite Hthr. eexists. reflexivity.
Qed.

(** What [trip] prints: the notice, when it opens the circuit. *)
Lemma trip_below_threshold
  (pf : Platform) (now1 now2 : spec_float) (cb : CircuitBreaker) :
  _consecutive_failures cb + 1 < failure_threshold cb ->
  trip pf now1 now2 cb = mkRun (Return tt) (count_failure now1 cb) [].
Proof.
  intros Hbelow. destruct cb as [thr cd tu cf tf ts lft].
  cbn [_consecutive_failures failure_threshold] in Hbelow.
  cbv [trip assign when bind ret get put lift print float_plus
       outcome final printed count_failure
       set_consecutive_failures set_total_failures set_last_failure_time set_tripped_until
       failure_threshold cooldown_seconds _tripped_until _consecutive_failures
       _total_failures _total_successes _last_failure_time].
  destruct (Z.geb_spec (cf + 1) thr); [lia | reflexivity].
Qed.

Lemma trip_at_threshold
  (pf : Platform) (now1 now2 c : spec_float) (cb : CircuitBreaker) :
  failure_threshold cb <= _consecutive_failures cb + 1 ->
  to_float (cooldown_seconds cb) = Return c ->
  notice pf (_consecutive_failures cb + 1) (cooldown_seconds cb) (add now2 c)
    = Return tt ->
  trip pf now1 now2 cb =
    mkRun (Return tt)
      (set_tripped_until (PyFloat (add now2 c)) (count_failure now1 cb))
      [MsgTripped (_consecutive_failures cb + 1); MsgWaiting (cooldown_seconds cb);
       MsgReopenAt (add now2 c)].
Proof.
  intros Hat Hc Hnotice. destruct cb as [thr cd tu cf tf ts lft].
  cbn [_consecutive_failures failure_threshold cooldown_seconds] in Hat, Hc, Hnotice.
  unfold notice in Hnotice.
  cbv [trip assign when bind ret get put lift print float_plus
       outcome final printed count_failure
       set_consecutive_failures set_total_failures set_last_failure_time set_tripped_until
       failure_threshold cooldown_seconds _tripped_until _consecutive_failures
       _total_failures _total_successes _last_failure_time].
  destruct (Z.geb_spec (cf + 1) thr); [|lia].
  rewrite Hc. cbv [outcome final printed].
  destruct (format_int pf (cf + 1)) as [[]|]; [|discriminate].
  destruct (format_number pf cd) as [[]|]; [|discriminate].
  rewrite Hnotice. reflexivity.
Qed.

(** A round on a number that is not prime, allowed by the breaker. *)
Lemma test_round_checks
  (pf : Platform) (i number : Z) (x : Round) (cb after : CircuitBreaker)
  (lines : list Event) :
  gt (round_allow x) (_tripped_until cb) = true ->
  format_checking pf i number = Return tt ->
  is_prime number = Return false ->
  trip pf (round_report1 x) (round_report2 x) cb = mkRun (Return tt) after lines ->
  in_order after ->
  format_int pf (_consecutive_failures after) = Return tt ->
  format_int pf (failure_threshold after) = Return tt ->
  exists status,
    test_round pf i number x cb =
      mkRun (Return tt) after
        ([MsgChecking i number; MsgIsNotPrime] ++ lines ++ [MsgStatus status]).
Proof.
  intros Hallowed Hline Htest Htrip Horder Hstreak Hthr.
  destruct (status_line_returns pf (round_status1 x) (round_status2 x) after
              Horder Hstreak Hthr) as (status & Hstatus).
  exists status. unfold test_round.
  rewrite (bind_run _ _ cb cb true []) by (unfold allow, bind, get, ret; cbn; rewrite Hallowed; reflexivity).
  rewrite (bind_run _ _ cb after tt ([MsgChecking i number; MsgIsNotPrime] ++ lines)).
  2:{ rewrite (bind_run _ _ cb cb tt [MsgChecking i number])
        by (unfold print; rewrite Hline; reflexivity).
      rewrite (bind_run _ _ cb cb false []) by (unfold lift; rewrite Htest; reflexivity).
      rewrite (bind_run _ _ cb cb tt [MsgIsNotPrime]) by reflexivity.
      rewrite Htrip. reflexivity. }
  rewrite (bind_run _ _ after after status []) by exact Hstatus.
  cbn [print outcome final printed app]. reflexivity.
Qed.

(** A round that the breaker blocks. *)
Lemma test_round_skips
  (pf : Platform) (i number : Z) (x : Round) (cb : CircuitBreaker) :
  gt (round_allow x) (_tripped_until cb) = false ->
  format_int pf i = Return tt ->
  in_order cb ->
  format_int pf (_consecutive_failures cb) = Return tt ->
  format_int pf (failure_threshold cb) = Return tt ->
  exists status,
    test_round pf i number x cb =
      mkRun (Return tt) cb [MsgSkipping i; MsgStatus status].
Proof.
  intros Hblocked Hline Horder Hstreak Hthr.
  destruct (status_line_returns pf (round_status1 x) (round_status2 x) cb
              Horder Hstreak Hthr) as (status & Hstatus).
  exists status. unfold test_round.
  rewrite (bind_run _ _ cb cb false []) by (unfold allow, bind, get, ret; cbn; rewrite Hblocked; reflexivity).
  rewrite (bind_run _ _ cb cb tt [MsgSkipping i])
    by (unfold print; rewrite Hline; reflexivity).
  rewrite (bind_run _ _ cb cb status []) by exact Hstatus.
  reflexivity.
Qed.

(** X24. [test_circuit_breaker], with the clock as its sleeps of one second
    leave it: the first three rounds start after the epoch, and the last
    three start no later than the deadline stored by the third [trip()]
    (five seconds after it), on a platform that can print the lines.  The
    test checks 4, 6 and 8, which opens the circuit, and skips 9, 10 and 11:
    the one prime of the list, put last to be found, is never tested, and
    no success is ever recorded. *)
Theorem test_skips_the_prime (pf : Platform) (clock : Z -> Round) :
  let deadline := add (round_report2 (clock 3)) float_5 in
  (forall i, 1 <= i <= 3 -> gt_int (round_allow (clock i)) 0 = true) ->
  (forall i, 4 <= i <= 6 -> SFleb (round_allow (clock i)) deadline = true) ->
  format_int pf 11 = Return tt ->
  strftime_fromtimestamp pf deadline = Return tt ->
  exists run s1 s2 s3 s4 s5 s6,
    test_circuit_breaker pf clock = Return run /\
    outcome run = Return tt /\
    printed run =
      [MsgTesting; MsgRule;
       MsgChecking 1 4; MsgIsNotPrime; MsgStatus s1;
       MsgChecking 2 6; MsgIsNotPrime; MsgStatus s2;
       MsgChecking 3 8; MsgIsNotPrime;
       MsgTripped 3; MsgWaiting (PyInt 5); MsgReopenAt deadline; MsgStatus s3;
       MsgSkipping 4; MsgStatus s4;
       MsgSkipping 5; MsgStatus s5;
       MsgSkipping 6; MsgStatus s6;
       MsgTestComplete] /\
    _consecutive_failures (final run) = 3 /\
    _total_failures (final run) = 3 /\
    _total_successes (final run) = 0 /\
    _tripped_until (final run) = PyFloat deadline.
Proof.
  intros deadline Hstart Hsoon Hdigits Hdate.
  assert (Hsmall : forall n, Z.abs n <= 11 -> format_int pf n = Return tt).
  { intros n Hn. apply (format_int_smaller pf n 11); [exact Hn | exact Hdigits]. }
  assert (Hchecking : forall i n, Z.abs i <= 11 -> Z.abs n <= 11 ->
            format_checking pf i n = Return tt).
  { intros i n Hi Hn. unfold format_checking. rewrite (Hsmall i Hi). apply Hsmall, Hn. }
  set (cb0 := mkCircuitBreaker 3 (PyInt 5) (PyInt 0) 0 0 0 None).
  set (x1 := clock 1). set (x2 := clock 2). set (x3 := clock 3).
  set (cb1 := count_failure (round_report1 x1) cb0).
  set (cb2 := count_failure (round_report1 x2) cb1).
  set (cb3 := set_tripped_until (PyFloat deadline) (count_failure (round_report1 x3) cb2)).
  (* the three rounds that check *)
  destruct (test_round_checks pf 1 4 x1 cb0 cb1 []) as (s1 & Hround1).
  { apply (Hstart 1). lia. }
  { apply Hchecking; lia. }
  { reflexivity. }
  { apply trip_below_threshold. cbn. lia. }
  { repeat split; cbn; try lia. left. reflexivity. }
  { apply Hsmall. cbn. lia. }
  { apply Hsmall. cbn. lia. }
  destruct (test_round_checks pf 2 6 x2 cb1 cb2 []) as (s2 & Hround2).
  { apply (Hstart 2). lia. }
  { apply Hchecking; lia. }
  { reflexivity. }
  { apply trip_below_threshold. cbn. lia. }
  { repeat split; cbn; try lia. left. reflexivity. }
  { apply Hsmall. cbn. lia. }
  { apply Hsmall. cbn. lia. }
  destruct (test_round_checks pf 3 8 x3 cb2 cb3
              [MsgTripped 3; MsgWaiting (PyInt 5); MsgReopenAt deadline])
    as (s3 & Hround3).
  { apply (Hstart 3). lia. }
  { apply Hchecking; lia. }
  { reflexivity. }
  { apply (trip_at_threshold pf _ _ float_5 cb2); [cbn; lia | reflexivity |].
    unfold notice. cbn [_consecutive_failures cooldown_seconds cb2 cb1 cb0
                        count_failure set_last_failure_time set_total_failures
                        set_consecutive_failures format_number].
    rewrite (Hsmall (0 + 1 + 1 + 1)) by (cbn; lia).
    rewrite (Hsmall 5) by (cbn; lia). exact Hdate. }
  { repeat split; cbn; try lia. right. eexists. reflexivity. }
  { apply Hsmall. cbn. lia. }
  { apply Hsmall. cbn. lia. }
  (* the three rounds that skip *)
  assert (Hblocked : forall i, 4 <= i <= 6 ->
            gt (round_allow (clock i)) (_tripped_until cb3) = false).
  { intros i Hi. cbn [cb3 _tripped_until set_tripped_until gt].
    apply SFleb_not_gt, Hsoon, Hi. }
  assert (Hskip : forall i number, 4 <= i <= 6 ->
            exists status,
              test_round pf i number (clock i) cb3 =
                mkRun (Return tt) cb3 [MsgSkipping i; MsgStatus status]).
  { intros i number Hi. apply test_round_skips.
    - apply Hblocked, Hi.
    - apply Hsmall. lia.
    - repeat split; cbn; try lia. right. eexists. reflexivity.
    - apply Hsmall. cbn. lia.
    - apply Hsmall. cbn. lia. }
  destruct (Hskip 4 9 ltac:(lia)) as (s4 & Hround4).
  destruct (Hskip 5 10 ltac:(lia)) as (s5 & Hround5).
  destruct (Hskip 6 11 ltac:(lia)) as (s6 & Hround6).
  eexists _, s1, s2, s3, s4, s5, s6.
  split; [reflexivity|].
  fold cb0. cbn [test_rounds Z.add Pos.add Pos.succ].
  fold x1 x2 x3.
  rewrite (bind_run _ _ cb0 cb0 tt [MsgTesting]) by reflexivity.
  rewrite (bind_run _ _ cb0 cb0 tt [MsgRule]) by reflexivity.
  rewrite (bind_run _ _ cb0 cb3 tt
             ([MsgChecking 1 4; MsgIsNotPrime; MsgStatus s1;
               MsgChecking 2 6; MsgIsNotPrime; MsgStatus s2;
               MsgChecking 3 8; MsgIsNotPrime;
               MsgTripped 3; MsgWaiting (PyInt 5); MsgReopenAt deadline; MsgStatus s3;
               MsgSkipping 4; MsgStatus s4;
               MsgSkipping 5; MsgStatus s5;
               MsgSkipping 6; MsgStatus s6])).
  2:{ rewrite (bind_run _ _ cb0 cb1 tt _ Hround1).
      rewrite (bind_run _ _ cb1 cb2 tt _ Hround2).
      rewrite (bind_run _ _ cb2 cb3 tt _ Hround3).
      rewrite (bind_run _ _ cb3 cb3 tt _ Hround4).
      rewrite (bind_run _ _ cb3 cb3 tt _ Hround5).
      rewrite (bind_run _ _ cb3 cb3 tt _ Hround6).
      reflexivity. }
  cbn [print outcome final printed app]. repeat split.
Qed.

Lemma test_skips_the_prime_witness :
  exists run,
    test_circuit_breaker sample_platform sample_clock = Return run /\
    outcome run = Return tt /\
    _total_successes (final run) = 0 /\
    ~ In (MsgChecking 6 11) (printed run).
Proof.
  destruct (test_skips_the_prime sample_platform sample_clock)
    as (run & s1 & s2 & s3 & s4 & s5 & s6 & Hrun & Hout & Hprinted & _ & _ & Hnone & _).
  - intros i Hi. assert (Hcases : i = 1 \/ i = 2 \/ i = 3) by lia.
    destruct Hcases as [-> | [-> | ->]]; reflexivity.
  - intros i Hi. assert (Hcases : i = 4 \/ i = 5 \/ i = 6) by lia.
    destruct Hcases as [-> | [-> | ->]]; reflexivity.
  - reflexivity.
  - reflexivity.
  - exists run. split; [exact Hrun|]. split; [exact Hout|]. split; [exact Hnone|].
    rewrite Hprinted. cbn [In]. intros Hin.
    repeat (destruct Hin as [Hin | Hin]; [discriminate|]). exact Hin.
Defined.
